(** * AlarmClock: the alarm lifecycle, its store and its next-occurrence
    calculator, embedded from the TypeScript and Java sources.

    Layout: the data model and every operation first (one module per source
    object), the theorems afterwards. *)

From Stdlib Require Import ZArith Lia List Bool Ascii String Permutation Sorted.
From stdpp Require Import base strings pretty gmap.

Local Open Scope Z_scope.

(** ** ECMAScript time values

    A JavaScript [Date] holds a time value: integer milliseconds since the
    epoch. The abstract operations below are those of ECMA-262 (section
    "Time Values and Time Range"); the [Date] methods of the sources are
    defined from them. *)

Module Ecma.

Definition msPerSecond : Z := 1000.
Definition msPerMinute : Z := 60000.
Definition msPerHour : Z := 3600000.
Definition msPerDay : Z := 86400000.

Definition Day (t : Z) : Z := t / msPerDay.
Definition TimeWithinDay (t : Z) : Z := t mod msPerDay.

Definition InLeapYear (y : Z) : bool :=
  if negb (y mod 4 =? 0) then false
  else if negb (y mod 100 =? 0) then true
  else if negb (y mod 400 =? 0) then false
  else true.

Definition DaysInYear (y : Z) : Z := if InLeapYear y then 366 else 365.

Definition DayFromYear (y : Z) : Z :=
  365 * (y - 1970) + (y - 1969) / 4 - (y - 1901) / 100 + (y - 1601) / 400.

(** ECMA-262 defines the year of a day as the largest [y] with
    [DayFromYear y <= d]; it is computed here from the mean year length
    (146097 days in 400 years) and corrected by one year either way. *)
Definition YearFromDay (d : Z) : Z :=
  let y := 1970 + (d * 400) / 146097 in
  if DayFromYear (y + 1) <=? d then y + 1
  else if DayFromYear y <=? d then y
  else y - 1.

Definition YearFromTime (t : Z) : Z := YearFromDay (Day t).
Definition DayWithinYear (t : Z) : Z := Day t - DayFromYear (YearFromTime t).

(** Days of the year before month [m] (0 = January), with [leap] 1 in a
    leap year and 0 otherwise: the table of ECMA-262's MonthFromTime. *)
Definition daysBeforeMonth (leap m : Z) : Z :=
  match m with
  | 0 => 0
  | 1 => 31
  | 2 => 59 + leap
  | 3 => 90 + leap
  | 4 => 120 + leap
  | 5 => 151 + leap
  | 6 => 181 + leap
  | 7 => 212 + leap
  | 8 => 243 + leap
  | 9 => 273 + leap
  | 10 => 304 + leap
  | 11 => 334 + leap
  | _ => 365 + leap
  end.

Definition leapDays (y : Z) : Z := if InLeapYear y then 1 else 0.

Definition monthOfYearDay (leap d : Z) : Z :=
  if d <? 31 then 0
  else if d <? 59 + leap then 1
  else if d <? 90 + leap then 2
  else if d <? 120 + leap then 3
  else if d <? 151 + leap then 4
  else if d <? 181 + leap then 5
  else if d <? 212 + leap then 6
  else if d <? 243 + leap then 7
  else if d <? 273 + leap then 8
  else if d <? 304 + leap then 9
  else if d <? 334 + leap then 10
  else 11.

Definition MonthFromTime (t : Z) : Z :=
  monthOfYearDay (leapDays (YearFromTime t)) (DayWithinYear t).

Definition DateFromTime (t : Z) : Z :=
  DayWithinYear t
  - daysBeforeMonth (leapDays (YearFromTime t)) (MonthFromTime t) + 1.

Definition WeekDay (t : Z) : Z := (Day t + 4) mod 7.

Definition HourFromTime (t : Z) : Z := (t / msPerHour) mod 24.
Definition MinFromTime (t : Z) : Z := (t / msPerMinute) mod 60.
Definition SecFromTime (t : Z) : Z := (t / msPerSecond) mod 60.
Definition msFromTime (t : Z) : Z := t mod msPerSecond.

Definition MakeTime (hour min sec ms : Z) : Z :=
  hour * msPerHour + min * msPerMinute + sec * msPerSecond + ms.

(** [MakeDay year month date]: the day number of the first of the month
    ([month] may overflow into the years), plus [date - 1]. *)
Definition MakeDay (year month date : Z) : Z :=
  let ym := year + month / 12 in
  let mn := month mod 12 in
  DayFromYear ym + daysBeforeMonth (leapDays ym) mn + date - 1.

Definition MakeDate (day time : Z) : Z := day * msPerDay + time.

End Ecma.

(** ** [Date] methods

    Local time is UTC shifted by a fixed offset [tz] (milliseconds): the
    device's zone without daylight-saving changes, which the application
    does not handle either. A [Date] is its time value. *)

Module JsDate.
Import Ecma.

Definition LocalTime (tz t : Z) : Z := t + tz.
Definition UTC (tz t : Z) : Z := t - tz.

Definition getTime (t : Z) : Z := t.
Definition getHours (tz t : Z) : Z := HourFromTime (LocalTime tz t).
Definition getMinutes (tz t : Z) : Z := MinFromTime (LocalTime tz t).
Definition getSeconds (tz t : Z) : Z := SecFromTime (LocalTime tz t).
Definition getMilliseconds (tz t : Z) : Z := msFromTime (LocalTime tz t).
Definition getDay (tz t : Z) : Z := WeekDay (LocalTime tz t).
Definition getDate (tz t : Z) : Z := DateFromTime (LocalTime tz t).

(** [d.setDate(dt)] *)
Definition setDate (tz t dt : Z) : Z :=
  let l := LocalTime tz t in
  UTC tz (MakeDate (MakeDay (YearFromTime l) (MonthFromTime l) dt)
                   (TimeWithinDay l)).

(** [d.setHours(h, m, s, ms)] *)
Definition setHours (tz t h m s ms : Z) : Z :=
  let l := LocalTime tz t in
  UTC tz (MakeDate (Day l) (MakeTime h m s ms)).

End JsDate.

(** ** src/types/alarm.ts *)

Inductive RepeatDay := Mon | Tue | Wed | Thu | Fri | Sat | Sun.

Definition DAYS : list RepeatDay := [Mon; Tue; Wed; Thu; Fri; Sat; Sun].

Record Alarm := mkAlarm {
  id : string;
  time : Z;
  label : string;
  enabled : bool;
  repeatDays : list RepeatDay;
  notificationId : option string
}.

(** ** Array helpers of the JavaScript library *)

(** [xs.includes(x)] on numbers *)
Definition includes (xs : list Z) (x : Z) : bool := existsb (Z.eqb x) xs.

Fixpoint insertAsc (x : Z) (xs : list Z) : list Z :=
  match xs with
  | [] => [x]
  | y :: ys => if x <=? y then x :: xs else y :: insertAsc x ys
  end.

(** [xs.sort((a, b) => a - b)] *)
Definition sortAsc (xs : list Z) : list Z := fold_right insertAsc [] xs.

(** ** src/services/notificationService.ts: the next-occurrence calculator

    [tz] is the zone offset and [now] the instant every [new Date()] of one
    call reads: a call is taken to run within one clock reading (readings
    on one local day give the same result, see [nextFromDayNumbersAt]). *)

(** [dayMap] inside [getNextOccurrence]: 0 = Sunday, ..., 6 = Saturday *)
Definition dayMap (day : RepeatDay) : Z :=
  match day with
  | Sun => 0 | Mon => 1 | Tue => 2 | Wed => 3 | Thu => 4 | Fri => 5 | Sat => 6
  end.

(** The [for (let i = 0; i < 7; i++)] loop, [n] iterations left: [Some] is
    the [return candidate] inside the loop, [None] is falling out of it. *)
Fixpoint scanDays (tz : Z) (repeatDayNumbers : list Z) (n : nat) (candidate : Z)
  : option Z :=
  match n with
  | O => None
  | S n' =>
      let dayOfWeek := JsDate.getDay tz candidate in
      if includes repeatDayNumbers dayOfWeek then Some candidate
      else scanDays tz repeatDayNumbers n'
             (JsDate.setDate tz candidate (JsDate.getDate tz candidate + 1))
  end.

(** The part of [getNextOccurrence] after [repeatDayNumbers] is computed,
    with its three readings of the clock: [now], the [new Date()] the
    candidate starts from, and the one the fallback starts from. *)
Definition nextFromDayNumbersAt
  (tz now candidateNow fallbackNow alarmTime : Z) (repeatDayNumbers : list Z) : Z :=
  let alarmHour := JsDate.getHours tz alarmTime in
  let alarmMinute := JsDate.getMinutes tz alarmTime in
  let candidate := JsDate.setHours tz candidateNow alarmHour alarmMinute 0 0 in
  let candidate :=
    if candidate <=? now
    then JsDate.setDate tz candidate (JsDate.getDate tz candidate + 1)
    else candidate in
  match scanDays tz repeatDayNumbers 7 candidate with
  | Some found => found
  | None =>
      let fallback := JsDate.setHours tz fallbackNow alarmHour alarmMinute 0 0 in
      JsDate.setDate tz fallback (JsDate.getDate tz fallback + 1)
  end.

(** One call read at one instant [now]. *)
Definition nextFromDayNumbers (tz now alarmTime : Z) (repeatDayNumbers : list Z) : Z :=
  nextFromDayNumbersAt tz now now now alarmTime repeatDayNumbers.

Definition getNextOccurrence (tz now alarmTime : Z) (repeatDays : list RepeatDay) : Z :=
  if (length repeatDays =? 0)%nat then
    let result := alarmTime in
    if result <? now
    then JsDate.setDate tz result (JsDate.getDate tz result + 1)
    else result
  else
    nextFromDayNumbers tz now alarmTime (sortAsc (map dayMap repeatDays)).

(** The one-time branch of [scheduleNativeAlarm]. *)
Definition oneTimeTrigger (tz now alarmTime : Z) : Z :=
  let triggerDate := alarmTime in
  if triggerDate <? now
  then JsDate.setDate tz triggerDate (JsDate.getDate tz triggerDate + 1)
  else triggerDate.

(** ** Specification vocabulary: the calculator *)

(** [t] is at the alarm's time of day: hour and minute of [alarmTime],
    zero seconds and milliseconds, on some local calendar day. *)
Definition atAlarmTime (tz alarmTime t : Z) : Prop :=
  Ecma.TimeWithinDay (JsDate.LocalTime tz t)
  = Ecma.MakeTime (JsDate.getHours tz alarmTime) (JsDate.getMinutes tz alarmTime) 0 0.

(** The local weekday of [t] is one of [repeatDays]. *)
Definition onRepeatDay (tz : Z) (repeatDays : list RepeatDay) (t : Z) : bool :=
  existsb (fun d => dayMap d =? JsDate.getDay tz t) repeatDays.

(** The local calendar day (day number since the epoch) of [t]. *)
Definition localDay (tz t : Z) : Z := Ecma.Day (JsDate.LocalTime tz t).

(** [t] falls on local day [day] at the time of day of [alarmTime],
    seconds and milliseconds included. *)
Definition sameTimeOfDayOn (tz alarmTime day t : Z) : Prop :=
  localDay tz t = day
  /\ Ecma.TimeWithinDay (JsDate.LocalTime tz t)
     = Ecma.TimeWithinDay (JsDate.LocalTime tz alarmTime).

(** The instant the scan of [getNextOccurrence] starts from: today at the
    alarm time, or one day later when that is not after [now]. *)
Definition startCandidate (tz now alarmTime : Z) : Z :=
  let c0 := JsDate.setHours tz now (JsDate.getHours tz alarmTime)
              (JsDate.getMinutes tz alarmTime) 0 0 in
  if c0 <=? now then c0 + Ecma.msPerDay else c0.

(** ** Text forms of the persisted fields

    [Date.prototype.toISOString], the [Date] constructor on a string, and
    [JSON.stringify] / [JSON.parse] on a [RepeatDay[]], as the storage
    layer uses them. *)

Module Iso.
Import Ecma.

Definition digitChar (d : Z) : ascii := ascii_of_nat (48 + Z.to_nat d).
Definition isDigit (c : ascii) : bool :=
  ((48 <=? nat_of_ascii c) && (nat_of_ascii c <=? 57))%nat.
Definition digitValue (c : ascii) : Z := Z.of_nat (nat_of_ascii c) - 48.

(** [n] in [k] decimal digits, zero-padded, most significant first. *)
Fixpoint digits (k : nat) (n : Z) : string :=
  match k with
  | O => EmptyString
  | S k' => String (digitChar (n / 10 ^ Z.of_nat k')) (digits k' (n mod 10 ^ Z.of_nat k'))
  end.

(** Year as ECMA-262 writes it: four digits from 0 to 9999, otherwise a sign
    and six digits. *)
Definition yearText (y : Z) : string :=
  if (0 <=? y) && (y <=? 9999) then digits 4 y
  else if y <? 0 then String "-" (digits 6 (- y))
  else String "+" (digits 6 y).

(** [new Date(t).toISOString()] for a time value [t]. *)
Definition toISOString (t : Z) : string :=
  yearText (YearFromTime t)
  +:+ "-" +:+ digits 2 (MonthFromTime t + 1)
  +:+ "-" +:+ digits 2 (DateFromTime t)
  +:+ "T" +:+ digits 2 (HourFromTime t)
  +:+ ":" +:+ digits 2 (MinFromTime t)
  +:+ ":" +:+ digits 2 (SecFromTime t)
  +:+ "." +:+ digits 3 (msFromTime t)
  +:+ "Z".

(** Read exactly [k] digits. *)
Fixpoint readDigits (k : nat) (acc : Z) (s : string) : option (Z * string) :=
  match k with
  | O => Some (acc, s)
  | S k' =>
      match s with
      | String c s' =>
          if isDigit c then readDigits k' (acc * 10 + digitValue c) s' else None
      | EmptyString => None
      end
  end.

Definition expect (c : ascii) (s : string) : option string :=
  match s with
  | String c' s' => if Ascii.eqb c c' then Some s' else None
  | EmptyString => None
  end.

Definition readYear (s : string) : option (Z * string) :=
  match s with
  | String c s' =>
      if Ascii.eqb c "+" then readDigits 6 0 s'
      else if Ascii.eqb c "-" then
        '(y, rest) ← readDigits 6 0 s';
        if y =? 0 then None else Some (- y, rest)
      else readDigits 4 0 s
  | EmptyString => None
  end.

(** Largest magnitude of a time value (ECMA-262 TimeClip). *)
Definition maxTime : Z := 8640000000000000.

Definition TimeClip (t : Z) : option Z :=
  if (- maxTime <=? t) && (t <=? maxTime) then Some t else None.

(** [new Date(text)] on the date-time form with milliseconds and [Z] that
    [toISOString] writes; [None] is the Invalid Date. The other forms the
    [Date] constructor accepts are not modelled and read as [None] too. *)
Definition parseDate (text : string) : option Z :=
  '(y, s) ← readYear text;
  s ← expect "-" s;
  '(mo, s) ← readDigits 2 0 s;
  s ← expect "-" s;
  '(d, s) ← readDigits 2 0 s;
  s ← expect "T" s;
  '(h, s) ← readDigits 2 0 s;
  s ← expect ":" s;
  '(mi, s) ← readDigits 2 0 s;
  s ← expect ":" s;
  '(sec, s) ← readDigits 2 0 s;
  s ← expect "." s;
  '(ms, s) ← readDigits 3 0 s;
  s ← expect "Z" s;
  if String.eqb s EmptyString
     && (1 <=? mo) && (mo <=? 12) && (1 <=? d) && (d <=? 31)
     && (h <=? 23) && (mi <=? 59) && (sec <=? 59)
  then TimeClip (MakeDate (MakeDay y (mo - 1) d) (MakeTime h mi sec ms))
  else None.

End Iso.

Module Json.

Definition dquote : ascii := ascii_of_nat 34.

Definition dayName (d : RepeatDay) : string :=
  match d with
  | Mon => "Mon" | Tue => "Tue" | Wed => "Wed" | Thu => "Thu"
  | Fri => "Fri" | Sat => "Sat" | Sun => "Sun"
  end.

Definition dayOfName (s : string) : option RepeatDay :=
  if String.eqb s "Mon" then Some Mon
  else if String.eqb s "Tue" then Some Tue
  else if String.eqb s "Wed" then Some Wed
  else if String.eqb s "Thu" then Some Thu
  else if String.eqb s "Fri" then Some Fri
  else if String.eqb s "Sat" then Some Sat
  else if String.eqb s "Sun" then Some Sun
  else None.

(** A string without characters to escape, between double quotes. *)
Definition quoted (s : string) : string :=
  String dquote (s +:+ String dquote EmptyString).

Fixpoint joinComma (xs : list string) : string :=
  match xs with
  | [] => EmptyString
  | [x] => x
  | x :: rest => x +:+ "," +:+ joinComma rest
  end.

(** [JSON.stringify(repeatDays)] *)
Definition stringify (repeatDays : list RepeatDay) : string :=
  "[" +:+ joinComma (map (fun d => quoted (dayName d)) repeatDays) +:+ "]".

(** The elements after the opening bracket: day names between quotes,
    separated by commas, up to the closing bracket that ends the text. *)
Fixpoint parseElements (s : string) : option (list RepeatDay) :=
  match s with
  | String q (String a (String b (String c (String q' rest)))) =>
      if Ascii.eqb q dquote && Ascii.eqb q' dquote then
        d ← dayOfName (String a (String b (String c EmptyString)));
        match rest with
        | String "," more => ds ← parseElements more; Some (d :: ds)
        | String "]" EmptyString => Some [d]
        | _ => None
        end
      else None
  | _ => None
  end.

(** [JSON.parse(text) as RepeatDay[]] on the compact text [stringify]
    writes. [None] stands for the [SyntaxError] of a malformed text; JSON
    values that are not arrays of day names do not inhabit [RepeatDay[]] and
    are read as [None] as well. *)
Definition parse (text : string) : option (list RepeatDay) :=
  match text with
  | String "[" (String "]" EmptyString) => Some []
  | String "[" rest => parseElements rest
  | _ => None
  end.

End Json.

(** ** The world the services run in

    The persistent table, the host platform (expo-notifications, the
    Android AlarmManager behind the native module, the React Native bridge)
    and the navigation stack. The [async] functions of the sources are run
    to completion one after the other; every call into the platform may
    reject, as [rejects] decides at each step. *)

Inductive OS := android | ios.

(** The platform calls whose promise can reject. *)
Inductive Call :=
  | OpenDatabase | ExecSchema | GetAll | GetFirst | Run
  | GetPermissions | RequestPermissions | SetNotificationChannel
  | ScheduleNotification | CancelScheduledNotification
  | CancelAllScheduledNotifications
  | NativeCanScheduleExactAlarms | NativeRequestExactAlarmPermission
  | NativeScheduleAlarm | NativeCancelAlarm | NativeCancelAllAlarms.

(** What a [catch] can receive. *)
Inductive JsError :=
  | Rejected (c : Call)
  | ConstraintFailed
  | SyntaxError
  | InvalidDate
  | ErrorMessage (message : string).

Module AlarmRow.
(** A row of the [alarms] table ([createdAt] and [updatedAt] are written
    but never read back). *)
Record t := mk {
  id : string;
  time : string;
  label : string;
  enabled : Z;
  repeatDays : string;
  notificationId : option string
}.
End AlarmRow.

(** An alarm held by the AlarmManager: the extras of its intent and its
    trigger time. *)
Record PendingAlarm := mkPendingAlarm {
  intentAlarmId : string;
  intentLabel : string;
  triggerTime : Z;
  isRepeating : bool
}.

Inductive Trigger :=
  | CalendarTrigger (hour minute : Z) (repeats : bool)
  | DateTrigger (date : Z).

(** A notification scheduled through expo-notifications. *)
Record NotificationRequest := mkNotificationRequest {
  identifier : string;
  title : string;
  body : string;
  dataAlarmId : string;
  dataLabel : string;
  dataIsSnooze : bool;
  trigger : Trigger
}.

(** A screen on the router's stack. *)
Inductive Route :=
  | RingScreen (ringId ringLabel : string)
  | OtherScreen.

(** What the device and its user decide; no operation changes it. *)
Record Device := mkDevice {
  tzOffset : Z;
  platformOS : OS;
  hasAlarmModule : bool;          (* NativeModules.AlarmModule is defined *)
  hasAlarmEventModule : bool;     (* NativeModules.AlarmEventModule is defined *)
  sdkInt : Z;                     (* Build.VERSION.SDK_INT *)
  userGrantsNotifications : bool; (* the answer to the permission dialog *)
  exactAlarmsAllowed : bool;      (* AlarmManager.canScheduleExactAlarms() *)
  catalystActive : bool;          (* reactContext.hasActiveCatalystInstance() *)
  rejects : nat -> Call -> bool   (* whether the call made at a step rejects *)
}.

Record World := mkWorld {
  device : Device;
  clock : Z;                               (* Date.now() *)
  tick : nat;                              (* platform calls made so far *)
  db : bool;                               (* database.ts: [db] is set *)
  alarmsTable : list AlarmRow.t;
  notificationsGranted : bool;
  scheduled : list NotificationRequest;
  nextIdentifier : nat;
  alarmManager : gmap Z PendingAlarm;      (* keyed by request code *)
  subscription : bool;                     (* alarmEventService.subscription *)
  routerStack : list Route
}.

Definition set_tick (n : nat) (w : World) : World :=
  mkWorld (device w) (clock w) n (db w) (alarmsTable w) (notificationsGranted w)
    (scheduled w) (nextIdentifier w) (alarmManager w) (subscription w) (routerStack w).
Definition set_db (b : bool) (w : World) : World :=
  mkWorld (device w) (clock w) (tick w) b (alarmsTable w) (notificationsGranted w)
    (scheduled w) (nextIdentifier w) (alarmManager w) (subscription w) (routerStack w).
Definition set_alarmsTable (rows : list AlarmRow.t) (w : World) : World :=
  mkWorld (device w) (clock w) (tick w) (db w) rows (notificationsGranted w)
    (scheduled w) (nextIdentifier w) (alarmManager w) (subscription w) (routerStack w).
Definition set_notificationsGranted (b : bool) (w : World) : World :=
  mkWorld (device w) (clock w) (tick w) (db w) (alarmsTable w) b
    (scheduled w) (nextIdentifier w) (alarmManager w) (subscription w) (routerStack w).
Definition set_scheduled (l : list NotificationRequest) (w : World) : World :=
  mkWorld (device w) (clock w) (tick w) (db w) (alarmsTable w) (notificationsGranted w)
    l (nextIdentifier w) (alarmManager w) (subscription w) (routerStack w).
Definition set_nextIdentifier (n : nat) (w : World) : World :=
  mkWorld (device w) (clock w) (tick w) (db w) (alarmsTable w) (notificationsGranted w)
    (scheduled w) n (alarmManager w) (subscription w) (routerStack w).
Definition set_alarmManager (m : gmap Z PendingAlarm) (w : World) : World :=
  mkWorld (device w) (clock w) (tick w) (db w) (alarmsTable w) (notificationsGranted w)
    (scheduled w) (nextIdentifier w) m (subscription w) (routerStack w).
Definition set_subscription (b : bool) (w : World) : World :=
  mkWorld (device w) (clock w) (tick w) (db w) (alarmsTable w) (notificationsGranted w)
    (scheduled w) (nextIdentifier w) (alarmManager w) b (routerStack w).
Definition set_routerStack (l : list Route) (w : World) : World :=
  mkWorld (device w) (clock w) (tick w) (db w) (alarmsTable w) (notificationsGranted w)
    (scheduled w) (nextIdentifier w) (alarmManager w) (subscription w) l.

(** ** Promises: state and exceptions *)

Inductive Outcome (A : Type) :=
  | Ok (a : A)
  | Throw (e : JsError).
Arguments Ok {A} a.
Arguments Throw {A} e.

Definition M (A : Type) : Type := World -> Outcome A * World.

Definition ret {A} (a : A) : M A := fun w => (Ok a, w).
Definition throw {A} (e : JsError) : M A := fun w => (Throw e, w).
Definition bind {A B} (m : M A) (k : A -> M B) : M B :=
  fun w => match m w with
           | (Ok a, w') => k a w'
           | (Throw e, w') => (Throw e, w')
           end.
(** [try { m } catch (error) { h error }] *)
Definition tryCatch {A} (m : M A) (h : JsError -> M A) : M A :=
  fun w => match m w with
           | (Ok a, w') => (Ok a, w')
           | (Throw e, w') => h e w'
           end.
Definition get : M World := fun w => (Ok w, w).
Definition modify (f : World -> World) : M unit := fun w => (Ok tt, f w).

Declare Scope js_scope.
Delimit Scope js_scope with js.
Notation "x <- m ;; k" := (bind m (fun x => k))
  (at level 100, m at next level, right associativity) : js_scope.
Notation "m ;; k" := (bind m (fun _ => k))
  (at level 100, k at level 200, right associativity) : js_scope.
Local Open Scope js_scope.

(** [await] of a platform call: one step, which rejects when the device
    says so. *)
Definition await (c : Call) : M unit :=
  fun w =>
    let w' := set_tick (S (tick w)) w in
    if rejects (device w) (tick w) c then (Throw (Rejected c), w') else (Ok tt, w').

(** [xs.map(f)] where [f] may throw. *)
Fixpoint mapM {A B} (f : A -> M B) (xs : list A) : M (list B) :=
  match xs with
  | [] => ret []
  | x :: rest => y <- f x ;; ys <- mapM f rest ;; ret (y :: ys)
  end.

Definition orElse (s default : string) : string :=
  if String.eqb s EmptyString then default else s.

(** ** String helpers of the JavaScript and Java libraries *)

(** [s.startsWith(p)] *)
Fixpoint startsWith (p s : string) : bool :=
  match p, s with
  | EmptyString, _ => true
  | String a p', String b s' => Ascii.eqb a b && startsWith p' s'
  | String _ _, EmptyString => false
  end.

Fixpoint dropChars (n : nat) (s : string) : string :=
  match n, s with
  | O, _ => s
  | S n', String _ s' => dropChars n' s'
  | S _, EmptyString => EmptyString
  end.

(** [s.replace(pat, rep)] with a string pattern: the first occurrence. *)
Fixpoint replaceFirst (pat rep s : string) : string :=
  if startsWith pat s then rep +:+ dropChars (String.length pat) s
  else match s with
       | String c s' => String c (replaceFirst pat rep s')
       | EmptyString => EmptyString
       end.

Fixpoint fill (k : nat) (c : ascii) (s : string) : string :=
  match k with
  | O => s
  | S k' => String c (fill k' c s)
  end.

(** [s.padStart(n, c)] with a filler of one character. *)
Definition padStart (n : nat) (c : ascii) (s : string) : string :=
  fill (n - String.length s) c s.

(** Java [int] arithmetic: wrap to 32 bits, two's complement. *)
Definition wrapInt (x : Z) : Z := (x + 2 ^ 31) mod 2 ^ 32 - 2 ^ 31.

Fixpoint hashFrom (h : Z) (s : string) : Z :=
  match s with
  | EmptyString => h
  | String c s' => hashFrom (wrapInt (31 * h + Z.of_nat (nat_of_ascii c))) s'
  end.

(** [java.lang.String.hashCode()] (on strings of one-byte characters, as
    the alarm ids are). *)
Definition hashCode (s : string) : Z := hashFrom 0 s.

Definition M32 : Z := 2 ^ 32.

(** ** database.ts *)

Module database.
Local Open Scope js_scope.

Definition getDatabase : M unit :=
  w <- get ;;
  if db w then ret tt
  else (await OpenDatabase ;;
        modify (set_db true) ;;
        await ExecSchema).

End database.

(** The statements the storage layer runs, on the table. *)
Module Sql.

Definition hasId (id : string) (row : AlarmRow.t) : bool := String.eqb (AlarmRow.id row) id.

Fixpoint insertByTime (r : AlarmRow.t) (rows : list AlarmRow.t) : list AlarmRow.t :=
  match rows with
  | [] => [r]
  | x :: rest =>
      if String.leb (AlarmRow.time r) (AlarmRow.time x) then r :: rows
      else x :: insertByTime r rest
  end.

(** [ORDER BY time ASC]: the text column compared byte by byte, ties in
    table order. *)
Definition orderByTime (rows : list AlarmRow.t) : list AlarmRow.t :=
  fold_right insertByTime [] rows.

(** [UPDATE alarms SET time, label, enabled, repeatDays, notificationId
    WHERE id = ?] *)
Definition updateRow (new : AlarmRow.t) (rows : list AlarmRow.t) : list AlarmRow.t :=
  map (fun row => if hasId (AlarmRow.id new) row then new else row) rows.

(** [UPDATE alarms SET enabled = ? WHERE id = ?] *)
Definition setEnabled (id : string) (v : Z) (rows : list AlarmRow.t) : list AlarmRow.t :=
  map (fun row =>
         if hasId id row
         then AlarmRow.mk (AlarmRow.id row) (AlarmRow.time row) (AlarmRow.label row) v
                (AlarmRow.repeatDays row) (AlarmRow.notificationId row)
         else row) rows.

(** [DELETE FROM alarms WHERE id = ?] *)
Definition deleteRow (id : string) (rows : list AlarmRow.t) : list AlarmRow.t :=
  List.filter (fun row => negb (hasId id row)) rows.

End Sql.

(** ** src/services/alarmStorage.ts *)

Module alarmStorage.
Local Open Scope js_scope.

(** A row whose [time] text gives an Invalid Date has no [Alarm] in this
    model (a [time] is a time value): the conversion is reported as failed.
    The rows [alarmToRow] writes are never of that kind. *)
Definition rowToAlarm (row : AlarmRow.t) : M Alarm :=
  match Iso.parseDate (AlarmRow.time row) with
  | None => throw InvalidDate
  | Some t =>
      match Json.parse (AlarmRow.repeatDays row) with
      | None => throw SyntaxError
      | Some days =>
          ret (mkAlarm (AlarmRow.id row) t (AlarmRow.label row) (AlarmRow.enabled row =? 1) days
                 (match AlarmRow.notificationId row with
                  | Some n => if String.eqb n EmptyString then None else Some n
                  | None => None
                  end))
      end
  end.

Definition alarmToRow (alarm : Alarm) : AlarmRow.t :=
  AlarmRow.mk (id alarm) (Iso.toISOString (time alarm)) (label alarm)
    (if enabled alarm then 1 else 0)
    (Json.stringify (repeatDays alarm))
    (match notificationId alarm with
     | Some n => if String.eqb n EmptyString then None else Some n
     | None => None
     end).

Definition getAlarms : M (list Alarm) :=
  tryCatch
    (database.getDatabase ;;
     await GetAll ;;
     w <- get ;;
     mapM rowToAlarm (Sql.orderByTime (alarmsTable w)))
    (fun _ => ret []).

Definition addAlarm (alarm : Alarm) : M (list Alarm) :=
  tryCatch
    (database.getDatabase ;;
     let row := alarmToRow alarm in
     await Run ;;
     w <- get ;;
     (if existsb (Sql.hasId (AlarmRow.id row)) (alarmsTable w)
      then throw ConstraintFailed
      else modify (set_alarmsTable (alarmsTable w ++ [row]))) ;;
     getAlarms)
    (fun error => throw error).

Definition updateAlarm (updatedAlarm : Alarm) : M (list Alarm) :=
  tryCatch
    (database.getDatabase ;;
     let row := alarmToRow updatedAlarm in
     await Run ;;
     w <- get ;;
     modify (set_alarmsTable (Sql.updateRow row (alarmsTable w))) ;;
     getAlarms)
    (fun error => throw error).

Definition deleteAlarm (id : string) : M (list Alarm) :=
  tryCatch
    (database.getDatabase ;;
     await Run ;;
     w <- get ;;
     modify (set_alarmsTable (Sql.deleteRow id (alarmsTable w))) ;;
     getAlarms)
    (fun error => throw error).

Definition getAlarmById (id : string) : M (option Alarm) :=
  tryCatch
    (database.getDatabase ;;
     await GetFirst ;;
     w <- get ;;
     match find (Sql.hasId id) (alarmsTable w) with
     | Some result => alarm <- rowToAlarm result ;; ret (Some alarm)
     | None => ret None
     end)
    (fun _ => ret None).

Definition notFound (id : string) : JsError :=
  ErrorMessage ("Alarm with id " +:+ id +:+ " not found").

Definition toggleAlarm (id : string) : M (list Alarm) :=
  tryCatch
    (database.getDatabase ;;
     alarm <- getAlarmById id ;;
     match alarm with
     | None => throw (notFound id)
     | Some alarm =>
         let newEnabledState := if enabled alarm then 0 else 1 in
         await Run ;;
         w <- get ;;
         modify (set_alarmsTable (Sql.setEnabled id newEnabledState (alarmsTable w))) ;;
         getAlarms
     end)
    (fun error => throw error).

(** [sqlLike pattern text] is the LIKE operator of the SQL engine. *)
Definition findAlarmsByLabel (sqlLike : string -> string -> bool) (searchTerm : string)
  : M (list Alarm) :=
  tryCatch
    (database.getDatabase ;;
     await GetAll ;;
     w <- get ;;
     mapM rowToAlarm
       (Sql.orderByTime
          (List.filter (fun row => sqlLike ("%" +:+ searchTerm +:+ "%") (AlarmRow.label row))
             (alarmsTable w))))
    (fun _ => ret []).

Definition clearAllAlarms : M unit :=
  tryCatch
    (database.getDatabase ;;
     await Run ;;
     modify (set_alarmsTable []))
    (fun error => throw error).

Definition getAlarmsByEnabledState (enabled : bool) : M (list Alarm) :=
  tryCatch
    (database.getDatabase ;;
     await GetAll ;;
     w <- get ;;
     mapM rowToAlarm
       (Sql.orderByTime
          (List.filter (fun row => AlarmRow.enabled row =? (if enabled then 1 else 0))
             (alarmsTable w))))
    (fun _ => ret []).

Definition getAlarmsCount : M Z :=
  tryCatch
    (database.getDatabase ;;
     await GetFirst ;;
     w <- get ;;
     ret (Z.of_nat (length (alarmsTable w))))
    (fun _ => ret 0).

End alarmStorage.

(** ** AlarmModule.java: the native module over the AlarmManager *)

Module AlarmModuleNative.
Local Open Scope js_scope.

Definition VERSION_CODES_S : Z := 31.

Definition canScheduleExactAlarms : M bool :=
  await NativeCanScheduleExactAlarms ;;
  w <- get ;;
  if VERSION_CODES_S <=? sdkInt (device w)
  then ret (exactAlarmsAllowed (device w))
  else ret true.

(** Opens the system settings screen; the permission itself is the user's
    to change there. *)
Definition requestExactAlarmPermission : M unit :=
  await NativeRequestExactAlarmPermission.

(** The pending intent is identified by its request code, the hash of the
    alarm id; with [FLAG_UPDATE_CURRENT] an alarm set for an existing one
    takes its place. *)
Definition scheduleAlarm (alarmData : PendingAlarm) : M unit :=
  await NativeScheduleAlarm ;;
  w <- get ;;
  let requestCode := hashCode (intentAlarmId alarmData) in
  modify (set_alarmManager (<[requestCode := alarmData]> (alarmManager w))).

Definition cancelAlarm (alarmId : string) : M unit :=
  await NativeCancelAlarm ;;
  w <- get ;;
  let requestCode := hashCode alarmId in
  modify (set_alarmManager (delete requestCode (alarmManager w))).

(** A placeholder in the source: nothing is cancelled. *)
Definition cancelAllAlarms : M unit :=
  await NativeCancelAllAlarms.

End AlarmModuleNative.

(** ** src/services/nativeAlarmModule.ts *)

Module AlarmModule.
Local Open Scope js_scope.

Definition isAvailable (w : World) : bool :=
  match platformOS (device w) with
  | android => hasAlarmModule (device w)
  | ios => false
  end.

Definition canScheduleExactAlarms : M bool :=
  w <- get ;;
  if negb (isAvailable w) then ret false
  else tryCatch AlarmModuleNative.canScheduleExactAlarms (fun _ => ret false).

Definition requestExactAlarmPermission : M unit :=
  w <- get ;;
  if negb (isAvailable w) then ret tt
  else tryCatch AlarmModuleNative.requestExactAlarmPermission (fun error => throw error).

Definition scheduleAlarm (alarmData : PendingAlarm) : M unit :=
  w <- get ;;
  if negb (isAvailable w)
  then throw (ErrorMessage "AlarmModule not available on this platform")
  else tryCatch (AlarmModuleNative.scheduleAlarm alarmData) (fun error => throw error).

Definition cancelAlarm (alarmId : string) : M unit :=
  w <- get ;;
  if negb (isAvailable w) then ret tt
  else tryCatch (AlarmModuleNative.cancelAlarm alarmId) (fun error => throw error).

Definition cancelAllAlarms : M unit :=
  w <- get ;;
  if negb (isAvailable w) then ret tt
  else tryCatch AlarmModuleNative.cancelAllAlarms (fun error => throw error).

End AlarmModule.

(** ** expo-notifications, as the services call it *)

Module Notifications.
Local Open Scope js_scope.

(** The identifier the library gives a scheduled request: fresh at every
    call. *)
Definition identifierOf (n : nat) : string := "expo-" +:+ pretty n.

Definition scheduleNotificationAsync
  (title body dataAlarmId dataLabel : string) (dataIsSnooze : bool) (trigger : Trigger)
  : M string :=
  await ScheduleNotification ;;
  w <- get ;;
  let notificationId := identifierOf (nextIdentifier w) in
  modify (set_nextIdentifier (S (nextIdentifier w))) ;;
  modify (fun w =>
            set_scheduled
              (scheduled w ++
               [mkNotificationRequest notificationId title body dataAlarmId dataLabel
                  dataIsSnooze trigger]) w) ;;
  ret notificationId.

Definition cancelScheduledNotificationAsync (notificationId : string) : M unit :=
  await CancelScheduledNotification ;;
  w <- get ;;
  modify (set_scheduled
            (List.filter (fun n => negb (String.eqb (identifier n) notificationId))
               (scheduled w))).

Definition cancelAllScheduledNotificationsAsync : M unit :=
  await CancelAllScheduledNotifications ;;
  modify (set_scheduled []).

End Notifications.

(** ** src/services/notificationService.ts *)

Module notificationService.
Local Open Scope js_scope.

Definition requestPermissions : M bool :=
  await GetPermissions ;;
  w <- get ;;
  let existingStatus := notificationsGranted w in
  finalStatus <-
    (if negb existingStatus
     then (await RequestPermissions ;;
           let status := userGrantsNotifications (device w) in
           modify (set_notificationsGranted status) ;;
           ret status)
     else ret existingStatus) ;;
  (if finalStatus && match platformOS (device w) with android => true | ios => false end
   then await SetNotificationChannel
   else ret tt) ;;
  ret finalStatus.

Definition requestExactAlarmPermission : M bool :=
  w <- get ;;
  if negb (AlarmModule.isAvailable w) then ret true
  else
    canSchedule <- AlarmModule.canScheduleExactAlarms ;;
    if negb canSchedule then
      AlarmModule.requestExactAlarmPermission ;;
      AlarmModule.canScheduleExactAlarms
    else ret true.

Definition cancelNotification (notificationId : string) : M unit :=
  tryCatch
    (if startsWith "native-" notificationId then
       let alarmId := replaceFirst "native-" EmptyString notificationId in
       w <- get ;;
       if AlarmModule.isAvailable w then AlarmModule.cancelAlarm alarmId else ret tt
     else Notifications.cancelScheduledNotificationAsync notificationId)
    (fun _ => ret tt).

Definition scheduleNativeAlarm (alarm : Alarm) : M unit :=
  w <- get ;;
  if negb (AlarmModule.isAvailable w)
  then throw (ErrorMessage "Native alarm module not available")
  else
    let isRepeating := (0 <? length (repeatDays alarm))%nat in
    let triggerDate :=
      if isRepeating
      then getNextOccurrence (tzOffset (device w)) (clock w) (time alarm) (repeatDays alarm)
      else oneTimeTrigger (tzOffset (device w)) (clock w) (time alarm) in
    AlarmModule.scheduleAlarm
      (mkPendingAlarm (id alarm) (orElse (label alarm) "Alarm")
         (JsDate.getTime triggerDate) isRepeating).

Definition scheduleAlarmNotification (alarm : Alarm) : M (option string) :=
  tryCatch
    (hasPermission <- requestPermissions ;;
     if negb hasPermission then ret None
     else
       _ <- requestExactAlarmPermission ;;
       (match notificationId alarm with
        | Some existing =>
            if String.eqb existing EmptyString then ret tt
            else cancelNotification existing
        | None => ret tt
        end) ;;
       w <- get ;;
       let hour := JsDate.getHours (tzOffset (device w)) (time alarm) in
       let minute := JsDate.getMinutes (tzOffset (device w)) (time alarm) in
       if AlarmModule.isAvailable w then
         scheduleNativeAlarm alarm ;;
         ret (Some ("native-" +:+ id alarm))
       else if (0 <? length (repeatDays alarm))%nat then
         notificationId <-
           Notifications.scheduleNotificationAsync "Alarm ⏰"
             (orElse (label alarm) "Time to wake up!") (id alarm) (label alarm) false
             (CalendarTrigger hour minute true) ;;
         ret (Some notificationId)
       else
         let triggerDate := oneTimeTrigger (tzOffset (device w)) (clock w) (time alarm) in
         notificationId <-
           Notifications.scheduleNotificationAsync "Alarm ⏰"
             (orElse (label alarm) "Time to wake up!") (id alarm) (label alarm) false
             (DateTrigger triggerDate) ;;
         ret (Some notificationId))
    (fun _ => ret None).

Definition scheduleSnoozeNotification (time : Z) (label alarmId : string)
  : M (option string) :=
  tryCatch
    (w <- get ;;
     if AlarmModule.isAvailable w then
       AlarmModule.scheduleAlarm
         (mkPendingAlarm ("snooze-" +:+ alarmId) (orElse label "Snooze Alarm")
            (JsDate.getTime time) false) ;;
       ret (Some ("native-snooze-" +:+ alarmId))
     else
       notificationId <-
         Notifications.scheduleNotificationAsync "⏰ Snooze Alarm"
           (orElse label "Time to wake up!") alarmId label true (DateTrigger time) ;;
       ret (Some notificationId))
    (fun _ => ret None).

Definition cancelAlarmNotifications (alarm : Alarm) : M unit :=
  match notificationId alarm with
  | Some existing =>
      if String.eqb existing EmptyString then ret tt else cancelNotification existing
  | None => ret tt
  end.

Definition cancelAllNotifications : M unit :=
  w <- get ;;
  (if AlarmModule.isAvailable w then AlarmModule.cancelAllAlarms else ret tt) ;;
  Notifications.cancelAllScheduledNotificationsAsync.

End notificationService.

(** ** The router of the presentation layer *)

Module router.
Definition push (r : Route) : M unit :=
  modify (fun w => set_routerStack (r :: routerStack w) w).
Definition back : M unit :=
  modify (fun w => set_routerStack (tl (routerStack w)) w).
End router.

(** ** alarmEventService.ts: dismiss and snooze events of the native screen *)

Module alarmEventService.
Local Open Scope js_scope.

Definition handleDismiss (alarmId : string) : M unit :=
  tryCatch
    (alarm <- alarmStorage.getAlarmById alarmId ;;
     match alarm with
     | Some alarm =>
         if (length (repeatDays alarm) =? 0)%nat then
           _ <- alarmStorage.toggleAlarm alarmId ;; ret tt
         else
           _ <- notificationService.scheduleAlarmNotification alarm ;; ret tt
     | None => ret tt
     end)
    (fun _ => ret tt).

Definition handleSnooze (alarmId : string) : M unit :=
  tryCatch
    (alarm <- alarmStorage.getAlarmById alarmId ;;
     match alarm with
     | Some alarm =>
         w <- get ;;
         let snoozeTime := clock w + 5 * 60 * 1000 in
         _ <- notificationService.scheduleSnoozeNotification snoozeTime
                (orElse (label alarm) "Alarm") (id alarm) ;;
         ret tt
     | None => ret tt
     end)
    (fun _ => ret tt).

Definition handleAlarmEvent (eventType alarmId : string) : M unit :=
  if String.eqb eventType "ALARM_DISMISSED" then handleDismiss alarmId
  else if String.eqb eventType "ALARM_SNOOZED" then handleSnooze alarmId
  else ret tt.

Definition initialize : M unit :=
  w <- get ;;
  match platformOS (device w) with
  | ios => ret tt
  | android =>
      if negb (hasAlarmEventModule (device w)) then ret tt
      else modify (set_subscription true)
  end.

Definition cleanup : M unit := modify (set_subscription false).

(** The listener added by [initialize]: it runs while the subscription is
    held. *)
Definition listener (eventType alarmId : string) : M unit :=
  w <- get ;;
  if subscription w then handleAlarmEvent eventType alarmId else ret tt.

End alarmEventService.

(** ** AlarmEventModule.java and AlarmActivity.java: from the buttons of
    the native alarm screen to the JavaScript listener *)

Module AlarmEventModule.
Local Open Scope js_scope.

Definition sendEvent (eventType alarmId : string) : M unit :=
  w <- get ;;
  if catalystActive (device w) then alarmEventService.listener eventType alarmId
  else ret tt.

(** [onReceive] of the receiver registered for [ALARM_ACTION]. *)
Definition onReceive (eventType alarmId : string) : M unit :=
  sendEvent eventType alarmId.

End AlarmEventModule.

Module AlarmReceiver.

(** The extras of the intent that starts the alarm screen. *)
Record FullScreenIntent := mkFullScreenIntent {
  extraAlarmId : string;
  extraLabel : string
}.

(** [onReceive] of the receiver the AlarmManager fires: the id and the
    label of the timer's intent go on to [AlarmActivity]. *)
Definition onReceive (intent : PendingAlarm) : FullScreenIntent :=
  let alarmId := intentAlarmId intent in
  let label := intentLabel intent in
  mkFullScreenIntent alarmId label.

End AlarmReceiver.

Module AlarmActivity.
Local Open Scope js_scope.

(** [sendBroadcast]: received where the event module has registered its
    receiver. *)
Definition sendEventToReactNative (eventType alarmId : string) : M unit :=
  w <- get ;;
  if hasAlarmEventModule (device w) then AlarmEventModule.onReceive eventType alarmId
  else ret tt.

Definition handleDismiss (alarmId : string) : M unit :=
  sendEventToReactNative "ALARM_DISMISSED" alarmId.

Definition handleSnooze (alarmId : string) : M unit :=
  sendEventToReactNative "ALARM_SNOOZED" alarmId.

(** The fields [onCreate] reads from the intent. *)
Record Fields := mkFields {
  fieldAlarmId : string;
  fieldLabel : string
}.

Definition onCreate (intent : AlarmReceiver.FullScreenIntent) : Fields :=
  mkFields (AlarmReceiver.extraAlarmId intent) (AlarmReceiver.extraLabel intent).

(** [initializeViews]: the label shown, ["Alarm"] for an empty one. *)
Definition alarmLabelText (f : Fields) : string := orElse (fieldLabel f) "Alarm".

(** The click listeners of [setupButtonListeners]. *)
Definition dismissButton (f : Fields) : M unit := handleDismiss (fieldAlarmId f).
Definition snoozeButton (f : Fields) : M unit := handleSnooze (fieldAlarmId f).

End AlarmActivity.

(** ** src/app/alarm-ring.tsx: the in-app ringing screen *)

Module AlarmRingScreen.
Local Open Scope js_scope.

Definition handleDismiss (alarmId : string) : M unit :=
  (if String.eqb alarmId EmptyString then ret tt
   else
     tryCatch
       (alarm <- alarmStorage.getAlarmById alarmId ;;
        match alarm with
        | Some alarm =>
            if (length (repeatDays alarm) =? 0)%nat
            then _ <- alarmStorage.toggleAlarm alarmId ;; ret tt
            else ret tt
        | None => ret tt
        end)
       (fun _ => ret tt)) ;;
  router.back.

Definition handleSnooze (alarmLabel alarmId : string) : M unit :=
  w <- get ;;
  let snoozeTime := clock w + 5 * 60 * 1000 in
  tryCatch
    (_ <- notificationService.scheduleSnoozeNotification snoozeTime alarmLabel alarmId ;;
     ret tt)
    (fun _ => ret tt) ;;
  router.back.

End AlarmRingScreen.

(** ** [formatTime] of src/app/editor.tsx and src/app/alarm-ring.tsx (the
    same text in both): the time as [H:MM AM] or [H:MM PM] *)

Definition formatTime (tz date : Z) : string :=
  let hours := JsDate.getHours tz date in
  let minutes := JsDate.getMinutes tz date in
  let ampm := if 12 <=? hours then "PM" else "AM" in
  let displayHours := if Z.rem hours 12 =? 0 then 12 else Z.rem hours 12 in
  let displayMinutes := padStart 2 "0" (pretty minutes) in
  pretty displayHours +:+ ":" +:+ displayMinutes +:+ " " +:+ ampm.

(** ** src/services/audioService.ts: the sound and the vibration of the
    ringing screen *)

Module audioService.

(** The calls of expo-av whose promise can reject. *)
Inductive AudioCall := SetAudioMode | CreateSound | StopSound | UnloadSound.

(** The two variables of the module, [soundObject] and [isPlaying], with
    what the device holds: the sounds created and not unloaded, the pending
    [setTimeout(vibrate, 1000)] and the haptic pulses given so far. *)
Record Player := mkPlayer {
  soundObject : option nat;
  isPlaying : bool;
  loaded : list nat;
  nextSound : nat;
  vibrateTimers : nat;
  pulses : nat
}.

(** [rejects] says which calls reject during one operation; an operation
    is taken to run without a vibration timer coming due in between.
    [initializeAudio] catches the rejection of its one call and changes
    nothing of the module. *)
Definition initializeAudio (rejects : AudioCall -> bool) (p : Player) : Player := p.

Definition stopAlarmSound (rejects : AudioCall -> bool) (p : Player) : Player :=
  match soundObject p with
  | Some sound =>
      if rejects StopSound then p
      else if rejects UnloadSound then p
      else mkPlayer None false (List.filter (fun s => negb (Nat.eqb s sound)) (loaded p))
             (nextSound p) (vibrateTimers p) (pulses p)
  | None =>
      mkPlayer None false (loaded p) (nextSound p) (vibrateTimers p) (pulses p)
  end.

Definition isAlarmPlaying (p : Player) : bool := isPlaying p.

(** [vibrate] inside [startVibrationPattern]: a pulse and a new timer
    while the alarm is playing. *)
Definition vibrate (p : Player) : Player :=
  if isPlaying p
  then mkPlayer (soundObject p) (isPlaying p) (loaded p) (nextSound p)
         (S (vibrateTimers p)) (S (pulses p))
  else p.

Definition startVibrationPattern (p : Player) : Player := vibrate p.

(** One pending timer comes due. *)
Definition timerFires (p : Player) : Player :=
  match vibrateTimers p with
  | O => p
  | S n =>
      vibrate (mkPlayer (soundObject p) (isPlaying p) (loaded p) (nextSound p) n (pulses p))
  end.

Definition playAlarmSound (rejects : AudioCall -> bool) (p : Player) : Player :=
  let p := stopAlarmSound rejects p in
  let p := initializeAudio rejects p in
  if rejects CreateSound then
    startVibrationPattern
      (mkPlayer (soundObject p) true (loaded p) (nextSound p) (vibrateTimers p) (pulses p))
  else
    let sound := nextSound p in
    startVibrationPattern
      (mkPlayer (Some sound) true (sound :: loaded p) (S sound)
         (vibrateTimers p) (pulses p)).

Definition cleanup (rejects : AudioCall -> bool) (p : Player) : Player :=
  stopAlarmSound rejects p.

End audioService.

(** ** The root layout: notification listeners that open the ringing
    screen *)

Module RootLayout.
Local Open Scope js_scope.

Definition openRing (alarmId label : string) : M unit :=
  router.push (RingScreen (orElse alarmId EmptyString) (orElse label "Alarm")).

(** [addNotificationReceivedListener]: a notification arrives while the
    application is in the foreground. *)
Definition notificationListener (n : NotificationRequest) : M unit :=
  openRing (dataAlarmId n) (dataLabel n).

(** [addNotificationResponseReceivedListener]: the user taps it. *)
Definition responseListener (n : NotificationRequest) : M unit :=
  openRing (dataAlarmId n) (dataLabel n).

(** [getLastNotificationResponseAsync]: the tap that launched the
    application. *)
Definition lastNotificationResponse (response : option NotificationRequest) : M unit :=
  match response with
  | Some n => openRing (dataAlarmId n) (dataLabel n)
  | None => ret tt
  end.

End RootLayout.

(** How a firing or a tap reaches the root layout. *)
Inductive Observation :=
  | Received (n : NotificationRequest)
  | Tapped (n : NotificationRequest).

Definition observe (o : Observation) : M unit :=
  match o with
  | Received n => RootLayout.notificationListener n
  | Tapped n => RootLayout.responseListener n
  end.

Fixpoint observeAll (os : list Observation) : M unit :=
  match os with
  | [] => ret tt
  | o :: rest => (observe o ;; observeAll rest)%js
  end.

(** Run [m] for its effect on the world. *)
Definition exec {A} (m : M A) (w : World) : World := snd (m w).
Definition result {A} (m : M A) (w : World) : Outcome A := fst (m w).

(** ** Specification vocabulary: runs of the store *)

(** Opening the database fails in [w]: no handle yet, and the open call or
    the schema statement rejects. *)
Definition openFails (w : World) : Prop :=
  db w = false
  /\ (rejects (device w) (tick w) OpenDatabase = true
      \/ rejects (device w) (S (tick w)) ExecSchema = true).

(** The step at which the first statement after [getDatabase] runs. *)
Definition queryTick (w : World) : nat :=
  if db w then tick w else S (S (tick w)).

(** A store-layer failure of an operation whose statement is call [c]:
    the database cannot be opened, or the statement rejects. *)
Definition storeFails (c : Call) (w : World) : Prop :=
  openFails w \/ rejects (device w) (queryTick w) c = true.

Definition throws {A} (m : M A) (w : World) : Prop :=
  exists e, result m w = Throw e.

Definition inTable (id : string) (w : World) : bool :=
  existsb (Sql.hasId id) (alarmsTable w).

(** No platform call rejects, at any step. *)
Definition noRejection (w : World) : Prop :=
  forall n c, rejects (device w) n c = false.

(** The world once [getDatabase] has succeeded. *)
Definition opened (w : World) : World :=
  if db w then w else set_tick (S (S (tick w))) (set_db true w).

(** One more platform call made. *)
Definition stepped (w : World) : World := set_tick (S (tick w)) w.

(** The stored row of [id], if any ([id] is the primary key). *)
Definition rowOf (id : string) (w : World) : option AlarmRow.t :=
  find (Sql.hasId id) (alarmsTable w).

(** Everything but the table, the database handle and the step count is
    as before. *)
Definition platformUnchanged (w w' : World) : Prop :=
  device w' = device w /\ clock w' = clock w
  /\ alarmManager w' = alarmManager w /\ scheduled w' = scheduled w
  /\ nextIdentifier w' = nextIdentifier w
  /\ notificationsGranted w' = notificationsGranted w
  /\ subscription w' = subscription w /\ routerStack w' = routerStack w.

(** Nothing but the step count changed. *)
Definition onlyTicked (w w' : World) : Prop :=
  platformUnchanged w w' /\ alarmsTable w' = alarmsTable w.

(** The alarm a row converts to: [rowToAlarm] without the world. *)
Definition alarmOfRow (row : AlarmRow.t) : option Alarm :=
  t ← Iso.parseDate (AlarmRow.time row);
  days ← Json.parse (AlarmRow.repeatDays row);
  Some (mkAlarm (AlarmRow.id row) t (AlarmRow.label row) (AlarmRow.enabled row =? 1) days
          (match AlarmRow.notificationId row with
           | Some n => if String.eqb n EmptyString then None else Some n
           | None => None
           end)).

Definition withEnabled (v : Z) (row : AlarmRow.t) : AlarmRow.t :=
  AlarmRow.mk (AlarmRow.id row) (AlarmRow.time row) (AlarmRow.label row) v
    (AlarmRow.repeatDays row) (AlarmRow.notificationId row).

(** ** Specification vocabulary: arming *)

(** The exact-alarm permission is missing: the native module is there, the
    system is Android 12 or later and [canScheduleExactAlarms()] is false. *)
Definition exactPermissionMissing (w : World) : Prop :=
  AlarmModule.isAvailable w = true
  /\ AlarmModuleNative.VERSION_CODES_S <= sdkInt (device w)
  /\ exactAlarmsAllowed (device w) = false.

(** The gateway rejects every request to arm a native alarm. *)
Definition armRejects (w : World) : Prop :=
  forall n, rejects (device w) n NativeScheduleAlarm = true.

(** Notification permission is denied and the user keeps it denied. *)
Definition notificationsDenied (w : World) : Prop :=
  notificationsGranted w = false /\ userGrantsNotifications (device w) = false.

(** From [w] to [w'] nothing was armed and the table was not written:
    timers and scheduled notifications can only have been removed. *)
Definition noNewHandle (w w' : World) : Prop :=
  device w' = device w /\ clock w' = clock w
  /\ alarmsTable w' = alarmsTable w
  /\ alarmManager w' ⊆ alarmManager w
  /\ incl (scheduled w') (scheduled w).

(** [m] keeps every world in relation [R] with the world it started from,
    whatever [m] answers. *)
Definition preservesAt {A} (R : World -> World -> Prop) (m : M A) (w : World) : Prop :=
  R w (snd (m w)).
Definition preserves {A} (R : World -> World -> Prop) (m : M A) : Prop :=
  forall w, preservesAt R m w.

(** The timer [scheduleNativeAlarm] asks for. *)
Definition timerOf (alarm : Alarm) (w : World) : PendingAlarm :=
  let isRepeating := (0 <? length (repeatDays alarm))%nat in
  mkPendingAlarm (id alarm) (orElse (label alarm) "Alarm")
    (if isRepeating
     then getNextOccurrence (tzOffset (device w)) (clock w) (time alarm) (repeatDays alarm)
     else oneTimeTrigger (tzOffset (device w)) (clock w) (time alarm))
    isRepeating.

(** The world after [cancelNotification h] when no call rejects. *)
Definition cancelled (h : string) (w : World) : World :=
  if startsWith "native-" h then
    if AlarmModule.isAvailable w
    then set_alarmManager
           (delete (hashCode (replaceFirst "native-" EmptyString h)) (alarmManager w))
           (stepped w)
    else w
  else
    set_scheduled
      (List.filter (fun n => negb (String.eqb (identifier n) h)) (scheduled w))
      (stepped w).

(** The native timer a snooze of [alarm] at [now] asks for. *)
Definition snoozeTimer (now : Z) (alarm : Alarm) : PendingAlarm :=
  mkPendingAlarm ("snooze-" +:+ id alarm) (orElse (label alarm) "Alarm")
    (now + 5 * 60 * 1000) false.

(** ** Specification vocabulary: live handles *)

(** The handles live for an alarm id: its native timer, named
    ["native-" + id], and the identifiers of its scheduled notifications
    (snoozes apart). *)
Definition nativeLive (alarmId : string) (w : World) : list string :=
  match alarmManager w !! hashCode alarmId with
  | Some p =>
      if String.eqb (intentAlarmId p) alarmId then ["native-" +:+ alarmId] else []
  | None => []
  end.

Definition ofAlarm (alarmId : string) (n : NotificationRequest) : bool :=
  String.eqb (dataAlarmId n) alarmId && negb (dataIsSnooze n).

Definition expoLive (alarmId : string) (w : World) : list string :=
  map identifier (List.filter (ofAlarm alarmId) (scheduled w)).

Definition liveHandles (alarmId : string) (w : World) : list string :=
  nativeLive alarmId w ++ expoLive alarmId w.

(** Identifiers of scheduled notifications come from the library: none
    looks like a native handle. *)
Definition identifiersFromLibrary (w : World) : Prop :=
  forall n, In n (scheduled w) -> startsWith "native-" (identifier n) = false.

(** The record with the handle a schedule call returned stored in it. *)
Definition withHandle (h : option string) (alarm : Alarm) : Alarm :=
  mkAlarm (id alarm) (time alarm) (label alarm) (enabled alarm) (repeatDays alarm) h.

(** The handle a record names, if any ([""] is falsy). *)
Definition handlesNamed (alarm : Alarm) : list string :=
  match notificationId alarm with
  | Some h => if String.eqb h EmptyString then [] else [h]
  | None => []
  end.

(** The record names exactly the handles that are live for its id, and a
    native handle is the one of this id on a device with the native
    module. *)
Definition recordConsistent (alarm : Alarm) (w : World) : Prop :=
  liveHandles (id alarm) w = handlesNamed alarm
  /\ (forall h, notificationId alarm = Some h -> startsWith "native-" h = true ->
        h = "native-" +:+ id alarm /\ AlarmModule.isAvailable w = true).

(** ** Specification vocabulary: delivery and persistence *)

(** The screen one observation opens. *)
Definition ringOf (o : Observation) : Route :=
  match o with
  | Received n | Tapped n =>
      RingScreen (orElse (dataAlarmId n) EmptyString) (orElse (dataLabel n) "Alarm")
  end.

(** A time value in the range of a JavaScript [Date]. *)
Definition validTime (t : Z) : Prop := - Iso.maxTime <= t <= Iso.maxTime.

(** ** Specification vocabulary: the table as a set of records *)

(** An alarm the store gives back as it is: a valid time value, and a
    handle that is not the empty string. *)
Definition storable (alarm : Alarm) : Prop :=
  validTime (time alarm) /\ notificationId alarm <> Some EmptyString.

Definition tableIds (w : World) : list string := map AlarmRow.id (alarmsTable w).

(** The ids of the table are pairwise distinct. *)
Definition primaryKey (w : World) : Prop := List.NoDup (tableIds w).

Definition keepsPrimaryKey (w w' : World) : Prop := primaryKey w -> primaryKey w'.

(** The mutating operations of the storage layer. *)
Inductive StoreWrite :=
  | AddAlarm (alarm : Alarm)
  | UpdateAlarm (alarm : Alarm)
  | DeleteAlarm (id : string)
  | ToggleAlarm (id : string)
  | ClearAllAlarms.

Definition write (op : StoreWrite) : M unit :=
  match op with
  | AddAlarm alarm => (_ <- alarmStorage.addAlarm alarm ;; ret tt)%js
  | UpdateAlarm alarm => (_ <- alarmStorage.updateAlarm alarm ;; ret tt)%js
  | DeleteAlarm id => (_ <- alarmStorage.deleteAlarm id ;; ret tt)%js
  | ToggleAlarm id => (_ <- alarmStorage.toggleAlarm id ;; ret tt)%js
  | ClearAllAlarms => alarmStorage.clearAllAlarms
  end.

(** A caller that makes the writes one after the other and goes on after
    a failed one. *)
Fixpoint writes (ops : list StoreWrite) : M unit :=
  match ops with
  | [] => ret tt
  | op :: rest => (tryCatch (write op) (fun _ => ret tt) ;; writes rest)%js
  end.

(** Lexicographic combination of two comparisons. *)
Definition lexThen (c rest : comparison) : comparison :=
  match c with Eq => rest | _ => c end.

(** The years [toISOString] writes in four digits. *)
Definition fourDigitYear (t : Z) : Prop := 0 <= Ecma.YearFromTime t <= 9999.

(** The [time] column as a number. *)
Definition timeKey (row : AlarmRow.t) : Z :=
  match Iso.parseDate (AlarmRow.time row) with Some t => t | None => 0 end.

(** A row [alarmToRow] wrote for a storable alarm of a four-digit year. *)
Definition written (row : AlarmRow.t) : Prop :=
  exists a, row = alarmStorage.alarmToRow a /\ storable a /\ fourDigitYear (time a).

(** The table holds the rows [alarmToRow] writes for [alarms]. *)
Definition tableOf (alarms : list Alarm) (w : World) : Prop :=
  alarmsTable w = map alarmStorage.alarmToRow alarms
  /\ Forall storable alarms
  /\ Forall (fun a => fourDigitYear (time a)) alarms.

(** ** Specification vocabulary: the player *)

(** [n] pending vibration timers come due, one after the other. *)
Fixpoint timersFire (n : nat) (p : audioService.Player) : audioService.Player :=
  match n with
  | O => p
  | S n' => timersFire n' (audioService.timerFires p)
  end.

(** ** Sample worlds, for the scenarios of the specification *)

(** An Android device with both native modules, every permission granted
    and no rejecting call. *)
Definition sampleDevice : Device :=
  mkDevice 0 android true true 33 true true true (fun _ _ => false).

(** A device on which notification permission is denied and stays denied,
    the exact-alarm permission being granted. *)
Definition deniedDevice : Device :=
  mkDevice 0 android true true 33 false true true (fun _ _ => false).

(** A device without the exact-alarm permission, as Android 13 treats it:
    arming is rejected. *)
Definition noExactDevice : Device :=
  mkDevice 0 android true true 33 true false true
    (fun _ c => match c with NativeScheduleAlarm => true | _ => false end).

(** An iOS device: no native module, notifications granted. *)
Definition iosDevice : Device :=
  mkDevice 0 ios false false 0 true true true (fun _ _ => false).

(** A world whose store rejects every query. *)
Definition brokenStoreDevice : Device :=
  mkDevice 0 android true true 33 true true true
    (fun _ c => match c with GetAll | GetFirst | Run => true | _ => false end).

(** A one-time alarm at 07:00, enabled, armed through the native module. *)
Definition oneTimeRow : AlarmRow.t :=
  AlarmRow.mk "1" "1970-01-01T07:00:00.000Z" "Wake" 1 "[]" (Some "native-1").

(** A repeating alarm at 07:00 on Mondays and Wednesdays, armed natively. *)
Definition repeatingRow : AlarmRow.t :=
  AlarmRow.mk "2" "1970-01-01T07:00:00.000Z" "Work" 1
    (Json.stringify [Mon; Wed]) (Some "native-2").

Definition sampleAlarm : Alarm := mkAlarm "1" 25200000 "Wake" true [] None.

(** The notification of the sample one-time alarm. *)
Definition sampleNotification : NotificationRequest :=
  mkNotificationRequest "expo-0" "Alarm ⏰" "Wake" "1" "Wake" false (DateTrigger 25200000).

(** The world at 07:00 when that alarm has just fired: the AlarmManager no
    longer holds it, the record is as it was armed. *)
Definition firedWorld : World :=
  mkWorld sampleDevice 25200000 0 true [oneTimeRow] true [] 0 ∅ true [].

Definition worldOn (d : Device) (granted : bool) (rows : list AlarmRow.t) : World :=
  mkWorld d 21600000 0 true rows granted [] 0 ∅ true [].

(** A device on which the database opens and the schema statement is
    rejected, and a world in which the database is not open yet. *)
Definition schemaFailsDevice : Device :=
  mkDevice 0 android true true 33 true true true
    (fun _ c => match c with ExecSchema => true | _ => false end).

Definition closedWorld : World :=
  mkWorld schemaFailsDevice 25200000 0 false [oneTimeRow] true [] 0 ∅ true [].

(** Three alarms, stored latest first, one of them disabled. *)
Definition listedAlarms : list Alarm :=
  [mkAlarm "3" 1709210096789 "Gym" true [Sat] None;
   mkAlarm "2" 25200000 "Work" false [Mon; Wed] None;
   mkAlarm "1" 21600000 "Wake" true [] (Some "native-1")].

Definition listedWorld : World :=
  worldOn sampleDevice true (map alarmStorage.alarmToRow listedAlarms).

(** The sample alarm armed both ways: a native timer and a scheduled
    notification. *)
Definition armedWorld : World :=
  mkWorld sampleDevice 21600000 0 true [oneTimeRow] true [sampleNotification] 1
    {[ hashCode "1" := mkPendingAlarm "1" "Wake" 25200000 false ]} true [].

(** A device on which the permission query of the notification library is
    rejected. *)
Definition noPermissionQueryDevice : Device :=
  mkDevice 0 ios false false 0 true true true
    (fun _ c => match c with GetPermissions => true | _ => false end).

(** The player at rest, and ringing with one sound and one vibration
    loop. *)
Definition idlePlayer : audioService.Player :=
  audioService.mkPlayer None false [] 0 0 0.

Definition ringingPlayer : audioService.Player :=
  audioService.mkPlayer (Some 0%nat) true [0%nat] 1 1 1.

(** * Theorems *)

Module TimeFacts.
Import Ecma.

Lemma DayFromYear_step y : DayFromYear (y + 1) = DayFromYear y + DaysInYear y.
Proof.
  unfold DayFromYear, DaysInYear, InLeapYear.
  destruct (Z.eqb_spec (y mod 4) 0); simpl;
    [destruct (Z.eqb_spec (y mod 100) 0); simpl;
       [destruct (Z.eqb_spec (y mod 400) 0); simpl|]|];
    Z.div_mod_to_equations; lia.
Qed.

Lemma YearFromDay_spec d :
  DayFromYear (YearFromDay d) <= d < DayFromYear (YearFromDay d + 1).
Proof.
  unfold YearFromDay.
  set (y := 1970 + d * 400 / 146097).
  assert (Hlo : DayFromYear (y - 1) <= d) by (unfold DayFromYear, y; Z.div_mod_to_equations; lia).
  assert (Hhi : d < DayFromYear (y + 2)) by (unfold DayFromYear, y; Z.div_mod_to_equations; lia).
  destruct (Z.leb_spec (DayFromYear (y + 1)) d).
  - replace (y + 1 + 1) with (y + 2) by lia. lia.
  - destruct (Z.leb_spec (DayFromYear y) d).
    + lia.
    + replace (y - 1 + 1) with y by lia. lia.
Qed.

End TimeFacts.

Module DateFacts.
Import Ecma JsDate TimeFacts.

Lemma monthOfYearDay_range leap d : 0 <= monthOfYearDay leap d <= 11.
Proof.
  unfold monthOfYearDay.
  repeat match goal with |- context [?a <? ?b] => destruct (Z.ltb_spec a b) end; lia.
Qed.

Lemma MakeDay_components t :
  MakeDay (YearFromTime t) (MonthFromTime t) (DateFromTime t) = Day t.
Proof.
  unfold MakeDay, DateFromTime.
  pose proof (monthOfYearDay_range (leapDays (YearFromTime t)) (DayWithinYear t)) as Hm.
  fold (MonthFromTime t) in Hm.
  rewrite (Z.div_small (MonthFromTime t) 12), (Z.mod_small (MonthFromTime t) 12) by lia.
  rewrite Z.add_0_r. unfold DayWithinYear. lia.
Qed.

Lemma MakeDay_shift y m d k : MakeDay y m (d + k) = MakeDay y m d + k.
Proof. unfold MakeDay. lia. Qed.

Lemma setDate_next tz t : setDate tz t (getDate tz t + 1) = t + msPerDay.
Proof.
  unfold setDate, getDate, UTC, MakeDate.
  rewrite MakeDay_shift, MakeDay_components.
  unfold Day, TimeWithinDay.
  pose proof (Z.div_mod (LocalTime tz t) msPerDay) as H.
  unfold LocalTime in *. unfold msPerDay in *. lia.
Qed.

End DateFacts.

Module ScanFacts.
Import Ecma JsDate TimeFacts DateFacts.

Lemma includes_In xs x : includes xs x = true <-> In x xs.
Proof.
  unfold includes. rewrite existsb_exists. split.
  - intros (y & Hy & He). apply Z.eqb_eq in He. now subst.
  - intros H. exists x. split; [assumption | apply Z.eqb_refl].
Qed.

Lemma insertAsc_In x y xs : In y (insertAsc x xs) <-> y = x \/ In y xs.
Proof.
  induction xs as [|z zs IH]; simpl.
  - intuition.
  - destruct (x <=? z); simpl; rewrite ?IH; intuition.
Qed.

Lemma sortAsc_In y xs : In y (sortAsc xs) <-> In y xs.
Proof.
  induction xs as [|x xs IH]; simpl; [tauto|].
  rewrite insertAsc_In, IH. intuition.
Qed.

Lemma includes_dayNumbers (repeatDays : list RepeatDay) x :
  includes (sortAsc (map dayMap repeatDays)) x = true
  <-> exists d, In d repeatDays /\ dayMap d = x.
Proof.
  rewrite includes_In, sortAsc_In, in_map_iff. split.
  - intros (d & H1 & H2). eauto.
  - intros (d & H1 & H2). eauto.
Qed.

Lemma dayMap_range d : 0 <= dayMap d <= 6.
Proof. destruct d; simpl; lia. Qed.

Lemma getDay_range tz t : 0 <= getDay tz t <= 6.
Proof. unfold getDay, WeekDay. pose proof (Z.mod_pos_bound (Day (LocalTime tz t) + 4) 7). lia. Qed.

Lemma Day_add_days t k : Day (t + k * msPerDay) = Day t + k.
Proof. unfold Day. apply Z.div_add. unfold msPerDay. lia. Qed.

Lemma getDay_add_days tz t k :
  getDay tz (t + k * msPerDay) = (getDay tz t + k) mod 7.
Proof.
  unfold getDay, WeekDay, LocalTime.
  replace (t + k * msPerDay + tz) with (t + tz + k * msPerDay) by lia.
  rewrite Day_add_days.
  replace (Day (t + tz) + k + 4) with ((Day (t + tz) + 4) + k) by lia.
  now rewrite Zplus_mod_idemp_l.
Qed.

(** What the loop returns: the first of the [n] days from [c] on whose
    weekday is listed, if there is one. *)
Lemma scanDays_Some tz nums n : forall c r,
  scanDays tz nums n c = Some r ->
  exists k : nat, (k < n)%nat /\ r = c + Z.of_nat k * msPerDay
    /\ includes nums (getDay tz r) = true
    /\ forall j : nat, (j < k)%nat ->
         includes nums (getDay tz (c + Z.of_nat j * msPerDay)) = false.
Proof.
  induction n as [|n IH]; intros c r H; simpl in H; [discriminate|].
  destruct (includes nums (getDay tz c)) eqn:E.
  - injection H as <-. exists 0%nat. repeat split; [lia | simpl; lia | assumption | lia].
  - rewrite setDate_next in H. apply IH in H as (k & Hk & -> & Hin & Hmin).
    exists (S k). repeat split; [lia | lia | assumption |].
    intros [|j] Hj.
    + simpl. now rewrite Z.add_0_r.
    + specialize (Hmin j ltac:(lia)).
      replace (c + Z.of_nat (S j) * msPerDay)
        with (c + msPerDay + Z.of_nat j * msPerDay) by lia.
      exact Hmin.
Qed.

Lemma scanDays_None tz nums n : forall c,
  scanDays tz nums n c = None ->
  forall j : nat, (j < n)%nat ->
    includes nums (getDay tz (c + Z.of_nat j * msPerDay)) = false.
Proof.
  induction n as [|n IH]; intros c H j Hj; [lia|].
  simpl in H. destruct (includes nums (getDay tz c)) eqn:E; [discriminate|].
  rewrite setDate_next in H.
  destruct j as [|j].
  - simpl. now rewrite Z.add_0_r.
  - specialize (IH _ H j ltac:(lia)).
    replace (c + Z.of_nat (S j) * msPerDay)
      with (c + msPerDay + Z.of_nat j * msPerDay) by lia.
    exact IH.
Qed.

(** Seven consecutive days meet every weekday. *)
Lemma week_covers tz c x :
  0 <= x <= 6 -> exists j : nat, (j < 7)%nat /\ getDay tz (c + Z.of_nat j * msPerDay) = x.
Proof.
  intros Hx. pose proof (getDay_range tz c) as Hc.
  exists (Z.to_nat ((x - getDay tz c) mod 7)).
  pose proof (Z.mod_pos_bound (x - getDay tz c) 7 ltac:(lia)) as Hb.
  split; [lia|].
  rewrite getDay_add_days, Z2Nat.id by lia.
  rewrite Zplus_mod_idemp_r.
  replace (getDay tz c + (x - getDay tz c)) with x by lia.
  apply Z.mod_small. lia.
Qed.

Lemma scanDays_finds tz nums c x :
  In x nums -> 0 <= x <= 6 -> exists r, scanDays tz nums 7 c = Some r.
Proof.
  intros Hin Hx.
  destruct (scanDays tz nums 7 c) as [r|] eqn:E; [eauto|].
  destruct (week_covers tz c x Hx) as (j & Hj & Hd).
  pose proof (scanDays_None _ _ _ _ E j Hj) as Hn.
  rewrite Hd in Hn. apply includes_In in Hin. congruence.
Qed.

End ScanFacts.

Module NextOccurrenceFacts.
Import Ecma JsDate TimeFacts DateFacts ScanFacts.

Lemma getHours_range tz t : 0 <= getHours tz t <= 23.
Proof. unfold getHours, HourFromTime. pose proof (Z.mod_pos_bound (LocalTime tz t / msPerHour) 24). lia. Qed.

Lemma getMinutes_range tz t : 0 <= getMinutes tz t <= 59.
Proof. unfold getMinutes, MinFromTime. pose proof (Z.mod_pos_bound (LocalTime tz t / msPerMinute) 60). lia. Qed.

Lemma MakeTime_bound h m :
  0 <= h <= 23 -> 0 <= m <= 59 -> 0 <= MakeTime h m 0 0 < msPerDay.
Proof. unfold MakeTime, msPerHour, msPerMinute, msPerSecond, msPerDay. lia. Qed.

Section SetHours.
Variables (tz now h m : Z).
Hypothesis Hh : 0 <= h <= 23.
Hypothesis Hm : 0 <= m <= 59.

Let c := setHours tz now h m 0 0.

Lemma setHours_local :
  LocalTime tz c = Day (LocalTime tz now) * msPerDay + MakeTime h m 0 0.
Proof. unfold c, setHours, UTC, MakeDate, LocalTime. lia. Qed.

Lemma setHours_day : Day (LocalTime tz c) = Day (LocalTime tz now).
Proof.
  rewrite setHours_local. unfold Day.
  pose proof (MakeTime_bound h m Hh Hm).
  rewrite Z.add_comm, Z.div_add by (unfold msPerDay; lia).
  rewrite Z.div_small; lia.
Qed.

Lemma setHours_timeWithinDay : TimeWithinDay (LocalTime tz c) = MakeTime h m 0 0.
Proof.
  rewrite setHours_local. unfold TimeWithinDay.
  pose proof (MakeTime_bound h m Hh Hm).
  rewrite Z.add_comm, Z.mod_add by (unfold msPerDay; lia).
  apply Z.mod_small; lia.
Qed.

Lemma setHours_after_midnight : LocalTime tz now < LocalTime tz c + msPerDay.
Proof.
  rewrite setHours_local. pose proof (MakeTime_bound h m Hh Hm).
  unfold Day. pose proof (Z.div_mod (LocalTime tz now) msPerDay ltac:(unfold msPerDay; lia)).
  pose proof (Z.mod_pos_bound (LocalTime tz now) msPerDay ltac:(unfold msPerDay; lia)).
  lia.
Qed.

End SetHours.

(** The fields read back from an instant at time of day [MakeTime h m 0 0]. *)
Lemma fields_of_timeWithinDay tz t h m :
  0 <= h <= 23 -> 0 <= m <= 59 ->
  TimeWithinDay (LocalTime tz t) = MakeTime h m 0 0 ->
  getHours tz t = h /\ getMinutes tz t = m
  /\ getSeconds tz t = 0 /\ getMilliseconds tz t = 0.
Proof.
  intros Hh Hm H.
  unfold getHours, getMinutes, getSeconds, getMilliseconds,
    HourFromTime, MinFromTime, SecFromTime, msFromTime.
  unfold TimeWithinDay, MakeTime, msPerDay, msPerHour, msPerMinute, msPerSecond in *.
  set (l := LocalTime tz t) in *. clearbody l.
  Z.div_mod_to_equations. lia.
Qed.

Lemma timeWithinDay_add_days t k :
  TimeWithinDay (t + k * msPerDay) = TimeWithinDay t.
Proof. unfold TimeWithinDay. apply Z.mod_add. unfold msPerDay. lia. Qed.

Lemma local_add_days tz t k :
  LocalTime tz (t + k * msPerDay) = LocalTime tz t + k * msPerDay.
Proof. unfold LocalTime. lia. Qed.

Lemma onRepeatDay_includes tz repeatDays t :
  onRepeatDay tz repeatDays t
  = includes (sortAsc (map dayMap repeatDays)) (getDay tz t).
Proof.
  apply eq_true_iff_eq. rewrite includes_dayNumbers.
  unfold onRepeatDay. rewrite existsb_exists. split.
  - intros (d & Hd & He). apply Z.eqb_eq in He. eauto.
  - intros (d & Hd & He). exists d. split; [assumption | now apply Z.eqb_eq].
Qed.

End NextOccurrenceFacts.

Module CalculatorProofs.
Import Ecma JsDate TimeFacts DateFacts ScanFacts NextOccurrenceFacts.

Lemma nextFromDayNumbers_unfold tz now alarmTime nums :
  nextFromDayNumbers tz now alarmTime nums
  = match scanDays tz nums 7 (startCandidate tz now alarmTime) with
    | Some found => found
    | None =>
        setHours tz now (getHours tz alarmTime) (getMinutes tz alarmTime) 0 0
        + msPerDay
    end.
Proof.
  unfold nextFromDayNumbers, nextFromDayNumbersAt, startCandidate.
  now rewrite !setDate_next.
Qed.

(** The three clock readings of one call matter only through their local
    calendar day. *)
Lemma nextFromDayNumbersAt_same_day tz now candidateNow fallbackNow alarmTime nums :
  localDay tz candidateNow = localDay tz now ->
  localDay tz fallbackNow = localDay tz now ->
  nextFromDayNumbersAt tz now candidateNow fallbackNow alarmTime nums
  = nextFromDayNumbers tz now alarmTime nums.
Proof.
  unfold localDay, nextFromDayNumbers, nextFromDayNumbersAt, setHours.
  now intros -> ->.
Qed.

Lemma startCandidate_future tz now alarmTime : now < startCandidate tz now alarmTime.
Proof.
  unfold startCandidate.
  pose proof (setHours_after_midnight tz now _ _
                (getHours_range tz alarmTime) (getMinutes_range tz alarmTime)) as H.
  unfold LocalTime in H.
  destruct (Z.leb_spec
    (setHours tz now (getHours tz alarmTime) (getMinutes tz alarmTime) 0 0) now); lia.
Qed.

Lemma startCandidate_atAlarmTime tz now alarmTime :
  atAlarmTime tz alarmTime (startCandidate tz now alarmTime).
Proof.
  unfold atAlarmTime, startCandidate.
  pose proof (setHours_timeWithinDay tz now _ _
                (getHours_range tz alarmTime) (getMinutes_range tz alarmTime)) as H.
  destruct (Z.leb_spec
    (setHours tz now (getHours tz alarmTime) (getMinutes tz alarmTime) 0 0) now);
    [|exact H].
  replace (setHours tz now (getHours tz alarmTime) (getMinutes tz alarmTime) 0 0 + msPerDay)
    with (setHours tz now (getHours tz alarmTime) (getMinutes tz alarmTime) 0 0 + 1 * msPerDay)
    by lia.
  now rewrite local_add_days, timeWithinDay_add_days.
Qed.

(** Every instant after [now] at the alarm time is a whole number of days
    after the start candidate. *)
Lemma startCandidate_least tz now alarmTime t :
  now < t -> atAlarmTime tz alarmTime t ->
  exists j : nat, t = startCandidate tz now alarmTime + Z.of_nat j * msPerDay.
Proof.
  intros Hlt Hat.
  pose proof (startCandidate_atAlarmTime tz now alarmTime) as Hc.
  pose proof (getHours_range tz alarmTime) as Hh.
  pose proof (getMinutes_range tz alarmTime) as Hm.
  pose proof (MakeTime_bound _ _ Hh Hm) as Hb.
  unfold atAlarmTime in *.
  set (tod := MakeTime (getHours tz alarmTime) (getMinutes tz alarmTime) 0 0) in *.
  assert (Hdiv : exists q, t - startCandidate tz now alarmTime = q * msPerDay).
  { exists (Day (LocalTime tz t) - Day (LocalTime tz (startCandidate tz now alarmTime))).
    unfold TimeWithinDay, Day, LocalTime in *. unfold msPerDay in *.
    Z.div_mod_to_equations. lia. }
  destruct Hdiv as (q & Hq).
  assert (0 <= q).
  { unfold startCandidate in *.
    pose proof (setHours_local tz now (getHours tz alarmTime) (getMinutes tz alarmTime)) as Hl.
    fold tod in Hl.
    set (c0 := setHours tz now (getHours tz alarmTime) (getMinutes tz alarmTime) 0 0) in *.
    unfold TimeWithinDay, Day, LocalTime in *. unfold msPerDay in *.
    destruct (Z.leb_spec c0 now); Z.div_mod_to_equations; lia. }
  exists (Z.to_nat q). rewrite Z2Nat.id by assumption. lia.
Qed.


(** Spec scenario: alarm at 07:00, Mon and Wed, now Tuesday 1970-01-06 10:00
    gives Wednesday 1970-01-07 07:00. *)
Example nextOccurrence_tuesday_to_wednesday :
  getNextOccurrence 0 468000000 25200000 [Mon; Wed] = 543600000.
Proof. reflexivity. Qed.

(** Spec scenario: alarm stored today at 07:00, no repeat: now 06:00 gives
    today 07:00, now 08:00 gives tomorrow 07:00. *)
Example nextOccurrence_oneTime_today :
  getNextOccurrence 0 21600000 25200000 [] = 25200000
  /\ getNextOccurrence 0 28800000 25200000 [] = 111600000.
Proof. split; reflexivity. Qed.



(** What the one-time branch computes: the stored instant itself, or the
    stored instant plus one day when it is before [now]. *)
Lemma getNextOccurrence_oneTime tz now alarmTime :
  getNextOccurrence tz now alarmTime []
  = if alarmTime <? now then alarmTime + msPerDay else alarmTime.
Proof. unfold getNextOccurrence. simpl. now rewrite setDate_next. Qed.

Lemma oneTimeTrigger_eq tz now alarmTime :
  oneTimeTrigger tz now alarmTime = getNextOccurrence tz now alarmTime [].
Proof. reflexivity. Qed.

(** When the stored instant is on today's calendar day the one-time branch
    gives today for [now <= alarmTime] and tomorrow otherwise, at the stored
    time of day. *)
Lemma getNextOccurrence_oneTime_stored_today tz now alarmTime :
  localDay tz alarmTime = localDay tz now ->
  let r := getNextOccurrence tz now alarmTime [] in
  sameTimeOfDayOn tz alarmTime
    (if alarmTime <? now then localDay tz now + 1 else localDay tz now) r.
Proof.
  intros Hd r. subst r. rewrite getNextOccurrence_oneTime.
  unfold sameTimeOfDayOn, localDay in *.
  destruct (alarmTime <? now).
  - replace (alarmTime + msPerDay) with (alarmTime + 1 * msPerDay) by lia.
    rewrite local_add_days, Day_add_days, timeWithinDay_add_days. lia.
  - split; [assumption | reflexivity].
Qed.

(** C1, at a record stored three days ago. Alarm stored as 1970-01-01 07:00,
    no repeat days, [now] = 1970-01-04 06:00 (before 07:00 today): both
    one-time branches return 1970-01-02 07:00, which is neither on today's
    calendar day nor on the next one, and is already in the past. *)
Theorem getNextOccurrence_oneTime_stale_date :
  getNextOccurrence 0 280800000 25200000 [] = 111600000
  /\ oneTimeTrigger 0 280800000 25200000 = 111600000
  /\ localDay 0 280800000 = 3
  /\ localDay 0 (getNextOccurrence 0 280800000 25200000 []) = 1
  /\ getNextOccurrence 0 280800000 25200000 [] < 280800000.
Proof. repeat split. Qed.

(** At [now] equal to the stored instant the one-time branch keeps today
    (it compares with [<]), where the repeating branch moves on ([<=]). *)
Example getNextOccurrence_oneTime_at_now :
  getNextOccurrence 0 25200000 25200000 [] = 25200000
  /\ getNextOccurrence 0 25200000 25200000 DAYS = 111600000.
Proof. split; reflexivity. Qed.

End CalculatorProofs.

Module TextExamples.

Example toISOString_epoch : Iso.toISOString 0 = "1970-01-01T00:00:00.000Z"%string.
Proof. reflexivity. Qed.

Example toISOString_2024 :
  Iso.toISOString 1709210096789 = "2024-02-29T12:34:56.789Z"%string.
Proof. reflexivity. Qed.

Example toISOString_before_year_0 :
  Iso.toISOString (-62198755200000) = "-000001-01-01T00:00:00.000Z"%string.
Proof. reflexivity. Qed.

Example parseDate_2024 :
  Iso.parseDate "2024-02-29T12:34:56.789Z" = Some 1709210096789.
Proof. reflexivity. Qed.

Example parse_stringify_days :
  Json.parse (Json.stringify [Mon; Wed; Sun]) = Some [Mon; Wed; Sun]
  /\ Json.parse (Json.stringify []) = Some [].
Proof. split; reflexivity. Qed.

End TextExamples.

Module StoreProofs.
Local Open Scope js_scope.

Ltac js_unfold :=
  unfold throws in *;
  unfold result, exec, tryCatch, bind, get, modify, ret, throw, await in *.

Lemma tryCatch_total {A} (m : M A) (v : A) w :
  exists a, result (tryCatch m (fun _ => ret v)) w = Ok a.
Proof. js_unfold. destruct (m w) as [[a|e] w']; simpl; eauto. Qed.

Lemma tryCatch_degrades {A} (m : M A) (v : A) w :
  throws m w -> result (tryCatch m (fun _ => ret v)) w = Ok v.
Proof.
  js_unfold. intros [e He].
  destruct (m w) as [[a|e'] w']; simpl in *; [discriminate | reflexivity].
Qed.

Lemma tryCatch_rethrow {A} (m : M A) w :
  tryCatch m (fun error => throw error) w = m w.
Proof. js_unfold. destruct (m w) as [[a|e] w']; reflexivity. Qed.

Lemma bind_throws {A B} (m : M A) (k : A -> M B) w :
  throws m w -> throws (bind m k) w.
Proof. js_unfold. intros [e He]. destruct (m w) as [[a|e'] w']; simpl in *; [congruence | eauto]. Qed.

(** [getDatabase] either fails, when [openFails], or leaves the table as
    it is with the handle set and the clock of steps at [queryTick]. *)
Lemma getDatabase_fails w : openFails w -> throws database.getDatabase w.
Proof.
  intros [Hdb H]. unfold database.getDatabase. js_unfold. rewrite Hdb. simpl.
  destruct (rejects (device w) (tick w) OpenDatabase) eqn:E1; simpl; [eauto|].
  destruct H as [H|H]; [congruence|]. rewrite H. simpl. eauto.
Qed.

Lemma getDatabase_ok w :
  ~ openFails w ->
  exists w', database.getDatabase w = (Ok tt, w')
    /\ device w' = device w /\ tick w' = queryTick w /\ db w' = true
    /\ alarmsTable w' = alarmsTable w /\ alarmManager w' = alarmManager w
    /\ scheduled w' = scheduled w /\ clock w' = clock w
    /\ notificationsGranted w' = notificationsGranted w
    /\ nextIdentifier w' = nextIdentifier w
    /\ subscription w' = subscription w /\ routerStack w' = routerStack w.
Proof.
  intros Hn. unfold database.getDatabase, queryTick, openFails in *. js_unfold.
  destruct (db w) eqn:Hdb.
  - exists w. rewrite Hdb. repeat split; reflexivity.
  - simpl.
    destruct (rejects (device w) (tick w) OpenDatabase) eqn:E1; [tauto|].
    simpl.
    destruct (rejects (device w) (S (tick w)) ExecSchema) eqn:E2; [tauto|].
    eexists. split; [reflexivity|]. simpl. repeat split; reflexivity.
Qed.

Lemma openFails_dec w : openFails w \/ ~ openFails w.
Proof.
  unfold openFails. destruct (db w); [right; intros [? _]; discriminate|].
  destruct (rejects (device w) (tick w) OpenDatabase);
  destruct (rejects (device w) (S (tick w)) ExecSchema); intuition congruence.
Qed.

(** A statement reached through [getDatabase] that rejects makes the block
    throw. *)
Lemma storeFails_throws {A} (c : Call) (k : M A) w :
  storeFails c w -> throws (database.getDatabase ;; await c ;; k) w.
Proof.
  intros [Hopen|Hrej].
  - apply bind_throws, getDatabase_fails, Hopen.
  - destruct (openFails_dec w) as [Hopen|Hok].
    + apply bind_throws, getDatabase_fails, Hopen.
    + destruct (getDatabase_ok w Hok) as (w' & Hrun & Hdev & Htick & _).
      unfold throws, result, bind. rewrite Hrun. unfold await.
      rewrite Hdev, Htick, Hrej. simpl. eauto.
Qed.

Lemma inTable_find id w : inTable id w = false -> find (Sql.hasId id) (alarmsTable w) = None.
Proof.
  unfold inTable. induction (alarmsTable w) as [|r rs IH]; simpl; [reflexivity|].
  destruct (Sql.hasId id r); simpl; [discriminate | exact IH].
Qed.

Lemma getAlarmById_total id w :
  exists o w', alarmStorage.getAlarmById id w = (Ok o, w').
Proof.
  unfold alarmStorage.getAlarmById, tryCatch.
  match goal with |- context [let (_, _) := ?m w in _] => destruct (m w) as [[o|e] w'] end;
    unfold ret; eauto.
Qed.

Lemma getAlarmById_absent id w :
  inTable id w = false ->
  exists w', alarmStorage.getAlarmById id w = (Ok None, w').
Proof.
  intros Habs. unfold alarmStorage.getAlarmById.
  destruct (openFails_dec w) as [Hopen|Hok].
  - apply getDatabase_fails in Hopen as [e He]. js_unfold.
    destruct (database.getDatabase w) as [[[]|e'] w1]; simpl in *; [discriminate | eauto].
  - destruct (getDatabase_ok w Hok) as (w1 & Hrun & Hdev & Htick & Hdb & Htab & _).
    js_unfold. rewrite Hrun.
    destruct (rejects (device w1) (tick w1) GetFirst); [eauto|].
    simpl. unfold inTable in Habs. rewrite <- Htab in Habs.
    rewrite (inTable_find id w1) by exact Habs.
    eauto.
Qed.

Lemma toggleAlarm_absent_run id w :
  inTable id w = false -> ~ openFails w ->
  exists w', alarmStorage.toggleAlarm id w = (Throw (alarmStorage.notFound id), w').
Proof.
  intros Habs Hok. unfold alarmStorage.toggleAlarm. rewrite tryCatch_rethrow.
  destruct (getDatabase_ok w Hok) as (w1 & Hrun & Hdev & Htick & Hdb & Htab & _).
  assert (Habs1 : inTable id w1 = false) by (unfold inTable in *; now rewrite Htab).
  destruct (getAlarmById_absent id w1 Habs1) as (w2 & Hget).
  unfold bind at 1. rewrite Hrun. unfold bind at 1. rewrite Hget.
  unfold throw. eauto.
Qed.

Lemma toggleAlarm_absent id w :
  inTable id w = false ->
  throws (alarmStorage.toggleAlarm id) w
  /\ (~ openFails w -> result (alarmStorage.toggleAlarm id) w = Throw (alarmStorage.notFound id)).
Proof.
  intros Habs. split.
  - destruct (openFails_dec w) as [Hopen|Hok].
    + unfold alarmStorage.toggleAlarm, throws, result. rewrite tryCatch_rethrow.
      apply (bind_throws database.getDatabase), getDatabase_fails, Hopen.
    + destruct (toggleAlarm_absent_run id w Habs Hok) as (w' & H).
      unfold throws, result. rewrite H. simpl. eauto.
  - intros Hok. destruct (toggleAlarm_absent_run id w Habs Hok) as (w' & H).
    unfold result. now rewrite H.
Qed.

Lemma getAlarmById_tick id w :
  db w = true -> tick (snd (alarmStorage.getAlarmById id w)) = S (tick w)
                 /\ device (snd (alarmStorage.getAlarmById id w)) = device w.
Proof.
  intros Hdb. unfold alarmStorage.getAlarmById, database.getDatabase. js_unfold.
  rewrite Hdb. simpl.
  destruct (rejects (device w) (tick w) GetFirst); simpl; [split; reflexivity|].
  destruct (find _ _) as [row|]; simpl; [|split; reflexivity].
  unfold alarmStorage.rowToAlarm, throw, ret.
  destruct (Iso.parseDate _); simpl; [|split; reflexivity].
  destruct (Json.parse _); simpl; split; reflexivity.
Qed.

Lemma toggleAlarm_propagates id w :
  openFails w \/ rejects (device w) (S (queryTick w)) Run = true ->
  throws (alarmStorage.toggleAlarm id) w.
Proof.
  intros H. unfold alarmStorage.toggleAlarm, throws, result.
  rewrite tryCatch_rethrow.
  destruct (openFails_dec w) as [Hopen|Hok].
  - apply (bind_throws database.getDatabase), getDatabase_fails, Hopen.
  - destruct H as [H|Hrej]; [tauto|].
    destruct (getDatabase_ok w Hok) as (w1 & Hrun & Hdev & Htick & Hdb & _).
    unfold bind at 1. rewrite Hrun. unfold bind at 1.
    pose proof (getAlarmById_tick id w1 Hdb) as [Ht Hd].
    destruct (alarmStorage.getAlarmById id w1) as [[[alarm|]|e] w2]; simpl in *.
    + unfold bind at 1, await. rewrite Hd, Ht, Hdev, Htick, Hrej. simpl. eauto.
    + unfold throw. simpl. eauto.
    + eauto.
Qed.


End StoreProofs.

Module RunFacts.
Import StoreProofs.
Local Open Scope js_scope.

Lemma await_run c w :
  rejects (device w) (tick w) c = false -> await c w = (Ok tt, set_tick (S (tick w)) w).
Proof. intros H. unfold await. now rewrite H. Qed.

Lemma getDatabase_run w :
  noRejection w -> database.getDatabase w = (Ok tt, opened w).
Proof.
  intros H. unfold database.getDatabase, opened. js_unfold.
  destruct (db w); [reflexivity|]. simpl. rewrite !H. reflexivity.
Qed.

Lemma opened_db w : db (opened w) = true.
Proof. unfold opened. destruct (db w) eqn:E; [exact E | reflexivity]. Qed.

Lemma opened_idem w : opened (opened w) = opened w.
Proof. unfold opened at 1. now rewrite opened_db. Qed.

Lemma opened_device w : device (opened w) = device w.
Proof. unfold opened. now destruct (db w). Qed.

Lemma opened_table w : alarmsTable (opened w) = alarmsTable w.
Proof. unfold opened. now destruct (db w). Qed.

Lemma noRejection_device w w' : device w' = device w -> noRejection w -> noRejection w'.
Proof. unfold noRejection. intros -> H. exact H. Qed.

Lemma rowToAlarm_state row w : snd (alarmStorage.rowToAlarm row w) = w.
Proof.
  unfold alarmStorage.rowToAlarm, throw, ret.
  destruct (Iso.parseDate _); [destruct (Json.parse _)|]; reflexivity.
Qed.

Lemma rowToAlarm_pure row w w' :
  fst (alarmStorage.rowToAlarm row w) = fst (alarmStorage.rowToAlarm row w').
Proof.
  unfold alarmStorage.rowToAlarm, throw, ret.
  destruct (Iso.parseDate _); [destruct (Json.parse _)|]; reflexivity.
Qed.

Lemma mapM_rowToAlarm_state rows w : snd (mapM alarmStorage.rowToAlarm rows w) = w.
Proof.
  induction rows as [|r rs IH]; simpl; [reflexivity|].
  unfold bind.
  pose proof (rowToAlarm_state r w) as Hr.
  destruct (alarmStorage.rowToAlarm r w) as [[a|e] w1]; simpl in *; subst w1; [|reflexivity].
  destruct (mapM alarmStorage.rowToAlarm rs w) as [[l|e] w2]; simpl in *; now subst w2.
Qed.

(** [getAlarms], whatever it answers, leaves the world as [getDatabase]
    and one query leave it. *)
Lemma getAlarms_run w :
  noRejection w ->
  exists l, alarmStorage.getAlarms w = (Ok l, set_tick (S (tick (opened w))) (opened w)).
Proof.
  intros H. unfold alarmStorage.getAlarms, tryCatch.
  unfold bind at 1. rewrite getDatabase_run by assumption.
  unfold bind at 1. rewrite await_run by (rewrite opened_device; apply H).
  unfold bind at 1, get.
  pose proof (mapM_rowToAlarm_state
                (Sql.orderByTime (alarmsTable (set_tick (S (tick (opened w))) (opened w))))
                (set_tick (S (tick (opened w))) (opened w))) as Hs.
  destruct (mapM _ _ _) as [[l|e] w1]; simpl in Hs; subst w1; unfold ret; eauto.
Qed.

Lemma rowToAlarm_alarmOfRow row alarm w :
  alarmOfRow row = Some alarm -> alarmStorage.rowToAlarm row w = (Ok alarm, w).
Proof.
  unfold alarmOfRow, alarmStorage.rowToAlarm, ret.
  destruct (Iso.parseDate _); simpl; [|discriminate].
  destruct (Json.parse _); simpl; [|discriminate].
  now intros [= <-].
Qed.

Lemma getAlarmById_run id row alarm w :
  noRejection w -> rowOf id w = Some row -> alarmOfRow row = Some alarm ->
  alarmStorage.getAlarmById id w = (Ok (Some alarm), stepped (opened w)).
Proof.
  intros H Hrow Hal. unfold alarmStorage.getAlarmById, tryCatch.
  unfold bind at 1. rewrite getDatabase_run by assumption.
  unfold bind at 1. rewrite await_run by (rewrite opened_device; apply H).
  unfold bind at 1, get. fold (stepped (opened w)).
  unfold rowOf in Hrow.
  replace (alarmsTable (stepped (opened w))) with (alarmsTable w)
    by (unfold stepped; simpl; now rewrite opened_table).
  rewrite Hrow. unfold bind. rewrite (rowToAlarm_alarmOfRow _ _ _ Hal). reflexivity.
Qed.

Lemma platformUnchanged_refl w : platformUnchanged w w.
Proof. unfold platformUnchanged. tauto. Qed.

Lemma platformUnchanged_trans w1 w2 w3 :
  platformUnchanged w1 w2 -> platformUnchanged w2 w3 -> platformUnchanged w1 w3.
Proof. unfold platformUnchanged. intuition congruence. Qed.

Lemma platformUnchanged_opened w : platformUnchanged w (opened w).
Proof. unfold platformUnchanged, opened. destruct (db w); simpl; tauto. Qed.

Lemma platformUnchanged_stepped w : platformUnchanged w (stepped w).
Proof. unfold platformUnchanged, stepped. simpl. tauto. Qed.

Lemma platformUnchanged_table rows w : platformUnchanged w (set_alarmsTable rows w).
Proof. unfold platformUnchanged. simpl. tauto. Qed.

(** [toggleAlarm] on a stored alarm, when no call rejects: only the
    [enabled] column of that id is written. *)
Lemma toggleAlarm_run id row alarm w :
  noRejection w -> rowOf id w = Some row -> alarmOfRow row = Some alarm ->
  exists l w',
    alarmStorage.toggleAlarm id w = (Ok l, w')
    /\ alarmsTable w'
       = Sql.setEnabled id (if enabled alarm then 0 else 1) (alarmsTable w)
    /\ platformUnchanged w w'.
Proof.
  intros H Hrow Hal. unfold alarmStorage.toggleAlarm. rewrite tryCatch_rethrow.
  unfold bind at 1. rewrite getDatabase_run by assumption.
  assert (H1 : noRejection (opened w)) by (eapply noRejection_device; [apply opened_device | exact H]).
  unfold bind at 1.
  rewrite (getAlarmById_run id row alarm) by
    (try assumption; unfold rowOf in *; now rewrite opened_table).
  rewrite opened_idem.
  set (w1 := stepped (opened w)).
  assert (Hd1 : device w1 = device w) by (unfold w1, stepped; simpl; apply opened_device).
  unfold bind at 1. rewrite await_run by (rewrite Hd1; apply H).
  unfold bind at 1, get. unfold bind at 1, modify.
  set (w2 := set_alarmsTable _ _).
  assert (H2 : noRejection w2) by (eapply noRejection_device; [|exact H]; unfold w2; simpl; exact Hd1).
  destruct (getAlarms_run w2 H2) as (l & Hl). rewrite Hl.
  exists l. eexists. split; [reflexivity|]. split.
  - simpl. rewrite opened_table. unfold w2. simpl. unfold w1, stepped. simpl.
    now rewrite opened_table.
  - eapply platformUnchanged_trans; [apply platformUnchanged_opened|].
    eapply platformUnchanged_trans; [apply (platformUnchanged_stepped (opened w))|].
    fold w1.
    eapply platformUnchanged_trans; [apply (platformUnchanged_stepped w1)|].
    eapply platformUnchanged_trans; [apply platformUnchanged_table|]. fold w2.
    eapply platformUnchanged_trans; [apply platformUnchanged_opened|].
    apply platformUnchanged_stepped.
Qed.

End RunFacts.

Module DismissProofs.
Import StoreProofs RunFacts.
Local Open Scope js_scope.

Lemma find_setEnabled id v rows :
  find (Sql.hasId id) (Sql.setEnabled id v rows)
  = option_map (withEnabled v) (find (Sql.hasId id) rows).
Proof.
  induction rows as [|r rs IH]; simpl; [reflexivity|].
  destruct (Sql.hasId id r) eqn:E; simpl.
  - unfold Sql.hasId in *. simpl. now rewrite E.
  - now rewrite E.
Qed.

Lemma handleDismiss_oneTime_run alarmId row alarm w :
  noRejection w -> rowOf alarmId w = Some row -> alarmOfRow row = Some alarm ->
  repeatDays alarm = [] ->
  exists w',
    alarmEventService.handleDismiss alarmId w = (Ok tt, w')
    /\ alarmsTable w'
       = Sql.setEnabled alarmId (if enabled alarm then 0 else 1) (alarmsTable w)
    /\ platformUnchanged w w'.
Proof.
  intros H Hrow Hal Hrep. unfold alarmEventService.handleDismiss, tryCatch.
  unfold bind at 1. rewrite (getAlarmById_run alarmId row alarm) by assumption.
  rewrite Hrep. simpl.
  set (w1 := stepped (opened w)).
  assert (Hd1 : device w1 = device w) by (unfold w1, stepped; simpl; apply opened_device).
  assert (Ht1 : alarmsTable w1 = alarmsTable w) by (unfold w1, stepped; simpl; apply opened_table).
  destruct (toggleAlarm_run alarmId row alarm w1) as (l & w' & Hrun & Htab & Hfr);
    [eapply noRejection_device; eassumption | unfold rowOf in *; now rewrite Ht1 | assumption |].
  unfold bind. rewrite Hrun. unfold ret. exists w'. split; [reflexivity|]. split.
  - now rewrite Htab, Ht1.
  - eapply platformUnchanged_trans; [|exact Hfr].
    eapply platformUnchanged_trans; [apply platformUnchanged_opened|].
    apply platformUnchanged_stepped.
Qed.

(** The effect of one handled dismissal on an enabled one-time alarm. *)
Lemma handleDismiss_oneTime_effect alarmId row alarm w :
  noRejection w -> rowOf alarmId w = Some row -> alarmOfRow row = Some alarm ->
  repeatDays alarm = [] -> enabled alarm = true ->
  rowOf alarmId (exec (alarmEventService.handleDismiss alarmId) w) = Some (withEnabled 0 row)
  /\ alarmsTable (exec (alarmEventService.handleDismiss alarmId) w)
     = Sql.setEnabled alarmId 0 (alarmsTable w)
  /\ platformUnchanged w (exec (alarmEventService.handleDismiss alarmId) w).
Proof.
  intros H Hrow Hal Hrep Hen.
  destruct (handleDismiss_oneTime_run alarmId row alarm w H Hrow Hal Hrep)
    as (w' & Hrun & Htab & Hfr).
  unfold exec. rewrite Hrun. simpl. rewrite Hen in Htab.
  repeat split; try assumption; try apply Hfr.
  unfold rowOf in *. rewrite Htab, find_setEnabled, Hrow. reflexivity.
Qed.

(** C3, as the code has it. Dismissing a stored one-time alarm whose record
    is enabled, when no store call rejects: the record ends with
    [enabled = 0] and every other column as it was, the [notificationId]
    column included; the other rows and the platform are untouched. *)
Theorem handleDismiss_oneTime_disables alarmId row alarm w :
  noRejection w -> rowOf alarmId w = Some row -> alarmOfRow row = Some alarm ->
  repeatDays alarm = [] -> enabled alarm = true ->
  let w' := exec (alarmEventService.handleDismiss alarmId) w in
  rowOf alarmId w' = Some (withEnabled 0 row)
  /\ AlarmRow.notificationId (withEnabled 0 row) = AlarmRow.notificationId row
  /\ alarmsTable w' = Sql.setEnabled alarmId 0 (alarmsTable w)
  /\ platformUnchanged w w'.
Proof.
  intros H Hrow Hal Hrep Hen w'. subst w'.
  destruct (handleDismiss_oneTime_effect alarmId row alarm w H Hrow Hal Hrep Hen)
    as (H1 & H2 & H3).
  repeat split; try assumption; apply H3.
Qed.

Lemma firedWorld_noRejection : noRejection firedWorld.
Proof. intros n c. reflexivity. Qed.

Lemma handleDismiss_oneTime_disables_witness :
  rowOf "1" (exec (alarmEventService.handleDismiss "1") firedWorld)
  = Some (withEnabled 0 oneTimeRow).
Proof.
  refine (proj1 (handleDismiss_oneTime_disables "1" oneTimeRow
                   (mkAlarm "1" 25200000 "Wake" true [] (Some "native-1"))
                   firedWorld firedWorld_noRejection _ _ _ _));
    reflexivity.
Defined.

(** C3 as stated fails on the handle: after the dismissal of the fired
    one-time alarm, through the native screen and its event chain, the
    record is disabled but still carries [native-1]. *)
Lemma dismissed_oneTime_keeps_handle :
  rowOf "1" firedWorld = Some oneTimeRow
  /\ alarmOfRow oneTimeRow = Some (mkAlarm "1" 25200000 "Wake" true [] (Some "native-1"))
  /\ rowOf "1" (exec (AlarmActivity.handleDismiss "1") firedWorld)
     = Some (AlarmRow.mk "1" "1970-01-01T07:00:00.000Z" "Wake" 0 "[]" (Some "native-1"))
  /\ ~ (exists r,
          rowOf "1" (exec (AlarmActivity.handleDismiss "1") firedWorld) = Some r
          /\ AlarmRow.enabled r = 0 /\ AlarmRow.notificationId r = None).
Proof.
  assert (E : rowOf "1" (exec (AlarmActivity.handleDismiss "1") firedWorld)
              = Some (AlarmRow.mk "1" "1970-01-01T07:00:00.000Z" "Wake" 0 "[]" (Some "native-1")))
    by (vm_compute; reflexivity).
  repeat split; try reflexivity; try exact E.
  intros (r & Hr & _ & Hn). rewrite E in Hr. injection Hr as <-. discriminate.
Qed.

(** Spec scenario: a repeating alarm (Mon, Wed at 07:00) fires on Monday
    1970-01-05 and is dismissed: the record stays enabled and the native
    timer is armed for Wednesday 1970-01-07 07:00. *)
Example dismissed_repeating_rearms :
  let w := mkWorld sampleDevice 370800000 0 true [repeatingRow] true [] 0 ∅ true [] in
  let w' := exec (AlarmActivity.handleDismiss "2") w in
  rowOf "2" w' = Some repeatingRow
  /\ alarmManager w' !! hashCode "2"
     = Some (mkPendingAlarm "2" "Work" 543600000 true).
Proof. vm_compute. split; reflexivity. Qed.

End DismissProofs.

Module DeliveryProofs.
Import StoreProofs RunFacts DismissProofs.
Local Open Scope js_scope.

Lemma observeAll_pushes os : forall w,
  observeAll os w
  = (Ok tt, set_routerStack (rev (map ringOf os) ++ routerStack w) w).
Proof.
  induction os as [|o os IH]; intros w; simpl.
  - unfold ret. now destruct w.
  - unfold bind.
    assert (Ho : observe o w = (Ok tt, set_routerStack (ringOf o :: routerStack w) w))
      by (destruct o; reflexivity).
    rewrite Ho, IH. simpl. now rewrite <- app_assoc.
Qed.

Lemma ringScreen_handleDismiss_table alarmId row alarm w :
  alarmId <> EmptyString ->
  noRejection w -> rowOf alarmId w = Some row -> alarmOfRow row = Some alarm ->
  repeatDays alarm = [] ->
  alarmsTable (exec (AlarmRingScreen.handleDismiss alarmId) w)
  = Sql.setEnabled alarmId (if enabled alarm then 0 else 1) (alarmsTable w).
Proof.
  intros Hne H Hrow Hal Hrep. unfold exec, AlarmRingScreen.handleDismiss.
  destruct (String.eqb_spec alarmId EmptyString) as [->|_]; [congruence|].
  unfold bind at 1, tryCatch.
  unfold bind at 1. rewrite (getAlarmById_run alarmId row alarm) by assumption.
  rewrite Hrep. simpl.
  set (w1 := stepped (opened w)).
  assert (Hd1 : device w1 = device w) by (unfold w1, stepped; simpl; apply opened_device).
  assert (Ht1 : alarmsTable w1 = alarmsTable w) by (unfold w1, stepped; simpl; apply opened_table).
  destruct (toggleAlarm_run alarmId row alarm w1) as (l & w' & Hrun & Htab & Hfr);
    [eapply noRejection_device; eassumption | unfold rowOf in *; now rewrite Ht1 | assumption |].
  unfold bind. rewrite Hrun. simpl. now rewrite Htab, Ht1.
Qed.

Lemma alarmOfRow_withEnabled v row alarm :
  alarmOfRow row = Some alarm ->
  alarmOfRow (withEnabled v row)
  = Some (mkAlarm (id alarm) (time alarm) (label alarm) (v =? 1)
            (repeatDays alarm) (notificationId alarm)).
Proof.
  unfold alarmOfRow, withEnabled. simpl.
  destruct (Iso.parseDate _); simpl; [|discriminate].
  destruct (Json.parse _); simpl; [|discriminate].
  now intros [= <-].
Qed.

Lemma setEnabled_twice id v v' rows :
  Sql.setEnabled id v' (Sql.setEnabled id v rows) = Sql.setEnabled id v' rows.
Proof.
  unfold Sql.setEnabled. rewrite map_map. apply map_ext. intros r.
  destruct (Sql.hasId id r) eqn:E; simpl.
  - unfold Sql.hasId in *. simpl. now rewrite E.
  - now rewrite E.
Qed.




End DeliveryProofs.

Module FrameRules.
Import StoreProofs.
Local Open Scope js_scope.

Section Preserves.
Context (R : World -> World -> Prop) `{!PreOrder R}.

Lemma at_ret {A} (a : A) w : preservesAt R (ret a) w.
Proof. unfold preservesAt. simpl. reflexivity. Qed.

Lemma at_throw {A} e w : preservesAt R (@throw A e) w.
Proof. unfold preservesAt. simpl. reflexivity. Qed.

Lemma at_bind {A B} (m : M A) (k : A -> M B) w :
  preservesAt R m w -> (forall a w', R w w' -> preservesAt R (k a) w') ->
  preservesAt R (bind m k) w.
Proof.
  unfold preservesAt, bind. intros Hm Hk.
  destruct (m w) as [[a|e] w1]; simpl in *; [|exact Hm].
  etransitivity; [exact Hm | apply Hk, Hm].
Qed.

Lemma at_tryCatch {A} (m : M A) (h : JsError -> M A) w :
  preservesAt R m w -> (forall e w', R w w' -> preservesAt R (h e) w') ->
  preservesAt R (tryCatch m h) w.
Proof.
  unfold preservesAt, tryCatch. intros Hm Hh.
  destruct (m w) as [[a|e] w1]; simpl in *; [exact Hm|].
  etransitivity; [exact Hm | apply Hh, Hm].
Qed.

Lemma at_get {A} (k : World -> M A) w :
  preservesAt R (k w) w -> preservesAt R (bind get k) w.
Proof. unfold preservesAt, bind, get. auto. Qed.

Lemma at_modify (f : World -> World) w : R w (f w) -> preservesAt R (modify f) w.
Proof. unfold preservesAt. auto. Qed.

Lemma at_await c w : (forall n, R w (set_tick n w)) -> preservesAt R (await c) w.
Proof. unfold preservesAt, await. intros Ht. destruct (rejects _ _ _); apply Ht. Qed.

End Preserves.

Global Instance noNewHandle_preorder : PreOrder noNewHandle.
Proof.
  split.
  - intros w. unfold noNewHandle. repeat split; try reflexivity. apply incl_refl.
  - intros w1 w2 w3 (A1 & A2 & A3 & A4 & A5) (B1 & B2 & B3 & B4 & B5).
    unfold noNewHandle. repeat split; try congruence.
    + etransitivity; eassumption.
    + eapply incl_tran; eassumption.
Qed.

Lemma noNewHandle_tick w n : noNewHandle w (set_tick n w).
Proof. unfold noNewHandle. simpl. repeat split; try reflexivity. apply incl_refl. Qed.

(** One rule of the frame calculus, on the head of the program. *)
Ltac frame_step :=
  lazymatch goal with
  | |- preservesAt _ (ret _) _ => apply at_ret; typeclasses eauto
  | |- preservesAt _ (throw _) _ => apply at_throw; typeclasses eauto
  | |- preservesAt _ (await _) _ => apply at_await; intros ?; apply noNewHandle_tick
  | |- preservesAt _ (bind get _) _ => apply at_get
  | |- preservesAt _ (bind _ _) _ =>
      apply at_bind; [typeclasses eauto | | intros ? ? _]
  | |- preservesAt _ (tryCatch _ _) _ =>
      apply at_tryCatch; [typeclasses eauto | | intros ? ? _]
  | |- preservesAt _ (if ?b then _ else _) _ => destruct b
  | |- preservesAt _ (match ?x with _ => _ end) _ => destruct x
  end.

Ltac frame := repeat frame_step.

Lemma requestPermissions_frame : preserves noNewHandle notificationService.requestPermissions.
Proof.
  intros w. unfold notificationService.requestPermissions. frame.
  apply at_modify. unfold noNewHandle. simpl. repeat split; try reflexivity. apply incl_refl.
Qed.

Lemma canScheduleExactAlarms_frame : preserves noNewHandle AlarmModule.canScheduleExactAlarms.
Proof.
  intros w.
  unfold AlarmModule.canScheduleExactAlarms, AlarmModuleNative.canScheduleExactAlarms.
  frame.
Qed.

Lemma requestExactAlarmPermission_frame :
  preserves noNewHandle notificationService.requestExactAlarmPermission.
Proof.
  intros w. unfold notificationService.requestExactAlarmPermission.
  frame_step. frame_step; [frame_step|].
  frame_step; [apply canScheduleExactAlarms_frame|].
  frame_step; [|frame_step].
  frame_step; [|apply canScheduleExactAlarms_frame].
  unfold AlarmModule.requestExactAlarmPermission,
    AlarmModuleNative.requestExactAlarmPermission.
  frame.
Qed.

Lemma cancelNotification_frame h : preserves noNewHandle (notificationService.cancelNotification h).
Proof.
  intros w. unfold notificationService.cancelNotification,
    AlarmModule.cancelAlarm, AlarmModuleNative.cancelAlarm,
    Notifications.cancelScheduledNotificationAsync.
  frame; apply at_modify; unfold noNewHandle; simpl;
    repeat split; try reflexivity; try apply incl_refl.
  - apply delete_subseteq.
  - apply incl_filter.
Qed.

End FrameRules.

Module ArmProofs.
Import StoreProofs RunFacts FrameRules.
Local Open Scope js_scope.

Lemma isAvailable_device w w' :
  device w' = device w -> AlarmModule.isAvailable w' = AlarmModule.isAvailable w.
Proof. unfold AlarmModule.isAvailable. now intros ->. Qed.

Lemma scheduleNativeAlarm_rejected alarm w :
  AlarmModule.isAvailable w = true -> armRejects w ->
  exists e, notificationService.scheduleNativeAlarm alarm w = (Throw e, stepped w).
Proof.
  intros Hav Hrej.
  unfold notificationService.scheduleNativeAlarm, AlarmModule.scheduleAlarm,
    AlarmModuleNative.scheduleAlarm.
  js_unfold. rewrite Hav. simpl. rewrite Hav. simpl. rewrite Hrej. simpl. eauto.
Qed.

Lemma frame_of {A} (m : M A) w o w' :
  preserves noNewHandle m -> m w = (o, w') -> noNewHandle w w'.
Proof. intros H E. specialize (H w). unfold preservesAt in H. now rewrite E in H. Qed.

Lemma cancelExisting_frame (alarm : Alarm) :
  preserves noNewHandle
    (match notificationId alarm with
     | Some existing =>
         if String.eqb existing EmptyString then ret tt
         else notificationService.cancelNotification existing
     | None => ret tt
     end).
Proof.
  destruct (notificationId alarm) as [h|]; [destruct (String.eqb h EmptyString)|];
    try apply cancelNotification_frame; intros w; apply at_ret; typeclasses eauto.
Qed.

(** With arming rejected, the body of [scheduleAlarmNotification] never
    answers a handle, and nothing is armed on the way. *)
Lemma scheduleAlarmNotification_rejected_run alarm w :
  AlarmModule.isAvailable w = true -> armRejects w ->
  exists w', notificationService.scheduleAlarmNotification alarm w = (Ok None, w')
             /\ noNewHandle w w'.
Proof.
  intros Hav Hrej.
  unfold notificationService.scheduleAlarmNotification, tryCatch.
  unfold bind at 1.
  destruct (notificationService.requestPermissions w) as [[b|e] w1] eqn:E1;
    pose proof (frame_of _ _ _ _ requestPermissions_frame E1) as F1;
    [|simpl; eauto].
  destruct b; simpl; [|unfold ret; eauto].
  unfold bind at 1.
  destruct (notificationService.requestExactAlarmPermission w1) as [[b2|e] w2] eqn:E2;
    pose proof (frame_of _ _ _ _ requestExactAlarmPermission_frame E2) as F2;
    [|simpl; eexists; split; [reflexivity | etransitivity; eassumption]].
  unfold bind at 1.
  match goal with |- context [match ?m w2 with _ => _ end] =>
    destruct (m w2) as [[[]|e] w3] eqn:E3;
    pose proof (frame_of _ _ _ _ (cancelExisting_frame alarm) E3) as F3
  end;
    [|simpl; eexists; split;
      [reflexivity | etransitivity; [|eassumption]; etransitivity; eassumption]].
  assert (F : noNewHandle w w3)
    by (etransitivity; [|eassumption]; etransitivity; eassumption).
  unfold bind at 1, get.
  rewrite (isAvailable_device w w3) by apply F. rewrite Hav.
  destruct (scheduleNativeAlarm_rejected alarm w3) as (e & He).
  { rewrite (isAvailable_device w w3) by apply F. exact Hav. }
  { intros n. destruct F as (-> & _). apply Hrej. }
  unfold bind. rewrite He. simpl. eexists. split; [reflexivity|].
  etransitivity; [exact F | apply noNewHandle_tick].
Qed.

Lemma scheduleAlarmNotification_rejected alarm w :
  AlarmModule.isAvailable w = true -> armRejects w ->
  result (notificationService.scheduleAlarmNotification alarm) w = Ok None
  /\ noNewHandle w (exec (notificationService.scheduleAlarmNotification alarm) w).
Proof.
  intros Hav Hrej.
  destruct (scheduleAlarmNotification_rejected_run alarm w Hav Hrej) as (w' & E & F).
  unfold result, exec. rewrite E. split; [reflexivity | exact F].
Qed.

Lemma scheduleAlarmNotification_denied alarm w :
  notificationsDenied w ->
  result (notificationService.scheduleAlarmNotification alarm) w = Ok None.
Proof.
  intros [Hg Hu].
  unfold result, notificationService.scheduleAlarmNotification,
    notificationService.requestPermissions.
  js_unfold.
  destruct (rejects (device w) (tick w) GetPermissions); simpl; [reflexivity|].
  rewrite Hg. simpl.
  destruct (rejects (device w) (S (tick w)) RequestPermissions); simpl; [reflexivity|].
  rewrite Hu. simpl. reflexivity.
Qed.




End ArmProofs.

Module HashFacts.

Lemma wrapInt_congr x : (M32 | wrapInt x - x).
Proof.
  unfold wrapInt, M32. exists (- ((x + 2 ^ 31) / 2 ^ 32)).
  pose proof (Z.div_mod (x + 2 ^ 31) (2 ^ 32) ltac:(lia)). lia.
Qed.

Lemma wrapInt_range x : - 2 ^ 31 <= wrapInt x < 2 ^ 31.
Proof.
  unfold wrapInt. pose proof (Z.mod_pos_bound (x + 2 ^ 31) (2 ^ 32) ltac:(lia)). lia.
Qed.

Lemma hashFrom_app p s : forall h, hashFrom h (p +:+ s) = hashFrom (hashFrom h p) s.
Proof. induction p as [|c p IH]; intros h; simpl; [reflexivity | apply IH]. Qed.

(** The hash from [h] is the hash from 0 plus [h * 31 ^ length], modulo
    2^32. *)
Lemma hashFrom_congr s : forall h,
  (M32 | hashFrom h s - (h * 31 ^ Z.of_nat (String.length s) + hashFrom 0 s)).
Proof.
  induction s as [|c s IH]; intros h.
  - simpl. exists 0. lia.
  - cbn [hashFrom String.length].
    rewrite Nat2Z.inj_succ, Z.pow_succ_r by lia.
    set (P := 31 ^ Z.of_nat (String.length s)) in *.
    set (cv := Z.of_nat (nat_of_ascii c)).
    destruct (IH (wrapInt (31 * h + cv))) as (k1 & Hk1).
    destruct (IH (wrapInt (31 * 0 + cv))) as (k2 & Hk2).
    destruct (wrapInt_congr (31 * h + cv)) as (k3 & Hk3).
    destruct (wrapInt_congr (31 * 0 + cv)) as (k4 & Hk4).
    exists ((k3 - k4) * P + k1 - k2).
    set (A := hashFrom (wrapInt (31 * h + cv)) s) in *.
    set (B := hashFrom (wrapInt (31 * 0 + cv)) s) in *.
    set (W1 := wrapInt (31 * h + cv)) in *.
    set (W2 := wrapInt (31 * 0 + cv)) in *.
    clearbody A B W1 W2 P.
    assert (E1 : W1 = k3 * M32 + (31 * h + cv)) by lia.
    assert (E2 : W2 = k4 * M32 + cv) by lia.
    subst W1 W2. nia.
Qed.

Lemma divide_pow31 n : forall a, (M32 | a * 31 ^ Z.of_nat n) -> (M32 | a).
Proof.
  induction n as [|n IH]; intros a H.
  - simpl in H. now rewrite Z.mul_1_r in H.
  - rewrite Nat2Z.inj_succ, Z.pow_succ_r in H by lia.
    replace (a * (31 * 31 ^ Z.of_nat n)) with ((31 * a) * 31 ^ Z.of_nat n) in H by ring.
    apply IH in H. eapply Z.gauss; [exact H | reflexivity].
Qed.

(** Two strings with a common suffix hash alike only if their prefixes
    do, modulo 2^32. *)
Lemma hashFrom_injective_start s a b :
  hashFrom a s = hashFrom b s -> (M32 | a - b).
Proof.
  intros E.
  destruct (hashFrom_congr s a) as (k1 & H1).
  destruct (hashFrom_congr s b) as (k2 & H2).
  apply (divide_pow31 (String.length s)).
  exists (k2 - k1). rewrite E in H1.
  set (P := 31 ^ Z.of_nat (String.length s)) in *. clearbody P. nia.
Qed.

(** The request code of a snooze timer is never that of its alarm. *)
Lemma hashCode_snooze alarmId : hashCode ("snooze-" +:+ alarmId) <> hashCode alarmId.
Proof.
  unfold hashCode. rewrite hashFrom_app. intros E.
  apply hashFrom_injective_start in E.
  change (hashFrom 0 "snooze-") with (-2056114425) in E.
  destruct E as (k & Hk). unfold M32 in Hk. lia.
Qed.

End HashFacts.

Module SnoozeProofs.
Import StoreProofs RunFacts FrameRules ArmProofs HashFacts.
Local Open Scope js_scope.

Lemma orElse_nonempty s d : d <> EmptyString -> orElse s d <> EmptyString.
Proof. unfold orElse. destruct (String.eqb_spec s EmptyString); congruence. Qed.

Lemma orElse_orElse s d d' : d <> EmptyString -> orElse (orElse s d) d' = orElse s d.
Proof.
  intros Hd. unfold orElse at 1.
  destruct (String.eqb_spec (orElse s d) EmptyString) as [E|_]; [|reflexivity].
  now apply orElse_nonempty in E.
Qed.

Lemma rowOf_id alarmId w row : rowOf alarmId w = Some row -> AlarmRow.id row = alarmId.
Proof.
  unfold rowOf. intros H. apply find_some in H as [_ H].
  unfold Sql.hasId in H. now apply String.eqb_eq in H.
Qed.

Lemma alarmOfRow_id row alarm : alarmOfRow row = Some alarm -> id alarm = AlarmRow.id row.
Proof.
  unfold alarmOfRow.
  destruct (Iso.parseDate _); simpl; [|discriminate].
  destruct (Json.parse _); simpl; [|discriminate].
  now intros [= <-].
Qed.

Lemma nativeScheduleAlarm_run p w :
  AlarmModule.isAvailable w = true ->
  rejects (device w) (tick w) NativeScheduleAlarm = false ->
  AlarmModule.scheduleAlarm p w
  = (Ok tt, set_alarmManager (<[hashCode (intentAlarmId p) := p]> (alarmManager w)) (stepped w)).
Proof.
  intros Hav Hrej. unfold AlarmModule.scheduleAlarm, AlarmModuleNative.scheduleAlarm.
  js_unfold. rewrite Hav. simpl. rewrite Hrej. reflexivity.
Qed.

Lemma scheduleSnoozeNotification_run t l alarmId w :
  AlarmModule.isAvailable w = true ->
  rejects (device w) (tick w) NativeScheduleAlarm = false ->
  notificationService.scheduleSnoozeNotification t l alarmId w
  = (Ok (Some ("native-snooze-" +:+ alarmId)),
     set_alarmManager
       (<[hashCode ("snooze-" +:+ alarmId) :=
            mkPendingAlarm ("snooze-" +:+ alarmId) (orElse l "Snooze Alarm") t false]>
          (alarmManager w))
       (stepped w)).
Proof.
  intros Hav Hrej. unfold notificationService.scheduleSnoozeNotification, tryCatch.
  unfold bind at 1, get. rewrite Hav.
  unfold bind at 1. rewrite nativeScheduleAlarm_run by assumption. reflexivity.
Qed.

Lemma handleSnooze_native_run alarmId row alarm w :
  noRejection w -> AlarmModule.isAvailable w = true ->
  rowOf alarmId w = Some row -> alarmOfRow row = Some alarm ->
  alarmEventService.handleSnooze alarmId w
  = (Ok tt,
     set_alarmManager
       (<[hashCode ("snooze-" +:+ alarmId) := snoozeTimer (clock w) alarm]>
          (alarmManager w))
       (stepped (stepped (opened w)))).
Proof.
  intros H Hav Hrow Hal.
  assert (Hid : id alarm = alarmId)
    by (rewrite (alarmOfRow_id _ _ Hal); eapply rowOf_id; eassumption).
  unfold alarmEventService.handleSnooze, tryCatch.
  unfold bind at 1. rewrite (getAlarmById_run alarmId row alarm) by assumption.
  unfold bind at 1, get.
  set (w1 := stepped (opened w)).
  assert (Hd1 : device w1 = device w) by (unfold w1, stepped; simpl; apply opened_device).
  unfold bind at 1.
  rewrite scheduleSnoozeNotification_run;
    [| rewrite (isAvailable_device w w1) by exact Hd1; exact Hav
     | rewrite Hd1; apply H].
  unfold ret, snoozeTimer. rewrite Hid, orElse_orElse by discriminate.
  assert (Hc : clock w1 = clock w)
    by (unfold w1, stepped, opened; destruct (db w); reflexivity).
  assert (Ha : alarmManager w1 = alarmManager w)
    by (unfold w1, stepped, opened; destruct (db w); reflexivity).
  unfold JsDate.getTime. rewrite Hc, Ha. reflexivity.
Qed.


Lemma handleSnooze_fallback_run alarmId row alarm w :
  noRejection w -> AlarmModule.isAvailable w = false ->
  rowOf alarmId w = Some row -> alarmOfRow row = Some alarm ->
  alarmEventService.handleSnooze alarmId w
  = (Ok tt,
     set_scheduled
       (scheduled w ++
        [mkNotificationRequest (Notifications.identifierOf (nextIdentifier w))
           "⏰ Snooze Alarm" (orElse (label alarm) "Alarm") alarmId
           (orElse (label alarm) "Alarm") true (DateTrigger (clock w + 300000))])
       (set_nextIdentifier (S (nextIdentifier w)) (stepped (stepped (opened w))))).
Proof.
  intros H Hav Hrow Hal.
  assert (Hid : id alarm = alarmId)
    by (rewrite (alarmOfRow_id _ _ Hal); eapply rowOf_id; eassumption).
  unfold alarmEventService.handleSnooze, tryCatch.
  unfold bind at 1. rewrite (getAlarmById_run alarmId row alarm) by assumption.
  unfold bind at 1, get.
  set (w1 := stepped (opened w)).
  assert (Hd1 : device w1 = device w) by (unfold w1, stepped; simpl; apply opened_device).
  assert (H1 : noRejection w1) by (eapply noRejection_device; eassumption).
  unfold bind at 1.
  unfold notificationService.scheduleSnoozeNotification, tryCatch.
  unfold bind at 1, get.
  rewrite (isAvailable_device w w1) by exact Hd1. rewrite Hav.
  unfold bind at 1, Notifications.scheduleNotificationAsync.
  js_unfold. rewrite H1. simpl.
  rewrite Hid, orElse_orElse by discriminate.
  subst w1. unfold opened. destruct (db w); reflexivity.
Qed.

(** On the notification fallback (no native module) the snooze is a
    scheduled notification under a fresh identifier, carrying the alarm id
    and the snooze mark, due at [now + 5 min]; timers and table are
    untouched. *)
Lemma handleSnooze_fallback alarmId row alarm w :
  noRejection w -> AlarmModule.isAvailable w = false ->
  rowOf alarmId w = Some row -> alarmOfRow row = Some alarm ->
  let w' := exec (alarmEventService.handleSnooze alarmId) w in
  scheduled w'
  = scheduled w ++
    [mkNotificationRequest (Notifications.identifierOf (nextIdentifier w))
       "⏰ Snooze Alarm" (orElse (label alarm) "Alarm") alarmId
       (orElse (label alarm) "Alarm") true (DateTrigger (clock w + 300000))]
  /\ alarmManager w' = alarmManager w
  /\ alarmsTable w' = alarmsTable w.
Proof.
  intros H Hav Hrow Hal w'. subst w'. unfold exec.
  rewrite (handleSnooze_fallback_run alarmId row alarm w H Hav Hrow Hal). simpl.
  unfold opened. destruct (db w); repeat split; reflexivity.
Qed.

End SnoozeProofs.

Module RearmProofs.
Import StoreProofs RunFacts FrameRules ArmProofs HashFacts SnoozeProofs.
Local Open Scope js_scope.

Lemma onlyTicked_refl w : onlyTicked w w.
Proof. split; [apply platformUnchanged_refl | reflexivity]. Qed.

Lemma onlyTicked_trans w1 w2 w3 : onlyTicked w1 w2 -> onlyTicked w2 w3 -> onlyTicked w1 w3.
Proof.
  intros [A1 A2] [B1 B2]. split; [eapply platformUnchanged_trans; eassumption | congruence].
Qed.

Lemma onlyTicked_stepped w : onlyTicked w (stepped w).
Proof. split; [apply platformUnchanged_stepped | reflexivity]. Qed.

Lemma requestPermissions_granted w :
  noRejection w -> notificationsGranted w = true ->
  exists w', notificationService.requestPermissions w = (Ok true, w') /\ onlyTicked w w'.
Proof.
  intros H Hg. unfold notificationService.requestPermissions. js_unfold.
  rewrite H. simpl. rewrite Hg. simpl.
  destruct (platformOS (device w)); simpl.
  - rewrite H. eexists. split; [reflexivity|].
    unfold onlyTicked, platformUnchanged. simpl. tauto.
  - eexists. split; [reflexivity|].
    unfold onlyTicked, platformUnchanged. simpl. tauto.
Qed.

Lemma canScheduleExactAlarms_ok w :
  noRejection w ->
  exists b w', AlarmModule.canScheduleExactAlarms w = (Ok b, w') /\ onlyTicked w w'.
Proof.
  intros H. unfold AlarmModule.canScheduleExactAlarms,
    AlarmModuleNative.canScheduleExactAlarms. js_unfold.
  destruct (negb (AlarmModule.isAvailable w)).
  - do 2 eexists. split; [reflexivity | apply onlyTicked_refl].
  - rewrite H. simpl.
    destruct (_ <=? _); do 2 eexists; (split; [reflexivity|]);
      unfold onlyTicked, platformUnchanged; simpl; tauto.
Qed.

Lemma requestExactAlarmPermission_ok w :
  noRejection w ->
  exists b w', notificationService.requestExactAlarmPermission w = (Ok b, w')
               /\ onlyTicked w w'.
Proof.
  intros H. unfold notificationService.requestExactAlarmPermission.
  unfold bind at 1, get.
  destruct (negb (AlarmModule.isAvailable w)) eqn:Hav.
  { do 2 eexists. split; [reflexivity | apply onlyTicked_refl]. }
  destruct (canScheduleExactAlarms_ok w H) as (b & w1 & E1 & T1).
  unfold bind at 1. rewrite E1.
  destruct (negb b); [|do 2 eexists; split; [reflexivity | exact T1]].
  assert (H1 : noRejection w1) by (eapply noRejection_device; [apply T1 | exact H]).
  assert (E2 : exists w2, AlarmModule.requestExactAlarmPermission w1 = (Ok tt, w2)
                          /\ onlyTicked w1 w2).
  { unfold AlarmModule.requestExactAlarmPermission,
      AlarmModuleNative.requestExactAlarmPermission. js_unfold.
    destruct (negb (AlarmModule.isAvailable w1)).
    - eexists. split; [reflexivity | apply onlyTicked_refl].
    - rewrite H1. simpl. eexists. split; [reflexivity | apply onlyTicked_stepped]. }
  destruct E2 as (w2 & E2 & T2).
  unfold bind at 1. rewrite E2.
  assert (H2 : noRejection w2) by (eapply noRejection_device; [apply T2 | exact H1]).
  destruct (canScheduleExactAlarms_ok w2 H2) as (b3 & w3 & E3 & T3).
  rewrite E3. do 2 eexists. split; [reflexivity|].
  eapply onlyTicked_trans; [exact T1|]. eapply onlyTicked_trans; eassumption.
Qed.

Lemma cancelNotification_run h w :
  noRejection w -> notificationService.cancelNotification h w = (Ok tt, cancelled h w).
Proof.
  intros H. unfold notificationService.cancelNotification, cancelled, tryCatch.
  destruct (startsWith "native-" h).
  - unfold bind at 1, get. destruct (AlarmModule.isAvailable w) eqn:Hav; [|reflexivity].
    unfold AlarmModule.cancelAlarm, AlarmModuleNative.cancelAlarm. js_unfold.
    rewrite Hav. simpl. rewrite H. reflexivity.
  - unfold Notifications.cancelScheduledNotificationAsync. js_unfold.
    rewrite H. reflexivity.
Qed.

Lemma scheduleNativeAlarm_run alarm w :
  noRejection w -> AlarmModule.isAvailable w = true ->
  notificationService.scheduleNativeAlarm alarm w
  = (Ok tt,
     set_alarmManager (<[hashCode (id alarm) := timerOf alarm w]> (alarmManager w))
       (stepped w)).
Proof.
  intros H Hav. unfold notificationService.scheduleNativeAlarm.
  unfold bind at 1, get. rewrite Hav. simpl.
  rewrite nativeScheduleAlarm_run by (try assumption; apply H). reflexivity.
Qed.

Lemma scheduleNotificationAsync_run t b a l sn tr w :
  noRejection w ->
  Notifications.scheduleNotificationAsync t b a l sn tr w
  = (Ok (Notifications.identifierOf (nextIdentifier w)),
     set_scheduled
       (scheduled w ++
        [mkNotificationRequest (Notifications.identifierOf (nextIdentifier w)) t b a l sn tr])
       (set_nextIdentifier (S (nextIdentifier w)) (stepped w))).
Proof.
  intros H. unfold Notifications.scheduleNotificationAsync. js_unfold.
  rewrite H. reflexivity.
Qed.

Lemma startsWith_native s : startsWith "native-" ("native-" +:+ s) = true.
Proof. reflexivity. Qed.

Lemma replaceFirst_native s : replaceFirst "native-" EmptyString ("native-" +:+ s) = s.
Proof. reflexivity. Qed.

Lemma identifierOf_not_native n : startsWith "native-" (Notifications.identifierOf n) = false.
Proof. reflexivity. Qed.

Lemma identifierOf_nonempty n : Notifications.identifierOf n <> EmptyString.
Proof. discriminate. Qed.

Lemma expoLive_not_native alarmId w h :
  identifiersFromLibrary w -> In h (expoLive alarmId w) -> startsWith "native-" h = false.
Proof.
  intros Hlib Hin. unfold expoLive in Hin. apply in_map_iff in Hin as (n & <- & Hn).
  apply filter_In in Hn as [Hn _]. now apply Hlib.
Qed.

Lemma nativeLive_cases alarmId w :
  nativeLive alarmId w = [] \/ nativeLive alarmId w = ["native-" +:+ alarmId].
Proof.
  unfold nativeLive. destruct (alarmManager w !! hashCode alarmId) as [p|]; [|now left].
  destruct (String.eqb _ _); [now right | now left].
Qed.

(** What a consistent record says about the two kinds of handle. *)
Lemma recordConsistent_split alarm w :
  identifiersFromLibrary w -> recordConsistent alarm w ->
  match notificationId alarm with
  | Some h =>
      if String.eqb h EmptyString
      then nativeLive (id alarm) w = [] /\ expoLive (id alarm) w = []
      else if startsWith "native-" h
           then h = "native-" +:+ id alarm /\ AlarmModule.isAvailable w = true
                /\ expoLive (id alarm) w = []
           else nativeLive (id alarm) w = [] /\ expoLive (id alarm) w = [h]
  | None => nativeLive (id alarm) w = [] /\ expoLive (id alarm) w = []
  end.
Proof.
  intros Hlib [Hlive Hshape]. unfold handlesNamed, liveHandles in Hlive.
  destruct (notificationId alarm) as [h|]; [|now apply app_eq_nil in Hlive].
  destruct (String.eqb h EmptyString); [now apply app_eq_nil in Hlive|].
  destruct (startsWith "native-" h) eqn:Hn.
  - destruct (Hshape h eq_refl Hn) as [-> Hav]. repeat split; try assumption.
    destruct (nativeLive_cases (id alarm) w) as [E|E]; rewrite E in Hlive; simpl in Hlive.
    + assert (Hin : In ("native-" +:+ id alarm) (expoLive (id alarm) w))
        by (rewrite Hlive; now left).
      apply (expoLive_not_native _ _ _ Hlib) in Hin. discriminate.
    + now injection Hlive.
  - destruct (nativeLive_cases (id alarm) w) as [E|E]; rewrite E in Hlive; simpl in Hlive.
    + now split.
    + injection Hlive as <- _. discriminate.
Qed.

Lemma expoLive_after_cancel alarmId h w :
  expoLive alarmId
    (set_scheduled
       (List.filter (fun n => negb (String.eqb (identifier n) h)) (scheduled w))
       (stepped w))
  = List.filter (fun x => negb (String.eqb x h)) (expoLive alarmId w).
Proof.
  unfold expoLive. simpl.
  induction (scheduled w) as [|n ns IH]; simpl; [reflexivity|].
  destruct (String.eqb (identifier n) h) eqn:E; simpl.
  - destruct (ofAlarm alarmId n); simpl; [now rewrite E|]; exact IH.
  - destruct (ofAlarm alarmId n); simpl; [rewrite E; simpl; now f_equal | exact IH].
Qed.

(** The cancel step of [scheduleAlarmNotification], from a consistent
    record: afterwards no notification of the id is scheduled, and no native
    timer of the id is left unless the native module is about to replace
    it. *)
Lemma cancel_clears alarm w :
  noRejection w -> identifiersFromLibrary w -> recordConsistent alarm w ->
  exists w',
    (match notificationId alarm with
     | Some existing =>
         if String.eqb existing EmptyString then ret tt
         else notificationService.cancelNotification existing
     | None => ret tt
     end) w = (Ok tt, w')
    /\ device w' = device w /\ clock w' = clock w
    /\ notificationsGranted w' = notificationsGranted w
    /\ incl (scheduled w') (scheduled w)
    /\ expoLive (id alarm) w' = []
    /\ (AlarmModule.isAvailable w = false -> nativeLive (id alarm) w' = []).
Proof.
  intros H Hlib Hc. pose proof (recordConsistent_split alarm w Hlib Hc) as Hs.
  destruct (notificationId alarm) as [h|].
  2:{ exists w. destruct Hs as [Hn He].
      repeat split; try reflexivity; try assumption; [apply incl_refl | now intros _]. }
  destruct (String.eqb h EmptyString).
  { exists w. destruct Hs as [Hn He].
    repeat split; try reflexivity; try assumption; [apply incl_refl | now intros _]. }
  rewrite cancelNotification_run by assumption. unfold cancelled.
  destruct (startsWith "native-" h).
  - destruct Hs as (-> & Hav & He). rewrite Hav, replaceFirst_native.
    eexists. split; [reflexivity|].
    repeat split; try reflexivity; [apply incl_refl | exact He | congruence].
  - destruct Hs as [Hn He].
    eexists. split; [reflexivity|].
    repeat split; try reflexivity.
    + simpl. apply incl_filter.
    + rewrite expoLive_after_cancel, He. simpl.
      now rewrite String.eqb_refl.
    + intros _. exact Hn.
Qed.

Lemma expoLive_append alarmId w0 w n :
  scheduled w = scheduled w0 ++ [n] ->
  expoLive alarmId w
  = expoLive alarmId w0 ++ (if ofAlarm alarmId n then [identifier n] else []).
Proof.
  unfold expoLive. intros ->. rewrite List.filter_app, List.map_app. simpl.
  now destruct (ofAlarm alarmId n).
Qed.

Lemma withHandle_consistent alarm h w :
  h <> EmptyString ->
  liveHandles (id alarm) w = [h] ->
  (startsWith "native-" h = true ->
   h = "native-" +:+ id alarm /\ AlarmModule.isAvailable w = true) ->
  recordConsistent (withHandle (Some h) alarm) w.
Proof.
  intros Hne Hlive Hshape. split.
  - unfold handlesNamed. simpl.
    destruct (String.eqb_spec h EmptyString); [congruence | exact Hlive].
  - simpl. intros h' [= <-]. exact Hshape.
Qed.

(** One call of [scheduleAlarmNotification] on a consistent record, with
    the notification permission granted and no call rejected: it answers a
    handle, which is then the only live handle of the id, and the record
    with that handle stored is consistent again. *)
Lemma schedule_once alarm w :
  noRejection w -> notificationsGranted w = true ->
  identifiersFromLibrary w -> recordConsistent alarm w ->
  exists h w',
    notificationService.scheduleAlarmNotification alarm w = (Ok (Some h), w')
    /\ liveHandles (id alarm) w' = [h]
    /\ noRejection w' /\ notificationsGranted w' = true
    /\ identifiersFromLibrary w'
    /\ recordConsistent (withHandle (Some h) alarm) w'.
Proof.
  intros H Hg Hlib Hc.
  unfold notificationService.scheduleAlarmNotification, tryCatch.
  destruct (requestPermissions_granted w H Hg) as (w1 & E1 & T1).
  unfold bind at 1. rewrite E1. cbn [negb].
  assert (H1 : noRejection w1) by (eapply noRejection_device; [apply T1 | exact H]).
  destruct (requestExactAlarmPermission_ok w1 H1) as (b & w2 & E2 & T2).
  unfold bind at 1. rewrite E2.
  pose proof (onlyTicked_trans _ _ _ T1 T2) as T.
  destruct T as [(Td & Tc & Tm & Ts & Tn & Tg & _) Tt].
  assert (H2 : noRejection w2) by (eapply noRejection_device; [exact Td | exact H]).
  assert (Hlib2 : identifiersFromLibrary w2)
    by (unfold identifiersFromLibrary; rewrite Ts; exact Hlib).
  assert (Hc2 : recordConsistent alarm w2).
  { destruct Hc as [Hl Hsh]. split.
    - unfold liveHandles, nativeLive, expoLive in *. now rewrite Tm, Ts.
    - intros h Hh Hn. destruct (Hsh h Hh Hn) as [-> Hav]. split; [reflexivity|].
      now rewrite (isAvailable_device w w2). }
  destruct (cancel_clears alarm w2 H2 Hlib2 Hc2)
    as (w3 & E3 & Cd & Cc & Cg & Cs & Ce & Cn).
  unfold bind at 1. rewrite E3.
  assert (H3 : noRejection w3) by (eapply noRejection_device; [exact Cd | exact H2]).
  assert (Hlib3 : identifiersFromLibrary w3)
    by (intros n Hn; apply Hlib2, Cs, Hn).
  unfold bind at 1, get.
  destruct (AlarmModule.isAvailable w3) eqn:Hav.
  - (* the native module arms, replacing the timer of this request code *)
    unfold bind at 1. rewrite scheduleNativeAlarm_run by assumption.
    unfold ret.
    set (w4 := set_alarmManager _ _).
    assert (Hlive : liveHandles (id alarm) w4 = ["native-" +:+ id alarm]).
    { unfold liveHandles, nativeLive. unfold w4 at 1. simpl.
      rewrite lookup_insert_eq. simpl. rewrite String.eqb_refl.
      replace (expoLive (id alarm) w4) with (expoLive (id alarm) w3) by reflexivity.
      now rewrite Ce. }
    exists ("native-" +:+ id alarm), w4.
    split; [reflexivity|]. split; [exact Hlive|].
    split; [eapply noRejection_device; [|exact H3]; reflexivity|].
    split; [unfold w4; simpl; congruence|].
    split; [exact Hlib3|].
    apply withHandle_consistent; [discriminate | exact Hlive |].
    intros _. split; [reflexivity | exact Hav].
  - (* the fallback schedules a notification under a fresh identifier *)
    assert (Hnat : nativeLive (id alarm) w3 = [])
      by (apply Cn; now rewrite <- (isAvailable_device w2 w3)).
    assert (Hexpo : forall t bd l tr,
      exists w4,
        Notifications.scheduleNotificationAsync t bd (id alarm) l false tr w3
        = (Ok (Notifications.identifierOf (nextIdentifier w3)), w4)
        /\ liveHandles (id alarm) w4 = [Notifications.identifierOf (nextIdentifier w3)]
        /\ noRejection w4 /\ notificationsGranted w4 = true
        /\ identifiersFromLibrary w4
        /\ AlarmModule.isAvailable w4 = false).
    { intros t bd l tr. rewrite scheduleNotificationAsync_run by assumption.
      eexists. split; [reflexivity|].
      split.
      { unfold liveHandles.
        erewrite expoLive_append by reflexivity. simpl.
        unfold ofAlarm. simpl. rewrite String.eqb_refl. simpl.
        rewrite Ce.
        replace (nativeLive (id alarm) _) with (nativeLive (id alarm) w3) by reflexivity.
        now rewrite Hnat. }
      split; [eapply noRejection_device; [|exact H3]; reflexivity|].
      split; [simpl; congruence|].
      split; [|exact Hav].
      intros n Hn. simpl in Hn. apply in_app_or in Hn as [Hn|[<-|[]]].
      - now apply Hlib3.
      - apply identifierOf_not_native. }
    destruct (0 <? length (repeatDays alarm))%nat.
    + destruct (Hexpo "Alarm ⏰"%string (orElse (label alarm) "Time to wake up!")
                  (label alarm)
                  (CalendarTrigger (JsDate.getHours (tzOffset (device w3)) (time alarm))
                     (JsDate.getMinutes (tzOffset (device w3)) (time alarm)) true))
        as (w4 & E4 & L4 & N4 & G4 & I4 & A4).
      unfold bind. rewrite E4. unfold ret.
      do 2 eexists. split; [reflexivity|].
      split; [exact L4|]. split; [exact N4|]. split; [exact G4|]. split; [exact I4|].
      apply withHandle_consistent; [apply identifierOf_nonempty | exact L4 |].
      intros Hn. rewrite identifierOf_not_native in Hn. discriminate.
    + destruct (Hexpo "Alarm ⏰"%string (orElse (label alarm) "Time to wake up!")
                  (label alarm)
                  (DateTrigger (oneTimeTrigger (tzOffset (device w3)) (clock w3) (time alarm))))
        as (w4 & E4 & L4 & N4 & G4 & I4 & A4).
      unfold bind. rewrite E4. unfold ret.
      do 2 eexists. split; [reflexivity|].
      split; [exact L4|]. split; [exact N4|]. split; [exact G4|]. split; [exact I4|].
      apply withHandle_consistent; [apply identifierOf_nonempty | exact L4 |].
      intros Hn. rewrite identifierOf_not_native in Hn. discriminate.
Qed.




Lemma cancelled_device h w : device (cancelled h w) = device w.
Proof.
  unfold cancelled. destruct (startsWith _ _); [destruct (AlarmModule.isAvailable w)|];
    reflexivity.
Qed.

(** The answer of the exact-alarm permission check is not consulted: on the
    native module, with the notification permission granted and no call
    rejected, the handle of the alarm is returned whatever the check
    says. *)
Lemma scheduleAlarmNotification_native_arms alarm w :
  noRejection w -> notificationsGranted w = true -> AlarmModule.isAvailable w = true ->
  result (notificationService.scheduleAlarmNotification alarm) w
  = Ok (Some ("native-" +:+ id alarm)).
Proof.
  intros H Hg Hav.
  unfold result, notificationService.scheduleAlarmNotification, tryCatch.
  destruct (requestPermissions_granted w H Hg) as (w1 & E1 & T1).
  unfold bind at 1. rewrite E1. cbn [negb].
  assert (H1 : noRejection w1) by (eapply noRejection_device; [apply T1 | exact H]).
  destruct (requestExactAlarmPermission_ok w1 H1) as (b & w2 & E2 & T2).
  unfold bind at 1. rewrite E2.
  assert (Hd2 : device w2 = device w)
    by (destruct T1 as [(Ha & _) _]; destruct T2 as [(Hb & _) _]; congruence).
  assert (H2 : noRejection w2) by (eapply noRejection_device; eassumption).
  assert (E3 : exists w3,
             (match notificationId alarm with
              | Some existing =>
                  if String.eqb existing EmptyString then ret tt
                  else notificationService.cancelNotification existing
              | None => ret tt
              end) w2 = (Ok tt, w3) /\ device w3 = device w2).
  { destruct (notificationId alarm) as [h|]; [|exists w2; now split].
    destruct (String.eqb h EmptyString); [exists w2; now split|].
    rewrite cancelNotification_run by assumption.
    eexists. split; [reflexivity | apply cancelled_device]. }
  destruct E3 as (w3 & E3 & Hd3).
  unfold bind at 1. rewrite E3.
  assert (H3 : noRejection w3) by (eapply noRejection_device; eassumption).
  unfold bind at 1, get.
  rewrite (isAvailable_device w w3) by congruence. rewrite Hav.
  unfold bind at 1.
  rewrite scheduleNativeAlarm_run;
    [reflexivity | exact H3 | rewrite (isAvailable_device w w3) by congruence; exact Hav].
Qed.

(** The sample alarm is armed, and a handle returned, on a device where the
    permission check answers false and arming is accepted. *)
Example permission_check_not_consulted :
  result (notificationService.scheduleAlarmNotification sampleAlarm)
    (worldOn (mkDevice 0 android true true 33 true false true (fun _ _ => false)) true [])
  = Ok (Some "native-1"%string).
Proof. now apply scheduleAlarmNotification_native_arms. Qed.

End RearmProofs.

Module TextProofs.
Import Ecma TimeFacts DateFacts.

Lemma append_String c s t : String c s +:+ t = String c (s +:+ t).
Proof. reflexivity. Qed.

Lemma append_nil s : EmptyString +:+ s = s.
Proof. reflexivity. Qed.

(** *** JSON text of the repeat days *)

Lemma dayOfName_dayName d : Json.dayOfName (Json.dayName d) = Some d.
Proof. destruct d; reflexivity. Qed.

Lemma parseElements_quoted d rest :
  Json.parseElements (Json.quoted (Json.dayName d) +:+ rest)
  = match rest with
    | String "," more => ds ← Json.parseElements more; Some (d :: ds)
    | String "]" EmptyString => Some [d]
    | _ => None
    end.
Proof. destruct d; reflexivity. Qed.

Lemma append_assoc s t u : (s +:+ t) +:+ u = s +:+ (t +:+ u).
Proof. induction s as [|c s IH]; [reflexivity|]. rewrite !append_String. now f_equal. Qed.

Lemma joinComma_more x y l :
  Json.joinComma (x :: y :: l) = x +:+ "," +:+ Json.joinComma (y :: l).
Proof. reflexivity. Qed.

Lemma parseElements_join d ds :
  Json.parseElements
    (Json.joinComma (map (fun d => Json.quoted (Json.dayName d)) (d :: ds)) +:+ "]")
  = Some (d :: ds).
Proof.
  revert d. induction ds as [|d' ds IH]; intros d.
  - change (Json.joinComma (map (fun d => Json.quoted (Json.dayName d)) [d]))
      with (Json.quoted (Json.dayName d)).
    now rewrite parseElements_quoted.
  - pose proof (IH d') as H. rewrite map_cons in H.
    rewrite !map_cons, joinComma_more, !append_assoc.
    rewrite parseElements_quoted, append_String, append_nil, H. reflexivity.
Qed.

Lemma joinComma_head d ds :
  exists tail,
    Json.joinComma (map (fun d => Json.quoted (Json.dayName d)) (d :: ds)) +:+ "]"
    = String Json.dquote tail.
Proof.
  destruct ds as [|d' ds].
  - eexists. simpl. unfold Json.quoted. rewrite append_String. reflexivity.
  - eexists. rewrite !map_cons, joinComma_more. unfold Json.quoted at 1.
    rewrite !append_String. reflexivity.
Qed.

Lemma parse_stringify days : Json.parse (Json.stringify days) = Some days.
Proof.
  destruct days as [|d ds]; [reflexivity|].
  unfold Json.stringify. rewrite append_String, append_nil. unfold Json.parse.
  pose proof (parseElements_join d ds) as Hp.
  destruct (joinComma_head d ds) as (tail & Ht). rewrite Ht in *. exact Hp.
Qed.

(** *** ISO text of the time *)

Lemma digit_cases d :
  0 <= d <= 9 ->
  d = 0 \/ d = 1 \/ d = 2 \/ d = 3 \/ d = 4 \/ d = 5 \/ d = 6 \/ d = 7 \/ d = 8 \/ d = 9.
Proof. lia. Qed.

Lemma digitChar_spec d :
  0 <= d <= 9 ->
  Iso.isDigit (Iso.digitChar d) = true /\ Iso.digitValue (Iso.digitChar d) = d
  /\ Ascii.eqb (Iso.digitChar d) "+" = false /\ Ascii.eqb (Iso.digitChar d) "-" = false.
Proof.
  intros H. destruct (digit_cases d H) as [->|[->|[->|[->|[->|[->|[->|[->|[->| ->]]]]]]]]];
    repeat split; reflexivity.
Qed.

Lemma pow10_pos k : 0 < 10 ^ Z.of_nat k.
Proof. apply Z.pow_pos_nonneg; lia. Qed.

Lemma readDigits_digits k : forall n acc rest,
  0 <= n < 10 ^ Z.of_nat k ->
  Iso.readDigits k acc (Iso.digits k n +:+ rest) = Some (acc * 10 ^ Z.of_nat k + n, rest).
Proof.
  induction k as [|k IH]; intros n acc rest Hn.
  - simpl in *. rewrite append_nil. f_equal. f_equal. lia.
  - cbn [Iso.digits Iso.readDigits]. rewrite append_String.
    rewrite Nat2Z.inj_succ, Z.pow_succ_r in Hn by lia.
    pose proof (pow10_pos k) as Hp.
    set (P := 10 ^ Z.of_nat k) in *.
    assert (Hd : 0 <= n / P <= 9).
    { split; [apply Z.div_pos; lia|].
      assert (n / P < 10) by (apply Z.div_lt_upper_bound; lia). lia. }
    destruct (digitChar_spec _ Hd) as (Hdig & Hval & _).
    rewrite Hdig, Hval.
    rewrite IH by (apply Z.mod_pos_bound; exact Hp).
    f_equal. f_equal.
    rewrite Nat2Z.inj_succ, Z.pow_succ_r by lia. fold P.
    pose proof (Z.div_mod n P ltac:(lia)). nia.
Qed.

Lemma digits_head k n rest :
  0 <= n < 10 ^ Z.of_nat (S k) ->
  exists d tail, 0 <= d <= 9 /\ Iso.digits (S k) n +:+ rest = String (Iso.digitChar d) tail.
Proof.
  intros Hn. rewrite Nat2Z.inj_succ, Z.pow_succ_r in Hn by lia.
  pose proof (pow10_pos k) as Hp.
  exists (n / 10 ^ Z.of_nat k). eexists. split.
  - split; [apply Z.div_pos; lia|].
    assert (n / 10 ^ Z.of_nat k < 10) by (apply Z.div_lt_upper_bound; lia). lia.
  - cbn [Iso.digits]. rewrite append_String. reflexivity.
Qed.

Lemma pow10_4 : 10 ^ Z.of_nat 4 = 10000. Proof. reflexivity. Qed.
Lemma pow10_6 : 10 ^ Z.of_nat 6 = 1000000. Proof. reflexivity. Qed.

Lemma readYear_yearText y rest :
  -999999 <= y <= 999999 ->
  Iso.readYear (Iso.yearText y +:+ rest) = Some (y, rest).
Proof.
  intros Hy. unfold Iso.yearText.
  destruct (Z.leb_spec 0 y) as [H0|H0]; cbn [andb].
  - destruct (Z.leb_spec y 9999) as [H1|H1].
    + pose proof (readDigits_digits 4 y 0 rest ltac:(rewrite pow10_4; lia)) as Hr.
      destruct (digits_head 3 y rest ltac:(rewrite pow10_4; lia)) as (d & tail & Hd & Ht).
      rewrite Ht in *. unfold Iso.readYear.
      destruct (digitChar_spec d Hd) as (_ & _ & -> & ->).
      rewrite Hr, pow10_4. f_equal.
    + destruct (Z.ltb_spec y 0); [lia|].
      rewrite append_String. unfold Iso.readYear.
      change (Ascii.eqb "+" "+") with true. cbv iota.
      rewrite readDigits_digits by (rewrite pow10_6; lia). rewrite pow10_6. f_equal.
  - destruct (Z.ltb_spec y 0); [|lia].
    rewrite append_String. unfold Iso.readYear.
    change (Ascii.eqb "-" "+") with false. change (Ascii.eqb "-" "-") with true. cbv iota.
    rewrite readDigits_digits by (rewrite pow10_6; lia). rewrite pow10_6.
    cbn [mbind option_bind].
    destruct (Z.eqb_spec (0 * 1000000 + - y) 0); [lia|]. f_equal. f_equal. lia.
Qed.

Lemma expect_head c rest : Iso.expect c (String c rest) = Some rest.
Proof. unfold Iso.expect. now rewrite Ascii.eqb_refl. Qed.

Lemma DayWithinYear_range t :
  0 <= DayWithinYear t < 365 + leapDays (YearFromTime t).
Proof.
  unfold DayWithinYear, YearFromTime.
  pose proof (YearFromDay_spec (Day t)) as [H1 H2].
  rewrite DayFromYear_step in H2. unfold DaysInYear, leapDays in *.
  destruct (InLeapYear (YearFromDay (Day t))); lia.
Qed.

Lemma leapDays_cases y : leapDays y = 0 \/ leapDays y = 1.
Proof. unfold leapDays. destruct (InLeapYear y); auto. Qed.

Lemma DateFromTime_range t : 1 <= DateFromTime t <= 31.
Proof.
  unfold DateFromTime, MonthFromTime.
  pose proof (DayWithinYear_range t) as Hd.
  destruct (leapDays_cases (YearFromTime t)) as [E|E]; rewrite E in *;
    set (d := DayWithinYear t) in *; clearbody d;
    unfold monthOfYearDay;
    repeat match goal with
           | |- context [?a <? ?b] => destruct (Z.ltb_spec a b)
           end; simpl; lia.
Qed.

Lemma YearFromTime_range t :
  - Iso.maxTime <= t <= Iso.maxTime -> -999999 <= YearFromTime t <= 999999.
Proof.
  intros Ht. unfold YearFromTime.
  pose proof (YearFromDay_spec (Day t)) as [H1 H2].
  assert (Hday : -100000000 <= Day t <= 100000000).
  { unfold Day, msPerDay, Iso.maxTime in *. Z.div_mod_to_equations. lia. }
  set (y := YearFromDay (Day t)) in *. clearbody y.
  unfold DayFromYear in *. Z.div_mod_to_equations. lia.
Qed.

Lemma MakeTime_fields t :
  MakeTime (HourFromTime t) (MinFromTime t) (SecFromTime t) (msFromTime t)
  = TimeWithinDay t.
Proof.
  unfold MakeTime, HourFromTime, MinFromTime, SecFromTime, msFromTime, TimeWithinDay,
    msPerHour, msPerMinute, msPerSecond, msPerDay.
  Z.div_mod_to_equations. lia.
Qed.

Lemma time_fields_range t :
  0 <= HourFromTime t <= 23 /\ 0 <= MinFromTime t <= 59
  /\ 0 <= SecFromTime t <= 59 /\ 0 <= msFromTime t <= 999.
Proof.
  unfold HourFromTime, MinFromTime, SecFromTime, msFromTime, msPerSecond.
  pose proof (Z.mod_pos_bound (t / msPerHour) 24).
  pose proof (Z.mod_pos_bound (t / msPerMinute) 60).
  pose proof (Z.mod_pos_bound (t / 1000) 60).
  pose proof (Z.mod_pos_bound t 1000). lia.
Qed.

Lemma MakeDate_components t : MakeDate (Day t) (TimeWithinDay t) = t.
Proof.
  unfold MakeDate, Day, TimeWithinDay.
  pose proof (Z.div_mod t msPerDay ltac:(unfold msPerDay; lia)). lia.
Qed.

Lemma pow10_2 : 10 ^ Z.of_nat 2 = 100. Proof. reflexivity. Qed.
Lemma pow10_3 : 10 ^ Z.of_nat 3 = 1000. Proof. reflexivity. Qed.

(** The [Date] constructor reads back what [toISOString] wrote. *)
Lemma parseDate_toISOString t :
  - Iso.maxTime <= t <= Iso.maxTime -> Iso.parseDate (Iso.toISOString t) = Some t.
Proof.
  intros Ht. unfold Iso.toISOString, Iso.parseDate.
  pose proof (YearFromTime_range t Ht) as Hy.
  pose proof (monthOfYearDay_range (leapDays (YearFromTime t)) (DayWithinYear t)) as Hm.
  fold (MonthFromTime t) in Hm.
  pose proof (DateFromTime_range t) as Hd.
  destruct (time_fields_range t) as (Hh & Hmi & Hs & Hms).
  rewrite readYear_yearText by assumption. cbn [mbind option_bind].
  rewrite append_String, expect_head. cbn [mbind option_bind].
  rewrite append_nil, readDigits_digits by (rewrite pow10_2; lia). cbn [mbind option_bind].
  rewrite append_String, expect_head. cbn [mbind option_bind].
  rewrite append_nil, readDigits_digits by (rewrite pow10_2; lia). cbn [mbind option_bind].
  rewrite append_String, expect_head. cbn [mbind option_bind].
  rewrite append_nil, readDigits_digits by (rewrite pow10_2; lia). cbn [mbind option_bind].
  rewrite append_String, expect_head. cbn [mbind option_bind].
  rewrite append_nil, readDigits_digits by (rewrite pow10_2; lia). cbn [mbind option_bind].
  rewrite append_String, expect_head. cbn [mbind option_bind].
  rewrite append_nil, readDigits_digits by (rewrite pow10_2; lia). cbn [mbind option_bind].
  rewrite append_String, expect_head. cbn [mbind option_bind].
  rewrite append_nil, readDigits_digits by (rewrite pow10_3; lia). cbn [mbind option_bind].
  rewrite expect_head. cbn [mbind option_bind].
  rewrite pow10_2, pow10_3, !Z.mul_0_l, !Z.add_0_l.
  change (String.eqb EmptyString EmptyString) with true.
  repeat match goal with
         | |- context [?a <=? ?b] =>
             let H := fresh in destruct (Z.leb_spec a b) as [H|H]; [|lia]
         end.
  cbn [andb].
  replace (MonthFromTime t + 1 - 1) with (MonthFromTime t) by lia.
  rewrite MakeDay_components, MakeTime_fields, MakeDate_components.
  unfold Iso.TimeClip.
  destruct (Z.leb_spec (- Iso.maxTime) t); [|lia].
  destruct (Z.leb_spec t Iso.maxTime); [|lia]. reflexivity.
Qed.

End TextProofs.

Module RoundTripProofs.
Import TextProofs.

(** C10. For an alarm whose time is a valid time value and whose
    [notificationId] is undefined or a non-empty string, [alarmToRow]
    followed by [rowToAlarm] gives the alarm back: id and label verbatim,
    the time through its ISO text, [enabled] through 1/0, [repeatDays]
    through its JSON text. *)
Theorem rowToAlarm_alarmToRow alarm w :
  validTime (time alarm) -> notificationId alarm <> Some EmptyString ->
  alarmStorage.rowToAlarm (alarmStorage.alarmToRow alarm) w = (Ok alarm, w)
  /\ AlarmRow.id (alarmStorage.alarmToRow alarm) = id alarm
  /\ AlarmRow.label (alarmStorage.alarmToRow alarm) = label alarm
  /\ Iso.parseDate (AlarmRow.time (alarmStorage.alarmToRow alarm)) = Some (time alarm)
  /\ (AlarmRow.enabled (alarmStorage.alarmToRow alarm) =? 1) = enabled alarm
  /\ Json.parse (AlarmRow.repeatDays (alarmStorage.alarmToRow alarm)) = Some (repeatDays alarm).
Proof.
  intros Ht Hn.
  assert (Htime : Iso.parseDate (AlarmRow.time (alarmStorage.alarmToRow alarm)) = Some (time alarm))
    by (apply parseDate_toISOString, Ht).
  assert (Hdays : Json.parse (AlarmRow.repeatDays (alarmStorage.alarmToRow alarm))
                  = Some (repeatDays alarm)) by apply parse_stringify.
  assert (Hen : (AlarmRow.enabled (alarmStorage.alarmToRow alarm) =? 1) = enabled alarm)
    by (simpl; now destruct (enabled alarm)).
  repeat split; try assumption; try reflexivity.
  unfold alarmStorage.rowToAlarm. rewrite Htime, Hdays, Hen. unfold ret.
  f_equal. destruct alarm as [i t l e r n]. simpl in *. f_equal.
  destruct n as [h|]; [|reflexivity].
  destruct (String.eqb_spec h EmptyString) as [->|Hne]; [congruence|].
  destruct (String.eqb_spec h EmptyString); [congruence | reflexivity].
Qed.

Lemma rowToAlarm_alarmToRow_witness :
  alarmStorage.rowToAlarm
    (alarmStorage.alarmToRow (mkAlarm "1" 1709210096789 "Wake" true [Mon; Wed] (Some "native-1")))
    firedWorld
  = (Ok (mkAlarm "1" 1709210096789 "Wake" true [Mon; Wed] (Some "native-1")), firedWorld).
Proof.
  refine (proj1 (rowToAlarm_alarmToRow
                   (mkAlarm "1" 1709210096789 "Wake" true [Mon; Wed] (Some "native-1"))
                   firedWorld _ _)).
  - unfold validTime, Iso.maxTime. simpl. lia.
  - discriminate.
Defined.

(** The empty string is the one handle the conversion does not keep. *)
Example emptyHandle_not_kept :
  alarmOfRow (alarmStorage.alarmToRow (mkAlarm "1" 0 "Wake" true [] (Some EmptyString)))
  = Some (mkAlarm "1" 0 "Wake" true [] None).
Proof. reflexivity. Qed.

End RoundTripProofs.

Module Witnesses.
Import CalculatorProofs StoreProofs SnoozeProofs.




End Witnesses.

(** * Further properties of the code *)

Module CalculatorLaws.
Import Ecma JsDate TimeFacts DateFacts ScanFacts NextOccurrenceFacts CalculatorProofs.

(** The loop reads the list of day numbers through [includes] only. *)
Lemma scanDays_ext tz nums1 nums2 n :
  (forall x, includes nums1 x = includes nums2 x) ->
  forall c, scanDays tz nums1 n c = scanDays tz nums2 n c.
Proof.
  intros Hx. induction n as [|n IH]; intros c; simpl; [reflexivity|].
  rewrite Hx, IH. reflexivity.
Qed.

(** The loop returns the first listed weekday it meets. *)
Lemma scanDays_first tz nums n : forall c (i : nat),
  (i < n)%nat ->
  (forall j : nat, (j < i)%nat ->
     includes nums (getDay tz (c + Z.of_nat j * msPerDay)) = false) ->
  includes nums (getDay tz (c + Z.of_nat i * msPerDay)) = true ->
  scanDays tz nums n c = Some (c + Z.of_nat i * msPerDay).
Proof.
  induction n as [|n IH]; intros c i Hi Hbefore Hat; [lia|].
  simpl. destruct i as [|i].
  - simpl in Hat. rewrite Z.add_0_r in Hat. rewrite Hat. f_equal. simpl. lia.
  - pose proof (Hbefore 0%nat ltac:(lia)) as H0. simpl in H0. rewrite Z.add_0_r in H0.
    rewrite H0, setDate_next.
    rewrite (IH (c + msPerDay) i); [f_equal; lia | lia | |].
    + intros j Hj. specialize (Hbefore (S j) ltac:(lia)).
      replace (c + msPerDay + Z.of_nat j * msPerDay)
        with (c + Z.of_nat (S j) * msPerDay) by lia.
      exact Hbefore.
    + replace (c + msPerDay + Z.of_nat i * msPerDay)
        with (c + Z.of_nat (S i) * msPerDay) by lia.
      exact Hat.
Qed.

(** Where the scan of a repeating alarm ends: on the first of the seven
    days from the start candidate whose weekday is listed. *)
Lemma getNextOccurrence_found tz now alarmTime repeatDays :
  repeatDays <> [] ->
  exists k : nat, (k < 7)%nat
    /\ getNextOccurrence tz now alarmTime repeatDays
       = startCandidate tz now alarmTime + Z.of_nat k * msPerDay
    /\ onRepeatDay tz repeatDays
         (startCandidate tz now alarmTime + Z.of_nat k * msPerDay) = true
    /\ forall j : nat, (j < k)%nat ->
         onRepeatDay tz repeatDays
           (startCandidate tz now alarmTime + Z.of_nat j * msPerDay) = false.
Proof.
  intros Hne. unfold getNextOccurrence.
  destruct repeatDays as [|d0 ds]; [congruence|].
  change ((length (d0 :: ds) =? 0)%nat) with false. cbv iota.
  set (rd := d0 :: ds) in *.
  rewrite nextFromDayNumbers_unfold.
  destruct (scanDays_finds tz (sortAsc (map dayMap rd))
              (startCandidate tz now alarmTime) (dayMap d0)) as (r & Hr).
  { apply sortAsc_In, in_map. now left. }
  { apply dayMap_range. }
  rewrite Hr.
  apply scanDays_Some in Hr as (k & Hk & -> & Hin & Hfirst).
  exists k. repeat split; try assumption.
  - now rewrite onRepeatDay_includes.
  - intros j Hj. rewrite onRepeatDay_includes. now apply Hfirst.
Qed.

Lemma startCandidate_within_day tz now alarmTime :
  startCandidate tz now alarmTime <= now + msPerDay.
Proof.
  unfold startCandidate.
  pose proof (getHours_range tz alarmTime) as Hh.
  pose proof (getMinutes_range tz alarmTime) as Hm.
  pose proof (setHours_local tz now (getHours tz alarmTime) (getMinutes tz alarmTime)) as Hl.
  pose proof (MakeTime_bound _ _ Hh Hm) as Hb.
  set (c0 := setHours tz now (getHours tz alarmTime) (getMinutes tz alarmTime) 0 0) in *.
  destruct (Z.leb_spec c0 now); [lia|].
  unfold LocalTime, Day in *. unfold msPerDay in *.
  Z.div_mod_to_equations. lia.
Qed.

Lemma atAlarmTime_add_days tz alarmTime t k :
  atAlarmTime tz alarmTime t -> atAlarmTime tz alarmTime (t + k * msPerDay).
Proof. unfold atAlarmTime. now rewrite local_add_days, timeWithinDay_add_days. Qed.

(** X1. For a repeating alarm the result depends on the stored time only
    through its local hour and minute, and on the list of days only through
    the set of days it holds: order and repetitions do not matter. *)
Theorem getNextOccurrence_hour_minute_day_set tz now alarmTime1 alarmTime2 days1 days2 :
  days1 <> [] -> days2 <> [] ->
  getHours tz alarmTime1 = getHours tz alarmTime2 ->
  getMinutes tz alarmTime1 = getMinutes tz alarmTime2 ->
  (forall d, In d days1 <-> In d days2) ->
  getNextOccurrence tz now alarmTime1 days1 = getNextOccurrence tz now alarmTime2 days2.
Proof.
  intros H1 H2 Hh Hm Hset. unfold getNextOccurrence.
  destruct days1 as [|a1 l1]; [congruence|]. destruct days2 as [|a2 l2]; [congruence|].
  change ((length (a1 :: l1) =? 0)%nat) with false.
  change ((length (a2 :: l2) =? 0)%nat) with false. cbv iota.
  rewrite !nextFromDayNumbers_unfold. unfold startCandidate. rewrite Hh, Hm.
  rewrite (scanDays_ext tz (sortAsc (map dayMap (a1 :: l1)))
             (sortAsc (map dayMap (a2 :: l2)))); [reflexivity|].
  intros x. apply eq_true_iff_eq. rewrite !includes_dayNumbers.
  split; intros (d & Hd & He); exists d; (split; [now apply Hset | assumption]).
Qed.

Lemma getNextOccurrence_hour_minute_day_set_witness :
  getNextOccurrence 0 468000000 25200000 [Mon; Wed]
  = getNextOccurrence 0 468000000 (25200000 + 5 * msPerDay + 59999) [Wed; Mon; Wed].
Proof.
  apply getNextOccurrence_hour_minute_day_set;
    [discriminate | discriminate | reflexivity | reflexivity |].
  intros d. simpl. tauto.
Defined.

(** X2. Until the computed occurrence is due the answer does not move:
    asked again at any instant from [now] up to, but not at, the result,
    a repeating alarm gets the same next occurrence. *)
Theorem getNextOccurrence_stable_until_due tz now now' alarmTime repeatDays :
  repeatDays <> [] ->
  now <= now' < getNextOccurrence tz now alarmTime repeatDays ->
  getNextOccurrence tz now' alarmTime repeatDays
  = getNextOccurrence tz now alarmTime repeatDays.
Proof.
  intros Hne Hrange.
  destruct (getNextOccurrence_found tz now alarmTime repeatDays Hne)
    as (k & Hk & Hr & Hon & Hfirst).
  rewrite Hr in *.
  pose proof (startCandidate_future tz now' alarmTime) as Hfut'.
  pose proof (startCandidate_atAlarmTime tz now' alarmTime) as Hat'.
  pose proof (startCandidate_atAlarmTime tz now alarmTime) as Hat.
  destruct (startCandidate_least tz now alarmTime (startCandidate tz now' alarmTime))
    as (j & Hj); [lia | assumption |].
  destruct (startCandidate_least tz now' alarmTime
              (startCandidate tz now alarmTime + Z.of_nat k * msPerDay))
    as (i & Hi); [lia | now apply atAlarmTime_add_days |].
  set (c := startCandidate tz now alarmTime) in *.
  set (c' := startCandidate tz now' alarmTime) in *.
  assert (Hk' : k = (j + i)%nat) by (unfold msPerDay in *; lia).
  unfold getNextOccurrence.
  destruct repeatDays as [|d0 ds]; [congruence|].
  change ((length (d0 :: ds) =? 0)%nat) with false. cbv iota.
  rewrite nextFromDayNumbers_unfold. fold c'.
  rewrite (scanDays_first tz _ 7 c' i).
  - rewrite Hi. reflexivity.
  - lia.
  - intros m Hm. rewrite <- onRepeatDay_includes.
    replace (c' + Z.of_nat m * msPerDay) with (c + Z.of_nat (j + m) * msPerDay) by lia.
    apply Hfirst. lia.
  - rewrite <- onRepeatDay_includes, <- Hi. exact Hon.
Qed.

Lemma getNextOccurrence_stable_until_due_witness :
  getNextOccurrence 0 500000000 25200000 [Mon; Wed]
  = getNextOccurrence 0 468000000 25200000 [Mon; Wed].
Proof.
  apply getNextOccurrence_stable_until_due; [discriminate|].
  vm_compute. split; [discriminate | reflexivity].
Defined.

(** X3. A repeating alarm is never armed further than seven days ahead,
    and with every weekday selected never further than one day ahead. *)
Theorem getNextOccurrence_within_week tz now alarmTime repeatDays :
  repeatDays <> [] ->
  now < getNextOccurrence tz now alarmTime repeatDays <= now + 7 * msPerDay
  /\ ((forall d, In d repeatDays) ->
      getNextOccurrence tz now alarmTime repeatDays <= now + msPerDay).
Proof.
  intros Hne.
  destruct (getNextOccurrence_found tz now alarmTime repeatDays Hne)
    as (k & Hk & Hr & Hon & Hfirst).
  pose proof (startCandidate_future tz now alarmTime) as Hfut.
  pose proof (startCandidate_within_day tz now alarmTime) as Hday.
  rewrite Hr. split; [unfold msPerDay in *; lia|].
  intros Hall.
  destruct k as [|k]; [unfold msPerDay in *; lia|].
  specialize (Hfirst 0%nat ltac:(lia)). simpl in Hfirst. rewrite Z.add_0_r in Hfirst.
  exfalso. unfold onRepeatDay in Hfirst.
  pose proof (getDay_range tz (startCandidate tz now alarmTime)) as Hg.
  set (g := getDay tz (startCandidate tz now alarmTime)) in *.
  assert (Hx : exists d, dayMap d = g).
  { assert (g = 0 \/ g = 1 \/ g = 2 \/ g = 3 \/ g = 4 \/ g = 5 \/ g = 6) as Hc by lia.
    destruct Hc as [E|[E|[E|[E|[E|[E|E]]]]]]; rewrite E;
      [exists Sun | exists Mon | exists Tue | exists Wed | exists Thu | exists Fri
      | exists Sat]; reflexivity. }
  destruct Hx as (d & Hd).
  assert (existsb (fun d => dayMap d =? g) repeatDays = true).
  { apply existsb_exists. exists d. split; [apply Hall | now apply Z.eqb_eq]. }
  congruence.
Qed.

Lemma getNextOccurrence_within_week_witness :
  getNextOccurrence 0 468000000 25200000 DAYS <= 468000000 + msPerDay.
Proof.
  refine (proj2 (getNextOccurrence_within_week 0 468000000 25200000 DAYS _) _).
  - discriminate.
  - intros []; simpl; tauto.
Defined.

(** X4. The one-time branch answers the stored instant or the stored
    instant plus one day, nothing else; so the trigger is before [now]
    exactly when the stored instant is more than one day old. *)
Theorem oneTimeTrigger_stored_or_next_day tz now alarmTime :
  (oneTimeTrigger tz now alarmTime = alarmTime
   \/ oneTimeTrigger tz now alarmTime = alarmTime + msPerDay)
  /\ (oneTimeTrigger tz now alarmTime < now <-> alarmTime + msPerDay < now)
  /\ getNextOccurrence tz now alarmTime [] = oneTimeTrigger tz now alarmTime.
Proof.
  rewrite oneTimeTrigger_eq, getNextOccurrence_oneTime.
  destruct (Z.ltb_spec alarmTime now); unfold msPerDay; repeat split; try lia; tauto.
Qed.

End CalculatorLaws.

Module StoreLaws.
Import StoreProofs RunFacts DismissProofs DeliveryProofs FrameRules TextProofs.
Local Open Scope js_scope.

Global Instance onlyTicked_preorder : PreOrder onlyTicked.
Proof.
  split.
  - intros w. split; [apply platformUnchanged_refl | reflexivity].
  - intros w1 w2 w3 [A1 A2] [B1 B2].
    split; [eapply platformUnchanged_trans; eassumption | congruence].
Qed.

Lemma onlyTicked_tick w n : onlyTicked w (set_tick n w).
Proof. unfold onlyTicked, platformUnchanged. simpl. tauto. Qed.

Lemma onlyTicked_db w b : onlyTicked w (set_db b w).
Proof. unfold onlyTicked, platformUnchanged. simpl. tauto. Qed.

Ltac read_step :=
  lazymatch goal with
  | |- preservesAt _ (ret _) _ => apply at_ret; typeclasses eauto
  | |- preservesAt _ (throw _) _ => apply at_throw; typeclasses eauto
  | |- preservesAt _ (await _) _ => apply at_await; intros ?; apply onlyTicked_tick
  | |- preservesAt _ (bind get _) _ => apply at_get
  | |- preservesAt _ (bind _ _) _ =>
      apply at_bind; [typeclasses eauto | | intros ? ? _]
  | |- preservesAt _ (tryCatch _ _) _ =>
      apply at_tryCatch; [typeclasses eauto | | intros ? ? _]
  | |- preservesAt _ (if ?b then _ else _) _ => destruct b
  | |- preservesAt _ (match ?x with _ => _ end) _ => destruct x
  end.

Lemma getDatabase_reads : preserves onlyTicked database.getDatabase.
Proof.
  intros w. unfold database.getDatabase. repeat read_step.
  apply at_modify, onlyTicked_db.
Qed.

Lemma mapM_rowToAlarm_reads rows : preserves onlyTicked (mapM alarmStorage.rowToAlarm rows).
Proof.
  intros w. unfold preservesAt. rewrite mapM_rowToAlarm_state. reflexivity.
Qed.

Lemma rowToAlarm_reads row : preserves onlyTicked (alarmStorage.rowToAlarm row).
Proof. intros w. unfold preservesAt. rewrite rowToAlarm_state. reflexivity. Qed.

Lemma getAlarms_reads : preserves onlyTicked alarmStorage.getAlarms.
Proof.
  intros w. unfold alarmStorage.getAlarms.
  read_step; [|read_step].
  read_step; [apply getDatabase_reads|].
  read_step; [read_step|]. read_step. apply mapM_rowToAlarm_reads.
Qed.

Lemma getAlarmById_reads id : preserves onlyTicked (alarmStorage.getAlarmById id).
Proof.
  intros w. unfold alarmStorage.getAlarmById.
  read_step; [|read_step].
  read_step; [apply getDatabase_reads|].
  read_step; [read_step|]. read_step. read_step; [|read_step].
  read_step; [apply rowToAlarm_reads | read_step].
Qed.

(** X5. The five reads of the storage layer never write: whatever they
    answer, and whether or not a call rejects, the table, the armed timers,
    the scheduled notifications and the rest of the platform are as before
    (only the database handle and the count of calls move). *)
Theorem reads_never_write w :
  onlyTicked w (exec alarmStorage.getAlarms w)
  /\ (forall id, onlyTicked w (exec (alarmStorage.getAlarmById id) w))
  /\ (forall like term, onlyTicked w (exec (alarmStorage.findAlarmsByLabel like term) w))
  /\ (forall b, onlyTicked w (exec (alarmStorage.getAlarmsByEnabledState b) w))
  /\ onlyTicked w (exec alarmStorage.getAlarmsCount w).
Proof.
  split; [apply getAlarms_reads|]. split; [intros id; apply getAlarmById_reads|].
  split; [|split].
  - intros like term. change (preservesAt onlyTicked (alarmStorage.findAlarmsByLabel like term) w).
    unfold alarmStorage.findAlarmsByLabel.
    read_step; [|read_step].
    read_step; [apply getDatabase_reads|].
    read_step; [read_step|]. read_step. apply mapM_rowToAlarm_reads.
  - intros b. change (preservesAt onlyTicked (alarmStorage.getAlarmsByEnabledState b) w).
    unfold alarmStorage.getAlarmsByEnabledState.
    read_step; [|read_step].
    read_step; [apply getDatabase_reads|].
    read_step; [read_step|]. read_step. apply mapM_rowToAlarm_reads.
  - change (preservesAt onlyTicked alarmStorage.getAlarmsCount w).
    unfold alarmStorage.getAlarmsCount.
    read_step; [|read_step].
    read_step; [apply getDatabase_reads|].
    read_step; [read_step|]. read_step. read_step.
Qed.

Lemma alarmOfRow_alarmToRow alarm :
  storable alarm -> alarmOfRow (alarmStorage.alarmToRow alarm) = Some alarm.
Proof.
  intros [Ht Hn]. unfold alarmOfRow. cbn [alarmStorage.alarmToRow AlarmRow.time AlarmRow.repeatDays
    AlarmRow.id AlarmRow.label AlarmRow.enabled AlarmRow.notificationId].
  rewrite parseDate_toISOString by exact Ht. cbn [mbind option_bind].
  rewrite parse_stringify. cbn [mbind option_bind].
  destruct alarm as [i t l e r n]. cbn [id time label enabled repeatDays notificationId] in *.
  f_equal. f_equal.
  - now destruct e.
  - destruct n as [h|]; [|reflexivity].
    destruct (String.eqb_spec h EmptyString) as [->|Hne]; [congruence|].
    destruct (String.eqb_spec h EmptyString); [congruence | reflexivity].
Qed.

Lemma stepped_opened_table w : alarmsTable (stepped (opened w)) = alarmsTable w.
Proof. unfold stepped. simpl. apply opened_table. Qed.

Lemma stepped_opened_device w : device (stepped (opened w)) = device w.
Proof. unfold stepped. simpl. apply opened_device. Qed.

Lemma platformUnchanged_query w : platformUnchanged w (stepped (opened w)).
Proof.
  eapply platformUnchanged_trans; [apply platformUnchanged_opened|].
  apply platformUnchanged_stepped.
Qed.

(** A write statement that goes through, followed by the [getAlarms] the
    operation returns. *)
Lemma write_then_getAlarms rows w :
  noRejection w ->
  exists l w',
    (modify (set_alarmsTable rows) ;; alarmStorage.getAlarms) w = (Ok l, w')
    /\ alarmsTable w' = rows /\ platformUnchanged w w'.
Proof.
  intros H. unfold bind at 1, modify.
  assert (H2 : noRejection (set_alarmsTable rows w))
    by (eapply noRejection_device; [|exact H]; reflexivity).
  destruct (getAlarms_run _ H2) as (l & Hl). rewrite Hl.
  exists l. eexists. split; [reflexivity|]. split.
  - simpl. now rewrite opened_table.
  - eapply platformUnchanged_trans; [apply platformUnchanged_table|].
    apply platformUnchanged_query.
Qed.

Lemma addAlarm_run alarm w :
  noRejection w -> inTable (id alarm) w = false ->
  exists l w',
    alarmStorage.addAlarm alarm w = (Ok l, w')
    /\ alarmsTable w' = alarmsTable w ++ [alarmStorage.alarmToRow alarm]
    /\ platformUnchanged w w'.
Proof.
  intros H Hfresh. unfold alarmStorage.addAlarm. rewrite tryCatch_rethrow. cbv zeta.
  unfold bind at 1. rewrite getDatabase_run by assumption.
  unfold bind at 1. rewrite await_run by (rewrite opened_device; apply H).
  fold (stepped (opened w)).
  unfold bind at 1, get. rewrite stepped_opened_table.
  change (AlarmRow.id (alarmStorage.alarmToRow alarm)) with (id alarm).
  unfold inTable in Hfresh. rewrite Hfresh.
  assert (H1 : noRejection (stepped (opened w)))
    by (eapply noRejection_device; [apply stepped_opened_device | exact H]).
  destruct (write_then_getAlarms (alarmsTable w ++ [alarmStorage.alarmToRow alarm]) _ H1)
    as (l & w' & Hrun & Htab & Hfr).
  unfold bind at 1 in Hrun. unfold bind at 1.
  destruct (modify _ _) as [[[]|e] w1] eqn:Em; [|discriminate Em].
  rewrite Hrun. exists l, w'. split; [reflexivity|]. split; [exact Htab|].
  eapply platformUnchanged_trans; [apply platformUnchanged_query | exact Hfr].
Qed.

Lemma addAlarm_duplicate_run alarm w :
  noRejection w -> inTable (id alarm) w = true ->
  alarmStorage.addAlarm alarm w = (Throw ConstraintFailed, stepped (opened w)).
Proof.
  intros H Hdup. unfold alarmStorage.addAlarm. rewrite tryCatch_rethrow. cbv zeta.
  unfold bind at 1. rewrite getDatabase_run by assumption.
  unfold bind at 1. rewrite await_run by (rewrite opened_device; apply H).
  fold (stepped (opened w)).
  unfold bind at 1, get. rewrite stepped_opened_table.
  change (AlarmRow.id (alarmStorage.alarmToRow alarm)) with (id alarm).
  unfold inTable in Hdup. rewrite Hdup. reflexivity.
Qed.

Lemma updateAlarm_run alarm w :
  noRejection w ->
  exists l w',
    alarmStorage.updateAlarm alarm w = (Ok l, w')
    /\ alarmsTable w' = Sql.updateRow (alarmStorage.alarmToRow alarm) (alarmsTable w)
    /\ platformUnchanged w w'.
Proof.
  intros H. unfold alarmStorage.updateAlarm. rewrite tryCatch_rethrow. cbv zeta.
  unfold bind at 1. rewrite getDatabase_run by assumption.
  unfold bind at 1. rewrite await_run by (rewrite opened_device; apply H).
  fold (stepped (opened w)).
  unfold bind at 1, get. rewrite stepped_opened_table.
  assert (H1 : noRejection (stepped (opened w)))
    by (eapply noRejection_device; [apply stepped_opened_device | exact H]).
  destruct (write_then_getAlarms
              (Sql.updateRow (alarmStorage.alarmToRow alarm) (alarmsTable w)) _ H1)
    as (l & w' & Hrun & Htab & Hfr).
  rewrite Hrun. exists l, w'. split; [reflexivity|]. split; [exact Htab|].
  eapply platformUnchanged_trans; [apply platformUnchanged_query | exact Hfr].
Qed.

Lemma deleteAlarm_run id w :
  noRejection w ->
  exists l w',
    alarmStorage.deleteAlarm id w = (Ok l, w')
    /\ alarmsTable w' = Sql.deleteRow id (alarmsTable w)
    /\ platformUnchanged w w'.
Proof.
  intros H. unfold alarmStorage.deleteAlarm. rewrite tryCatch_rethrow.
  unfold bind at 1. rewrite getDatabase_run by assumption.
  unfold bind at 1. rewrite await_run by (rewrite opened_device; apply H).
  fold (stepped (opened w)).
  unfold bind at 1, get. rewrite stepped_opened_table.
  assert (H1 : noRejection (stepped (opened w)))
    by (eapply noRejection_device; [apply stepped_opened_device | exact H]).
  destruct (write_then_getAlarms (Sql.deleteRow id (alarmsTable w)) _ H1)
    as (l & w' & Hrun & Htab & Hfr).
  rewrite Hrun. exists l, w'. split; [reflexivity|]. split; [exact Htab|].
  eapply platformUnchanged_trans; [apply platformUnchanged_query | exact Hfr].
Qed.

Lemma clearAllAlarms_run w :
  noRejection w ->
  alarmStorage.clearAllAlarms w = (Ok tt, set_alarmsTable [] (stepped (opened w))).
Proof.
  intros H. unfold alarmStorage.clearAllAlarms. rewrite tryCatch_rethrow.
  unfold bind at 1. rewrite getDatabase_run by assumption.
  unfold bind at 1. rewrite await_run by (rewrite opened_device; apply H).
  reflexivity.
Qed.

Lemma getAlarmById_absent_run id w :
  noRejection w -> inTable id w = false ->
  alarmStorage.getAlarmById id w = (Ok None, stepped (opened w)).
Proof.
  intros H Habs. unfold alarmStorage.getAlarmById, tryCatch.
  unfold bind at 1. rewrite getDatabase_run by assumption.
  unfold bind at 1. rewrite await_run by (rewrite opened_device; apply H).
  fold (stepped (opened w)).
  unfold bind at 1, get. rewrite stepped_opened_table.
  rewrite (inTable_find id w Habs). reflexivity.
Qed.

Lemma find_app_fresh id rows row :
  existsb (Sql.hasId id) rows = false -> Sql.hasId id row = true ->
  find (Sql.hasId id) (rows ++ [row]) = Some row.
Proof.
  induction rows as [|r rs IH]; simpl; intros Hf Hr.
  - now rewrite Hr.
  - destruct (Sql.hasId id r); simpl in *; [discriminate | now apply IH].
Qed.

Lemma find_app_other id rows row :
  Sql.hasId id row = false ->
  find (Sql.hasId id) (rows ++ [row]) = find (Sql.hasId id) rows.
Proof.
  intros Hr. induction rows as [|r rs IH]; simpl.
  - now rewrite Hr.
  - destruct (Sql.hasId id r); [reflexivity | exact IH].
Qed.

Lemma hasId_refl row : Sql.hasId (AlarmRow.id row) row = true.
Proof. unfold Sql.hasId. apply String.eqb_refl. Qed.

Lemma hasId_other id id' row : AlarmRow.id row = id -> id' <> id -> Sql.hasId id' row = false.
Proof. unfold Sql.hasId. intros -> Hne. apply String.eqb_neq. congruence. Qed.

(** X6. Insert and look up: adding a storable alarm under an id the table
    does not hold succeeds, appends one row, and [getAlarmById] on that id
    then answers the alarm itself; the rows of the other ids are as they
    were. *)
Theorem addAlarm_then_getAlarmById alarm w :
  noRejection w -> inTable (id alarm) w = false -> storable alarm ->
  let w' := exec (alarmStorage.addAlarm alarm) w in
  (exists l, result (alarmStorage.addAlarm alarm) w = Ok l)
  /\ alarmsTable w' = alarmsTable w ++ [alarmStorage.alarmToRow alarm]
  /\ result (alarmStorage.getAlarmById (id alarm)) w' = Ok (Some alarm)
  /\ (forall other, other <> id alarm -> rowOf other w' = rowOf other w).
Proof.
  intros H Hfresh Hst w'. subst w'.
  destruct (addAlarm_run alarm w H Hfresh) as (l & w' & Hrun & Htab & Hfr).
  unfold exec, result. rewrite Hrun. cbn [fst snd].
  assert (H' : noRejection w') by (eapply noRejection_device; [apply Hfr | exact H]).
  split; [eauto|]. split; [exact Htab|]. split.
  - rewrite (getAlarmById_run (id alarm) (alarmStorage.alarmToRow alarm) alarm);
      [reflexivity | exact H' | | now apply alarmOfRow_alarmToRow].
    unfold rowOf. rewrite Htab. apply find_app_fresh; [exact Hfresh | apply hasId_refl].
  - intros other Hne. unfold rowOf. rewrite Htab.
    apply find_app_other. now apply hasId_other with (id := id alarm).
Qed.

Lemma addAlarm_then_getAlarmById_witness :
  result (alarmStorage.getAlarmById "7")
    (exec (alarmStorage.addAlarm (mkAlarm "7" 1709210096789 "Gym" true [Sat] None)) firedWorld)
  = Ok (Some (mkAlarm "7" 1709210096789 "Gym" true [Sat] None)).
Proof.
  refine (proj1 (proj2 (proj2 (addAlarm_then_getAlarmById
            (mkAlarm "7" 1709210096789 "Gym" true [Sat] None) firedWorld _ _ _)))).
  - intros n c. reflexivity.
  - reflexivity.
  - split; [unfold validTime, Iso.maxTime; simpl; lia | discriminate].
Defined.

(** X7. The id is the primary key: adding an alarm whose id the table
    already holds is refused with the constraint error, and the table is
    left as it was. *)
Theorem addAlarm_duplicate_id_refused alarm w :
  noRejection w -> inTable (id alarm) w = true ->
  result (alarmStorage.addAlarm alarm) w = Throw ConstraintFailed
  /\ alarmsTable (exec (alarmStorage.addAlarm alarm) w) = alarmsTable w.
Proof.
  intros H Hdup. unfold result, exec. rewrite addAlarm_duplicate_run by assumption.
  split; [reflexivity | apply stepped_opened_table].
Qed.

Lemma addAlarm_duplicate_id_refused_witness :
  result (alarmStorage.addAlarm sampleAlarm) firedWorld = Throw ConstraintFailed.
Proof.
  refine (proj1 (addAlarm_duplicate_id_refused sampleAlarm firedWorld _ _)).
  - intros n c. reflexivity.
  - reflexivity.
Defined.

Lemma existsb_find id rows :
  existsb (Sql.hasId id) rows = false <-> find (Sql.hasId id) rows = None.
Proof.
  induction rows as [|r rs IH]; simpl; [tauto|].
  destruct (Sql.hasId id r); simpl; [split; discriminate | exact IH].
Qed.

Lemma deleteRow_find id rows : find (Sql.hasId id) (Sql.deleteRow id rows) = None.
Proof.
  unfold Sql.deleteRow. induction rows as [|r rs IH]; simpl; [reflexivity|].
  destruct (Sql.hasId id r) eqn:E; simpl; [exact IH | now rewrite E].
Qed.

Lemma deleteRow_find_other id other rows :
  other <> id ->
  find (Sql.hasId other) (Sql.deleteRow id rows) = find (Sql.hasId other) rows.
Proof.
  intros Hne. unfold Sql.deleteRow. induction rows as [|r rs IH]; simpl; [reflexivity|].
  destruct (Sql.hasId id r) eqn:E; simpl.
  - rewrite (hasId_other id other r); [exact IH | | exact Hne].
    unfold Sql.hasId in E. now apply String.eqb_eq in E.
  - now rewrite IH.
Qed.

Lemma deleteRow_absent id rows :
  existsb (Sql.hasId id) rows = false -> Sql.deleteRow id rows = rows.
Proof.
  unfold Sql.deleteRow. induction rows as [|r rs IH]; simpl; [reflexivity|].
  destruct (Sql.hasId id r); simpl; [discriminate | intros Hf; now rewrite IH].
Qed.

(** X8. Delete and look up: after [deleteAlarm id] the table holds no row
    of that id and [getAlarmById id] answers [null]; the rows of the other
    ids are as they were; deleting an id the table does not hold succeeds
    all the same and changes nothing. *)
Theorem deleteAlarm_then_getAlarmById id w :
  noRejection w ->
  let w' := exec (alarmStorage.deleteAlarm id) w in
  (exists l, result (alarmStorage.deleteAlarm id) w = Ok l)
  /\ inTable id w' = false
  /\ result (alarmStorage.getAlarmById id) w' = Ok None
  /\ (forall other, other <> id -> rowOf other w' = rowOf other w)
  /\ (inTable id w = false -> alarmsTable w' = alarmsTable w).
Proof.
  intros H w'. subst w'.
  destruct (deleteAlarm_run id w H) as (l & w' & Hrun & Htab & Hfr).
  unfold exec, result. rewrite Hrun. cbn [fst snd].
  assert (H' : noRejection w') by (eapply noRejection_device; [apply Hfr | exact H]).
  assert (Habs : inTable id w' = false).
  { unfold inTable. rewrite Htab. apply existsb_find, deleteRow_find. }
  split; [eauto|]. split; [exact Habs|]. split; [|split].
  - now rewrite getAlarmById_absent_run.
  - intros other Hne. unfold rowOf. rewrite Htab. now apply deleteRow_find_other.
  - intros Hno. rewrite Htab. now apply deleteRow_absent.
Qed.

Lemma deleteAlarm_then_getAlarmById_witness :
  result (alarmStorage.getAlarmById "1") (exec (alarmStorage.deleteAlarm "1") firedWorld)
  = Ok None.
Proof.
  refine (proj1 (proj2 (proj2 (deleteAlarm_then_getAlarmById "1" firedWorld _)))).
  intros n c. reflexivity.
Defined.

Lemma updateRow_ids new rows : map AlarmRow.id (Sql.updateRow new rows) = map AlarmRow.id rows.
Proof.
  unfold Sql.updateRow. rewrite map_map. apply map_ext_in. intros r _.
  destruct (Sql.hasId (AlarmRow.id new) r) eqn:E; [|reflexivity].
  unfold Sql.hasId in E. apply String.eqb_eq in E. now symmetry.
Qed.

Lemma updateRow_absent new rows :
  existsb (Sql.hasId (AlarmRow.id new)) rows = false -> Sql.updateRow new rows = rows.
Proof.
  unfold Sql.updateRow. induction rows as [|r rs IH]; simpl; [reflexivity|].
  destruct (Sql.hasId (AlarmRow.id new) r); simpl; [discriminate | intros Hf; now rewrite IH].
Qed.

Lemma updateRow_find new rows :
  existsb (Sql.hasId (AlarmRow.id new)) rows = true ->
  find (Sql.hasId (AlarmRow.id new)) (Sql.updateRow new rows) = Some new.
Proof.
  unfold Sql.updateRow. induction rows as [|r rs IH]; simpl; [discriminate|].
  destruct (Sql.hasId (AlarmRow.id new) r) eqn:E; simpl.
  - now rewrite hasId_refl.
  - rewrite E. exact IH.
Qed.

Lemma updateRow_find_other new other rows :
  other <> AlarmRow.id new ->
  find (Sql.hasId other) (Sql.updateRow new rows) = find (Sql.hasId other) rows.
Proof.
  intros Hne. unfold Sql.updateRow. induction rows as [|r rs IH]; simpl; [reflexivity|].
  destruct (Sql.hasId (AlarmRow.id new) r) eqn:E.
  - rewrite (hasId_other (AlarmRow.id new) other new eq_refl Hne).
    rewrite (hasId_other (AlarmRow.id new) other r); [exact IH | | exact Hne].
    unfold Sql.hasId in E. now apply String.eqb_eq in E.
  - now rewrite IH.
Qed.

(** X9. [updateAlarm] writes existing rows only: it never adds or removes
    an id; on an id the table does not hold it succeeds and changes
    nothing; on a stored id the row becomes the one of the updated alarm,
    which [getAlarmById] then answers; the rows of the other ids are as
    they were. *)
Theorem updateAlarm_writes_existing_only alarm w :
  noRejection w ->
  let w' := exec (alarmStorage.updateAlarm alarm) w in
  (exists l, result (alarmStorage.updateAlarm alarm) w = Ok l)
  /\ tableIds w' = tableIds w
  /\ (inTable (id alarm) w = false -> alarmsTable w' = alarmsTable w)
  /\ (inTable (id alarm) w = true -> storable alarm ->
      result (alarmStorage.getAlarmById (id alarm)) w' = Ok (Some alarm))
  /\ (forall other, other <> id alarm -> rowOf other w' = rowOf other w).
Proof.
  intros H w'. subst w'.
  destruct (updateAlarm_run alarm w H) as (l & w' & Hrun & Htab & Hfr).
  unfold exec, result. rewrite Hrun. cbn [fst snd].
  assert (H' : noRejection w') by (eapply noRejection_device; [apply Hfr | exact H]).
  split; [eauto|]. split; [|split; [|split]].
  - unfold tableIds. rewrite Htab. apply updateRow_ids.
  - intros Hno. rewrite Htab. now apply updateRow_absent.
  - intros Hin Hst.
    rewrite (getAlarmById_run (id alarm) (alarmStorage.alarmToRow alarm) alarm);
      [reflexivity | exact H' | | now apply alarmOfRow_alarmToRow].
    unfold rowOf. rewrite Htab.
    now apply (updateRow_find (alarmStorage.alarmToRow alarm)).
  - intros other Hne. unfold rowOf. rewrite Htab.
    now apply (updateRow_find_other (alarmStorage.alarmToRow alarm)).
Qed.

Lemma updateAlarm_writes_existing_only_witness :
  alarmsTable (exec (alarmStorage.updateAlarm
                       (mkAlarm "9" 25200000 "Ghost" true [] None)) firedWorld)
  = alarmsTable firedWorld.
Proof.
  refine (proj1 (proj2 (proj2 (updateAlarm_writes_existing_only
            (mkAlarm "9" 25200000 "Ghost" true [] None) firedWorld _))) _).
  - intros n c. reflexivity.
  - reflexivity.
Defined.

Lemma setEnabled_ids id v rows : map AlarmRow.id (Sql.setEnabled id v rows) = map AlarmRow.id rows.
Proof.
  unfold Sql.setEnabled. rewrite map_map. apply map_ext. intros r.
  now destruct (Sql.hasId id r).
Qed.

Lemma setEnabled_absent id v rows :
  ~ In id (map AlarmRow.id rows) -> Sql.setEnabled id v rows = rows.
Proof.
  unfold Sql.setEnabled. induction rows as [|r rs IH]; simpl; [reflexivity|].
  intros Hn. destruct (Sql.hasId id r) eqn:E.
  - unfold Sql.hasId in E. apply String.eqb_eq in E. tauto.
  - rewrite IH; tauto.
Qed.

Lemma setEnabled_same id row rows :
  List.NoDup (map AlarmRow.id rows) -> find (Sql.hasId id) rows = Some row ->
  Sql.setEnabled id (AlarmRow.enabled row) rows = rows.
Proof.
  induction rows as [|r rs IH]; simpl; [discriminate|].
  intros Hnd Hf. apply List.NoDup_cons_iff in Hnd as [Hnotin Hnd].
  destruct (Sql.hasId id r) eqn:E.
  - injection Hf as <-. f_equal; [now destruct r|].
    apply setEnabled_absent. unfold Sql.hasId in E. apply String.eqb_eq in E. now subst.
  - f_equal. now apply IH.
Qed.

(** X10. Toggling twice is the identity on the table: for a stored row
    with the primary key unique and [enabled] 0 or 1, two [toggleAlarm]
    calls in a row leave every row as it was. *)
Theorem toggleAlarm_twice_restores id row alarm w :
  noRejection w -> primaryKey w ->
  rowOf id w = Some row -> alarmOfRow row = Some alarm ->
  AlarmRow.enabled row = 0 \/ AlarmRow.enabled row = 1 ->
  alarmsTable (exec (_ <- alarmStorage.toggleAlarm id ;; alarmStorage.toggleAlarm id) w)
  = alarmsTable w
  /\ exists l, result (_ <- alarmStorage.toggleAlarm id ;; alarmStorage.toggleAlarm id) w = Ok l.
Proof.
  intros H Hkey Hrow Hal Hen.
  destruct (toggleAlarm_run id row alarm w H Hrow Hal) as (l1 & w1 & Hrun1 & Htab1 & Hfr1).
  assert (H1 : noRejection w1) by (eapply noRejection_device; [apply Hfr1 | exact H]).
  set (v := if enabled alarm then 0 else 1) in *.
  assert (Hrow1 : rowOf id w1 = Some (withEnabled v row)).
  { unfold rowOf in *. now rewrite Htab1, find_setEnabled, Hrow. }
  pose proof (alarmOfRow_withEnabled v row alarm Hal) as Hal1.
  destruct (toggleAlarm_run id _ _ w1 H1 Hrow1 Hal1) as (l2 & w2 & Hrun2 & Htab2 & Hfr2).
  unfold exec, result, bind. rewrite Hrun1, Hrun2. cbn [fst snd].
  split; [|eauto].
  rewrite Htab2, Htab1, setEnabled_twice. cbn [enabled].
  assert (Hv : (if v =? 1 then 0 else 1) = AlarmRow.enabled row).
  { assert (He : enabled alarm = (AlarmRow.enabled row =? 1)).
    { unfold alarmOfRow in Hal.
      destruct (Iso.parseDate _); simpl in Hal; [|discriminate].
      destruct (Json.parse _); simpl in Hal; [|discriminate].
      now injection Hal as <-. }
    unfold v. rewrite He. destruct Hen as [-> | ->]; reflexivity. }
  rewrite Hv. now apply setEnabled_same.
Qed.

Lemma toggleAlarm_twice_restores_witness :
  alarmsTable (exec (_ <- alarmStorage.toggleAlarm "1" ;; alarmStorage.toggleAlarm "1")
                 firedWorld)
  = alarmsTable firedWorld.
Proof.
  refine (proj1 (toggleAlarm_twice_restores "1" oneTimeRow
                   (mkAlarm "1" 25200000 "Wake" true [] (Some "native-1"))
                   firedWorld _ _ _ _ _)).
  - intros n c. reflexivity.
  - repeat constructor. simpl. tauto.
  - reflexivity.
  - reflexivity.
  - right. reflexivity.
Defined.

Global Instance keepsPrimaryKey_preorder : PreOrder keepsPrimaryKey.
Proof. split; unfold keepsPrimaryKey; [intros w; tauto | intros w1 w2 w3; tauto]. Qed.

Lemma onlyTicked_keepsPrimaryKey w w' : onlyTicked w w' -> keepsPrimaryKey w w'.
Proof. intros [_ Ht]. unfold keepsPrimaryKey, primaryKey, tableIds. now rewrite Ht. Qed.

Lemma reads_keep_key {A} (m : M A) : preserves onlyTicked m -> preserves keepsPrimaryKey m.
Proof. intros Hm w. apply onlyTicked_keepsPrimaryKey, Hm. Qed.

Lemma keepsPrimaryKey_ids rows w :
  map AlarmRow.id rows = tableIds w -> keepsPrimaryKey w (set_alarmsTable rows w).
Proof. intros E. unfold keepsPrimaryKey, primaryKey, tableIds in *. simpl. now rewrite E. Qed.

Lemma NoDup_map_filter {A B} (f : A -> B) (p : A -> bool) (l : list A) :
  List.NoDup (map f l) -> List.NoDup (map f (List.filter p l)).
Proof.
  induction l as [|x xs IH]; simpl; [tauto|].
  intros Hnd. apply List.NoDup_cons_iff in Hnd as [Hx Hnd].
  destruct (p x); simpl; [|now apply IH].
  apply List.NoDup_cons_iff. split; [|now apply IH].
  intros Hin. apply Hx. apply in_map_iff in Hin as (y & Hy & Hin).
  apply filter_In in Hin as [Hin _]. apply in_map_iff. eauto.
Qed.

Lemma existsb_hasId_In id rows :
  existsb (Sql.hasId id) rows = false -> ~ In id (map AlarmRow.id rows).
Proof.
  intros Hf Hin. apply in_map_iff in Hin as (r & Hr & Hin).
  assert (existsb (Sql.hasId id) rows = true); [|congruence].
  apply existsb_exists. exists r. split; [exact Hin|].
  unfold Sql.hasId. now apply String.eqb_eq.
Qed.

Lemma NoDup_snoc {A} (l : list A) (x : A) : List.NoDup l -> ~ In x l -> List.NoDup (l ++ [x]).
Proof.
  induction l as [|y ys IH]; simpl; intros Hnd Hx.
  - repeat constructor. simpl. tauto.
  - apply List.NoDup_cons_iff in Hnd as [Hy Hnd]. apply List.NoDup_cons_iff. split.
    + rewrite in_app_iff. simpl. intros [Hin|[->|[]]]; tauto.
    + apply IH; tauto.
Qed.

Ltac key_step :=
  lazymatch goal with
  | |- preservesAt _ (ret _) _ => apply at_ret; typeclasses eauto
  | |- preservesAt _ (throw _) _ => apply at_throw; typeclasses eauto
  | |- preservesAt _ (await _) _ =>
      apply at_await; intros ?; apply onlyTicked_keepsPrimaryKey, onlyTicked_tick
  | |- preservesAt _ database.getDatabase _ => apply (reads_keep_key _ getDatabase_reads)
  | |- preservesAt _ alarmStorage.getAlarms _ => apply (reads_keep_key _ getAlarms_reads)
  | |- preservesAt _ (alarmStorage.getAlarmById _) _ =>
      apply (reads_keep_key _ (getAlarmById_reads _))
  | |- preservesAt _ (bind get _) _ => apply at_get
  | |- preservesAt _ (bind _ _) _ =>
      apply at_bind; [typeclasses eauto | | intros ? ? _]
  | |- preservesAt _ (tryCatch _ _) _ =>
      apply at_tryCatch; [typeclasses eauto | | intros ? ? _]
  end.

Lemma write_keeps_key op : preserves keepsPrimaryKey (write op).
Proof.
  intros w. destruct op as [alarm|alarm|id|id|]; unfold write.
  - unfold alarmStorage.addAlarm. cbv zeta. repeat key_step.
    destruct (existsb _ _) eqn:E; [key_step|].
    apply at_modify. unfold keepsPrimaryKey, primaryKey, tableIds. simpl.
    intros Hnd. rewrite map_app. apply NoDup_snoc; [exact Hnd|].
    now apply existsb_hasId_In.
  - unfold alarmStorage.updateAlarm. cbv zeta. repeat key_step.
    apply at_modify, keepsPrimaryKey_ids, updateRow_ids.
  - unfold alarmStorage.deleteAlarm. repeat key_step.
    apply at_modify. unfold keepsPrimaryKey, primaryKey, tableIds. simpl.
    apply NoDup_map_filter.
  - unfold alarmStorage.toggleAlarm. repeat key_step.
    match goal with |- preservesAt _ (match ?x with _ => _ end) _ => destruct x end;
      repeat key_step.
    apply at_modify, keepsPrimaryKey_ids, setEnabled_ids.
  - unfold alarmStorage.clearAllAlarms. repeat key_step.
    apply at_modify. unfold keepsPrimaryKey, primaryKey, tableIds. simpl. constructor.
Qed.

(** X11. The primary key is an invariant of the storage layer: from a
    table whose ids are pairwise distinct, any sequence of add, update,
    delete, toggle and clear calls, each going through or failing at
    whatever call rejects, ends in a table whose ids are pairwise
    distinct. *)
Theorem writes_keep_primary_key ops w :
  primaryKey w -> primaryKey (exec (writes ops) w).
Proof.
  revert w. induction ops as [|op ops IH]; intros w Hkey; [exact Hkey|].
  unfold exec in *. cbn [writes]. unfold bind.
  assert (Hop : preservesAt keepsPrimaryKey (tryCatch (write op) (fun _ => ret tt)) w).
  { key_step; [apply write_keeps_key | key_step]. }
  unfold preservesAt in Hop.
  destruct (tryCatch (write op) (fun _ => ret tt) w) as [[[]|e] w1]; cbn [snd] in *.
  - apply IH, Hop, Hkey.
  - apply Hop, Hkey.
Qed.

Lemma writes_keep_primary_key_witness :
  primaryKey
    (exec (writes [AddAlarm sampleAlarm; ToggleAlarm "1"; AddAlarm sampleAlarm;
                   DeleteAlarm "3"]) firedWorld).
Proof.
  apply writes_keep_primary_key. repeat constructor. simpl. tauto.
Defined.

(** X12. The database handle is kept from the moment the database opens:
    when the open call goes through and the schema statement rejects,
    [getDatabase] throws, yet the handle stays set, so the next call hands
    it out without opening or running the schema again; when the open call
    itself rejects no handle is kept and the next call opens again. *)
Theorem getDatabase_handle_outlives_schema_failure w :
  db w = false ->
  (rejects (device w) (tick w) OpenDatabase = false ->
   rejects (device w) (S (tick w)) ExecSchema = true ->
   result database.getDatabase w = Throw (Rejected ExecSchema)
   /\ db (exec database.getDatabase w) = true
   /\ database.getDatabase (exec database.getDatabase w)
      = (Ok tt, exec database.getDatabase w))
  /\ (rejects (device w) (tick w) OpenDatabase = true ->
      result database.getDatabase w = Throw (Rejected OpenDatabase)
      /\ db (exec database.getDatabase w) = false).
Proof.
  intros Hdb. split.
  - intros Hopen Hschema.
    assert (E : database.getDatabase w
                = (Throw (Rejected ExecSchema),
                   set_tick (S (S (tick w))) (set_db true w))).
    { unfold database.getDatabase. js_unfold. rewrite Hdb. simpl.
      rewrite Hopen. simpl. rewrite Hschema. reflexivity. }
    unfold result, exec. rewrite E. cbn [fst snd]. repeat split.
  - intros Hopen.
    assert (E : database.getDatabase w
                = (Throw (Rejected OpenDatabase), set_tick (S (tick w)) w)).
    { unfold database.getDatabase. js_unfold. rewrite Hdb. simpl.
      rewrite Hopen. reflexivity. }
    unfold result, exec. rewrite E. cbn [fst snd]. split; [reflexivity | exact Hdb].
Qed.

Lemma getDatabase_handle_outlives_schema_failure_witness :
  result database.getDatabase closedWorld = Throw (Rejected ExecSchema)
  /\ db (exec database.getDatabase closedWorld) = true
  /\ database.getDatabase (exec database.getDatabase closedWorld)
     = (Ok tt, exec database.getDatabase closedWorld).
Proof.
  refine (proj1 (getDatabase_handle_outlives_schema_failure closedWorld _) _ _);
    reflexivity.
Defined.

End StoreLaws.

Module IsoOrder.
Import Ecma TimeFacts DateFacts TextProofs.

Lemma digit_enum a : 0 <= a <= 9 ->
  a = 0 \/ a = 1 \/ a = 2 \/ a = 3 \/ a = 4 \/ a = 5 \/ a = 6 \/ a = 7 \/ a = 8 \/ a = 9.
Proof. lia. Qed.

Lemma compare_digitChar a b :
  0 <= a <= 9 -> 0 <= b <= 9 ->
  Ascii.compare (Iso.digitChar a) (Iso.digitChar b) = (a ?= b).
Proof.
  intros Ha Hb.
  destruct (digit_enum a Ha) as [->|[->|[->|[->|[->|[->|[->|[->|[->| ->]]]]]]]]];
  destruct (digit_enum b Hb) as [->|[->|[->|[->|[->|[->|[->|[->|[->| ->]]]]]]]]];
  reflexivity.
Qed.

Lemma compare_head c s s' : String.compare (String c s) (String c s') = String.compare s s'.
Proof.
  cbn [String.compare]. unfold Ascii.compare. now rewrite N.compare_refl.
Qed.

Lemma compare_sep c s s' :
  String.compare (String c EmptyString +:+ s) (String c EmptyString +:+ s')
  = String.compare s s'.
Proof. rewrite !append_String, !append_nil. apply compare_head. Qed.

Lemma pow10_S k : 10 ^ Z.of_nat (S k) = 10 * 10 ^ Z.of_nat k.
Proof. rewrite Nat2Z.inj_succ, Z.pow_succ_r by lia. reflexivity. Qed.

(** Fixed-width decimal fields compare as the numbers they write. *)
Lemma compare_digits k : forall a b s s',
  0 <= a < 10 ^ Z.of_nat k -> 0 <= b < 10 ^ Z.of_nat k ->
  String.compare (Iso.digits k a +:+ s) (Iso.digits k b +:+ s')
  = lexThen (a ?= b) (String.compare s s').
Proof.
  induction k as [|k IH]; intros a b s s' Ha Hb.
  - change (10 ^ Z.of_nat 0) with 1 in *.
    assert (a = 0) as -> by lia. assert (b = 0) as -> by lia. reflexivity.
  - rewrite pow10_S in Ha, Hb.
    pose proof (pow10_pos k) as Hp.
    set (p := 10 ^ Z.of_nat k) in *.
    cbn [Iso.digits]. fold p. rewrite !append_String. cbn [String.compare].
    assert (Hqa : 0 <= a / p <= 9) by (split; [apply Z.div_pos; lia | apply Z.lt_succ_r, Z.div_lt_upper_bound; lia]).
    assert (Hqb : 0 <= b / p <= 9) by (split; [apply Z.div_pos; lia | apply Z.lt_succ_r, Z.div_lt_upper_bound; lia]).
    rewrite compare_digitChar by assumption.
    pose proof (Z.div_mod a p ltac:(lia)) as Ea.
    pose proof (Z.div_mod b p ltac:(lia)) as Eb.
    pose proof (Z.mod_pos_bound a p Hp) as Ra.
    pose proof (Z.mod_pos_bound b p Hp) as Rb.
    rewrite IH by assumption.
    set (qa := a / p) in *. set (qb := b / p) in *.
    set (ra := a mod p) in *. set (rb := b mod p) in *.
    clearbody qa qb ra rb.
    destruct (Z.compare_spec qa qb) as [E|E|E]; cbn [lexThen].
    + subst qb. destruct (Z.compare_spec ra rb) as [E|E|E]; cbn [lexThen].
      * assert (a = b) as -> by lia. now rewrite Z.compare_refl.
      * assert (a < b) as Hlt by lia. apply Z.compare_lt_iff in Hlt. now rewrite Hlt.
      * assert (b < a) as Hlt by lia. apply Z.compare_gt_iff in Hlt. now rewrite Hlt.
    + assert (a < b) as Hlt by nia. apply Z.compare_lt_iff in Hlt. now rewrite Hlt.
    + assert (b < a) as Hlt by nia. apply Z.compare_gt_iff in Hlt. now rewrite Hlt.
Qed.

Lemma yearText_fourDigit t : fourDigitYear t -> Iso.yearText (YearFromTime t) = Iso.digits 4 (YearFromTime t).
Proof.
  intros [H1 H2]. unfold Iso.yearText.
  destruct (Z.leb_spec 0 (YearFromTime t)); [|lia].
  destruct (Z.leb_spec (YearFromTime t) 9999); [|lia]. reflexivity.
Qed.

(** The ISO texts of two instants of four-digit years compare as their
    fields do, most significant first. *)
Lemma toISOString_compare t1 t2 :
  fourDigitYear t1 -> fourDigitYear t2 ->
  String.compare (Iso.toISOString t1) (Iso.toISOString t2)
  = lexThen (YearFromTime t1 ?= YearFromTime t2)
      (lexThen (MonthFromTime t1 + 1 ?= MonthFromTime t2 + 1)
         (lexThen (DateFromTime t1 ?= DateFromTime t2)
            (lexThen (HourFromTime t1 ?= HourFromTime t2)
               (lexThen (MinFromTime t1 ?= MinFromTime t2)
                  (lexThen (SecFromTime t1 ?= SecFromTime t2)
                     (lexThen (msFromTime t1 ?= msFromTime t2) Eq)))))).
Proof.
  intros Hy1 Hy2. unfold Iso.toISOString.
  rewrite !yearText_fourDigit by assumption.
  pose proof (monthOfYearDay_range (leapDays (YearFromTime t1)) (DayWithinYear t1)) as Hm1.
  pose proof (monthOfYearDay_range (leapDays (YearFromTime t2)) (DayWithinYear t2)) as Hm2.
  fold (MonthFromTime t1) in Hm1. fold (MonthFromTime t2) in Hm2.
  pose proof (DateFromTime_range t1) as Hd1. pose proof (DateFromTime_range t2) as Hd2.
  destruct (time_fields_range t1) as (Hh1 & Hmi1 & Hs1 & Hms1).
  destruct (time_fields_range t2) as (Hh2 & Hmi2 & Hs2 & Hms2).
  unfold fourDigitYear in *.
  rewrite compare_digits by (rewrite pow10_4; lia). f_equal. rewrite compare_sep.
  rewrite compare_digits by (rewrite pow10_2; lia). f_equal. rewrite compare_sep.
  rewrite compare_digits by (rewrite pow10_2; lia). f_equal. rewrite compare_sep.
  rewrite compare_digits by (rewrite pow10_2; lia). f_equal. rewrite compare_sep.
  rewrite compare_digits by (rewrite pow10_2; lia). f_equal. rewrite compare_sep.
  rewrite compare_digits by (rewrite pow10_2; lia). f_equal. rewrite compare_sep.
  rewrite compare_digits by (rewrite pow10_3; lia). reflexivity.
Qed.

Lemma DayFromYear_mono y1 y2 : y1 <= y2 -> DayFromYear y1 <= DayFromYear y2.
Proof. intros H. unfold DayFromYear. Z.div_mod_to_equations. lia. Qed.

Lemma YearFromTime_mono t1 t2 : Day t1 <= Day t2 -> YearFromTime t1 <= YearFromTime t2.
Proof.
  intros H. unfold YearFromTime.
  pose proof (YearFromDay_spec (Day t1)) as [L1 U1].
  pose proof (YearFromDay_spec (Day t2)) as [L2 U2].
  destruct (Z.le_gt_cases (YearFromDay (Day t1)) (YearFromDay (Day t2))) as [|Hgt];
    [assumption|].
  pose proof (DayFromYear_mono (YearFromDay (Day t2) + 1) (YearFromDay (Day t1))
                ltac:(lia)). lia.
Qed.

Lemma monthOfYearDay_mono leap d1 d2 :
  d1 <= d2 -> monthOfYearDay leap d1 <= monthOfYearDay leap d2.
Proof.
  intros H. unfold monthOfYearDay.
  repeat match goal with |- context [?a <? ?b] => destruct (Z.ltb_spec a b) end; lia.
Qed.

Lemma lexThen_Lt c rest : c = Lt \/ (c = Eq /\ rest = Lt) -> lexThen c rest = Lt.
Proof. intros [->|[-> ->]]; reflexivity. Qed.

(** A later instant has the later fields, most significant first. *)
Lemma fields_increase t1 t2 :
  t1 < t2 ->
  lexThen (YearFromTime t1 ?= YearFromTime t2)
    (lexThen (MonthFromTime t1 + 1 ?= MonthFromTime t2 + 1)
       (lexThen (DateFromTime t1 ?= DateFromTime t2)
          (lexThen (HourFromTime t1 ?= HourFromTime t2)
             (lexThen (MinFromTime t1 ?= MinFromTime t2)
                (lexThen (SecFromTime t1 ?= SecFromTime t2)
                   (lexThen (msFromTime t1 ?= msFromTime t2) Eq))))))
  = Lt.
Proof.
  intros Hlt.
  assert (Hday : Day t1 <= Day t2)
    by (unfold Day; apply Z.div_le_mono; unfold msPerDay; lia).
  pose proof (YearFromTime_mono t1 t2 Hday) as Hy.
  apply lexThen_Lt.
  destruct (Z.compare_spec (YearFromTime t1) (YearFromTime t2)) as [Ey|Ey|Ey];
    [right; split; [reflexivity|] | now left | lia].
  assert (Hdy : DayWithinYear t1 <= DayWithinYear t2)
    by (unfold DayWithinYear; rewrite Ey; lia).
  assert (Hm : MonthFromTime t1 <= MonthFromTime t2)
    by (unfold MonthFromTime; rewrite Ey; now apply monthOfYearDay_mono).
  apply lexThen_Lt.
  destruct (Z.compare_spec (MonthFromTime t1 + 1) (MonthFromTime t2 + 1)) as [Em|Em|Em];
    [right; split; [reflexivity|] | now left | lia].
  assert (Em' : MonthFromTime t1 = MonthFromTime t2) by lia.
  assert (Hd : DateFromTime t1 <= DateFromTime t2)
    by (unfold DateFromTime; rewrite Ey, Em'; lia).
  apply lexThen_Lt.
  destruct (Z.compare_spec (DateFromTime t1) (DateFromTime t2)) as [Ed|Ed|Ed];
    [right; split; [reflexivity|] | now left | lia].
  assert (Eday : Day t1 = Day t2).
  { unfold DateFromTime in Ed. rewrite Ey, Em' in Ed. unfold DayWithinYear in Ed.
    rewrite Ey in Ed. lia. }
  assert (Hw : TimeWithinDay t1 < TimeWithinDay t2).
  { pose proof (MakeDate_components t1) as E1. pose proof (MakeDate_components t2) as E2.
    unfold MakeDate in *. rewrite Eday in E1. lia. }
  rewrite <- (MakeTime_fields t1), <- (MakeTime_fields t2) in Hw.
  destruct (time_fields_range t1) as (Hh1 & Hmi1 & Hs1 & Hms1).
  destruct (time_fields_range t2) as (Hh2 & Hmi2 & Hs2 & Hms2).
  unfold MakeTime, msPerHour, msPerMinute, msPerSecond in Hw.
  apply lexThen_Lt.
  destruct (Z.compare_spec (HourFromTime t1) (HourFromTime t2)) as [Eh|Eh|Eh];
    [right; split; [reflexivity|] | now left | lia].
  apply lexThen_Lt.
  destruct (Z.compare_spec (MinFromTime t1) (MinFromTime t2)) as [Emi|Emi|Emi];
    [right; split; [reflexivity|] | now left | lia].
  apply lexThen_Lt.
  destruct (Z.compare_spec (SecFromTime t1) (SecFromTime t2)) as [Es|Es|Es];
    [right; split; [reflexivity|] | now left | lia].
  apply lexThen_Lt. left. apply Z.compare_lt_iff. lia.
Qed.

(** The ISO text keeps the order of time: for instants of years 0 to 9999,
    the text of one is at or before the text of the other, byte by byte,
    exactly when the instant is at or before the other. *)
Lemma toISOString_order t1 t2 :
  fourDigitYear t1 -> fourDigitYear t2 ->
  String.leb (Iso.toISOString t1) (Iso.toISOString t2) = (t1 <=? t2).
Proof.
  intros H1 H2. unfold String.leb.
  destruct (Z.compare_spec t1 t2) as [E|E|E].
  - subst t2. destruct (Z.leb_spec t1 t1); [|lia].
    rewrite toISOString_compare by assumption.
    now rewrite !Z.compare_refl.
  - destruct (Z.leb_spec t1 t2); [|lia].
    now rewrite toISOString_compare, fields_increase.
  - destruct (Z.leb_spec t1 t2); [lia|].
    rewrite String.compare_antisym, toISOString_compare, fields_increase by assumption.
    reflexivity.
Qed.

(** Past the year 9999 the text starts with a sign and sorts first. *)
Example toISOString_order_year_10000 :
  String.leb (Iso.toISOString 253402300800000) (Iso.toISOString 0) = true.
Proof. vm_compute. reflexivity. Qed.

End IsoOrder.

Module OrderFacts.

Lemma insertByTime_perm r rows : Permutation (Sql.insertByTime r rows) (r :: rows).
Proof.
  induction rows as [|x xs IH]; simpl; [reflexivity|].
  destruct (String.leb _ _); [reflexivity|].
  rewrite IH. apply perm_swap.
Qed.

Lemma orderByTime_perm rows : Permutation (Sql.orderByTime rows) rows.
Proof.
  unfold Sql.orderByTime. induction rows as [|x xs IH]; simpl; [reflexivity|].
  rewrite insertByTime_perm. now constructor.
Qed.

Section Keyed.
(** [key] reads the [time] column as a number, on the rows of [known], in
    the order of the text. *)
Variable key : AlarmRow.t -> Z.
Variable known : AlarmRow.t -> Prop.
Hypothesis key_order : forall x y, known x -> known y ->
  String.leb (AlarmRow.time x) (AlarmRow.time y) = (key x <=? key y).

Let byKey (x y : AlarmRow.t) : Prop := key x <= key y.

Lemma insertByTime_sorted r rows :
  known r -> Forall known rows ->
  StronglySorted byKey rows -> StronglySorted byKey (Sql.insertByTime r rows).
Proof.
  intros Hr Hk Hs. induction rows as [|x xs IH]; simpl.
  - repeat constructor.
  - apply Forall_cons_iff in Hk as [Hx Hk].
    apply StronglySorted_inv in Hs as [Hs Hall].
    rewrite key_order by assumption.
    destruct (Z.leb_spec (key r) (key x)) as [Hle|Hgt].
    + constructor; [constructor; assumption|].
      constructor; [exact Hle|].
      eapply List.Forall_impl; [|exact Hall]. unfold byKey. intros y Hy. lia.
    + constructor; [now apply IH|].
      eapply Permutation_Forall; [symmetry; apply insertByTime_perm|].
      constructor; [unfold byKey; lia | exact Hall].
Qed.

Lemma orderByTime_sorted rows :
  Forall known rows -> StronglySorted byKey (Sql.orderByTime rows).
Proof.
  unfold Sql.orderByTime. induction rows as [|x xs IH]; simpl; intros Hk.
  - constructor.
  - apply Forall_cons_iff in Hk as [Hx Hk].
    apply insertByTime_sorted; [assumption | | now apply IH].
    eapply Permutation_Forall; [symmetry; apply (orderByTime_perm xs) | exact Hk].
Qed.

End Keyed.

End OrderFacts.

Module ListingProofs.
Import StoreProofs RunFacts TextProofs StoreLaws IsoOrder OrderFacts.
Local Open Scope js_scope.

Lemma timeKey_alarmToRow a :
  storable a -> timeKey (alarmStorage.alarmToRow a) = time a.
Proof.
  intros [Ht _]. unfold timeKey. cbn [alarmStorage.alarmToRow AlarmRow.time].
  now rewrite parseDate_toISOString.
Qed.

Lemma written_order x y :
  written x -> written y ->
  String.leb (AlarmRow.time x) (AlarmRow.time y) = (timeKey x <=? timeKey y).
Proof.
  intros (a & -> & Ha & Hya) (b & -> & Hb & Hyb).
  rewrite !timeKey_alarmToRow by assumption.
  cbn [alarmStorage.alarmToRow AlarmRow.time]. now apply toISOString_order.
Qed.

Lemma written_map alarms :
  Forall storable alarms -> Forall (fun a => fourDigitYear (time a)) alarms ->
  Forall written (map alarmStorage.alarmToRow alarms).
Proof.
  intros Hs Hy. induction alarms as [|a l IH]; simpl; [constructor|].
  apply Forall_cons_iff in Hs as [Ha Hs]. apply Forall_cons_iff in Hy as [Hya Hy].
  constructor; [exists a; auto | now apply IH].
Qed.

Lemma written_alarms rows :
  Forall written rows ->
  exists l, rows = map alarmStorage.alarmToRow l
    /\ Forall storable l /\ Forall (fun a => fourDigitYear (time a)) l.
Proof.
  induction rows as [|r rs IH]; intros Hw.
  - exists []. repeat split; constructor.
  - apply Forall_cons_iff in Hw as [(a & -> & Ha & Hya) Hw].
    destruct (IH Hw) as (l & -> & Hs & Hy).
    exists (a :: l). repeat split; constructor; assumption.
Qed.

(** Converting written rows gives back the alarms they were written for. *)
Lemma mapM_alarmToRow l w :
  Forall storable l ->
  mapM alarmStorage.rowToAlarm (map alarmStorage.alarmToRow l) w = (Ok l, w).
Proof.
  induction l as [|a l IH]; intros Hs; [reflexivity|].
  apply Forall_cons_iff in Hs as [Ha Hs].
  cbn [mapM map]. unfold bind.
  rewrite (rowToAlarm_alarmOfRow _ a) by now apply alarmOfRow_alarmToRow.
  now rewrite IH.
Qed.

Lemma alarmToRow_inj_map l1 l2 :
  Forall storable l1 -> Forall storable l2 ->
  map alarmStorage.alarmToRow l1 = map alarmStorage.alarmToRow l2 -> l1 = l2.
Proof.
  intros H1 H2 E.
  assert (map alarmOfRow (map alarmStorage.alarmToRow l1)
          = map alarmOfRow (map alarmStorage.alarmToRow l2)) as E' by now rewrite E.
  clear E. revert l2 H2 E'.
  induction H1 as [|a l1 Ha H1 IH]; intros [|b l2] H2 E; simpl in E;
    try discriminate; [reflexivity|].
  apply Forall_cons_iff in H2 as [Hb H2].
  rewrite !alarmOfRow_alarmToRow in E by assumption.
  injection E as -> E. f_equal. now apply IH.
Qed.

Lemma sorted_by_time l :
  Forall storable l ->
  StronglySorted (fun x y => timeKey x <= timeKey y) (map alarmStorage.alarmToRow l) ->
  StronglySorted (fun a b => time a <= time b) l.
Proof.
  intros Hs. induction l as [|a l IH]; simpl; intros Hsorted; [constructor|].
  apply Forall_cons_iff in Hs as [Ha Hs].
  apply StronglySorted_inv in Hsorted as [Hsorted Hall].
  constructor; [now apply IH|].
  rewrite List.Forall_forall in *. intros b Hb.
  specialize (Hall (alarmStorage.alarmToRow b) (in_map _ _ _ Hb)).
  rewrite !timeKey_alarmToRow in Hall; auto.
Qed.

(** The run of a listing read, whatever rows its query selects. *)
Lemma listing_run (select : list AlarmRow.t -> list AlarmRow.t) l w :
  noRejection w ->
  Sql.orderByTime (select (alarmsTable w)) = map alarmStorage.alarmToRow l ->
  Forall storable l ->
  result
    (tryCatch
       (database.getDatabase ;;
        await GetAll ;;
        w <- get ;;
        mapM alarmStorage.rowToAlarm (Sql.orderByTime (select (alarmsTable w))))
       (fun _ => ret [])) w
  = Ok l.
Proof.
  intros H Hrows Hs. unfold result, tryCatch.
  unfold bind at 1. rewrite getDatabase_run by assumption.
  unfold bind at 1. rewrite await_run by (rewrite opened_device; apply H).
  fold (stepped (opened w)). unfold bind at 1, get.
  rewrite stepped_opened_table, Hrows, mapM_alarmToRow by assumption. reflexivity.
Qed.

(** The sorted table, as alarms. *)
Lemma orderByTime_alarms alarms :
  Forall storable alarms -> Forall (fun a => fourDigitYear (time a)) alarms ->
  exists l,
    Sql.orderByTime (map alarmStorage.alarmToRow alarms) = map alarmStorage.alarmToRow l
    /\ Forall storable l /\ Forall (fun a => fourDigitYear (time a)) l
    /\ Permutation l alarms
    /\ StronglySorted (fun a b => time a <= time b) l.
Proof.
  intros Hs Hy.
  pose proof (written_map alarms Hs Hy) as Hw.
  pose proof (orderByTime_perm (map alarmStorage.alarmToRow alarms)) as Hperm.
  assert (Hw' : Forall written (Sql.orderByTime (map alarmStorage.alarmToRow alarms)))
    by (eapply Permutation_Forall; [symmetry; exact Hperm | exact Hw]).
  destruct (written_alarms _ Hw') as (l & Hl & Hsl & Hyl).
  exists l. split; [exact Hl|]. split; [exact Hsl|]. split; [exact Hyl|]. split.
  - rewrite Hl in Hperm.
    apply Permutation_map_inv in Hperm as (l3 & E3 & P3).
    assert (Hs3 : Forall storable l3)
      by (eapply Permutation_Forall; [exact P3 | exact Hs]).
    apply alarmToRow_inj_map in E3; [|assumption|assumption]. subst l3.
    now symmetry.
  - apply sorted_by_time; [exact Hsl|]. rewrite <- Hl.
    apply (orderByTime_sorted timeKey written written_order). exact Hw.
Qed.

(** X13. [getAlarms] lists the stored alarms in the order of time: on a
    table of rows written by [alarmToRow] for alarms of years 0 to 9999, it
    answers every stored alarm once, earliest stored instant first, and
    [getAlarmsCount] answers the length of that list. *)
Theorem getAlarms_chronological alarms w :
  noRejection w -> tableOf alarms w ->
  exists l,
    result alarmStorage.getAlarms w = Ok l
    /\ Permutation l alarms
    /\ StronglySorted (fun a b => time a <= time b) l
    /\ result alarmStorage.getAlarmsCount w = Ok (Z.of_nat (length l)).
Proof.
  intros H (Htab & Hs & Hy).
  destruct (orderByTime_alarms alarms Hs Hy) as (l & Hl & Hsl & Hyl & Hperm & Hsorted).
  exists l. split; [|split; [exact Hperm | split; [exact Hsorted|]]].
  - apply (listing_run (fun rows => rows)); try assumption. now rewrite Htab.
  - unfold alarmStorage.getAlarmsCount, result, tryCatch.
    unfold bind at 1. rewrite getDatabase_run by assumption.
    unfold bind at 1. rewrite await_run by (rewrite opened_device; apply H).
    fold (stepped (opened w)). unfold bind at 1, get. unfold ret. cbn [fst].
    rewrite stepped_opened_table, Htab, length_map.
    now rewrite (Permutation_length Hperm).
Qed.

Lemma filter_alarmToRow (q : AlarmRow.t -> bool) (p : Alarm -> bool) l :
  (forall a, q (alarmStorage.alarmToRow a) = p a) ->
  List.filter q (map alarmStorage.alarmToRow l)
  = map alarmStorage.alarmToRow (List.filter p l).
Proof.
  intros Hqp. induction l as [|a l IH]; simpl; [reflexivity|].
  rewrite Hqp. destruct (p a); simpl; now rewrite IH.
Qed.

Lemma Forall_filter {A} (P : A -> Prop) (p : A -> bool) l :
  Forall P l -> Forall P (List.filter p l).
Proof.
  rewrite !List.Forall_forall. intros H a Ha. apply filter_In in Ha as [Ha _]. auto.
Qed.

(** A listing read whose query selects the rows of the alarms [p] holds
    of. *)
Lemma selecting_run (q : AlarmRow.t -> bool) (p : Alarm -> bool) alarms w :
  noRejection w -> tableOf alarms w ->
  (forall a, q (alarmStorage.alarmToRow a) = p a) ->
  exists l,
    result
      (tryCatch
         (database.getDatabase ;;
          await GetAll ;;
          w <- get ;;
          mapM alarmStorage.rowToAlarm (Sql.orderByTime (List.filter q (alarmsTable w))))
         (fun _ => ret [])) w
    = Ok l
    /\ Permutation l (List.filter p alarms)
    /\ StronglySorted (fun a b => time a <= time b) l.
Proof.
  intros H (Htab & Hs & Hy) Hqp.
  destruct (orderByTime_alarms (List.filter p alarms)
              (Forall_filter _ p _ Hs) (Forall_filter _ p _ Hy))
    as (l & Hl & Hsl & Hyl & Hperm & Hsorted).
  exists l. split; [|split; assumption].
  apply (listing_run (List.filter q)); try assumption.
  now rewrite Htab, (filter_alarmToRow q p).
Qed.

(** X14. The selecting reads answer the alarms they are asked for, in the
    order of time: on a table of written rows,
    [getAlarmsByEnabledState b] answers exactly the stored alarms whose
    [enabled] is [b], and [findAlarmsByLabel] exactly those whose label the
    pattern matches, each once and earliest stored instant first. *)
Theorem selecting_reads_select alarms w :
  noRejection w -> tableOf alarms w ->
  (forall b, exists l,
     result (alarmStorage.getAlarmsByEnabledState b) w = Ok l
     /\ Permutation l (List.filter (fun a => Bool.eqb (enabled a) b) alarms)
     /\ StronglySorted (fun a b => time a <= time b) l)
  /\ (forall sqlLike term, exists l,
        result (alarmStorage.findAlarmsByLabel sqlLike term) w = Ok l
        /\ Permutation l
             (List.filter (fun a => sqlLike ("%" +:+ term +:+ "%") (label a)) alarms)
        /\ StronglySorted (fun a b => time a <= time b) l).
Proof.
  intros H Htab. split.
  - intros b.
    apply (selecting_run (fun row => AlarmRow.enabled row =? (if b then 1 else 0))); try assumption.
    intros a. cbn [alarmStorage.alarmToRow AlarmRow.enabled]. now destruct (enabled a), b.
  - intros sqlLike term.
    apply (selecting_run (fun row => sqlLike ("%" +:+ term +:+ "%") (AlarmRow.label row)));
      try assumption.
    reflexivity.
Qed.

Lemma listedWorld_tableOf : tableOf listedAlarms listedWorld.
Proof.
  split; [reflexivity|]. split.
  - repeat constructor; unfold validTime, Iso.maxTime; simpl; try lia; discriminate.
  - repeat constructor; vm_compute; discriminate.
Qed.

Lemma getAlarms_chronological_witness :
  exists l,
    result alarmStorage.getAlarms listedWorld = Ok l
    /\ Permutation l listedAlarms
    /\ StronglySorted (fun a b => time a <= time b) l
    /\ result alarmStorage.getAlarmsCount listedWorld = Ok (Z.of_nat (length l)).
Proof.
  apply getAlarms_chronological; [intros n c; reflexivity | apply listedWorld_tableOf].
Defined.

Lemma selecting_reads_select_witness :
  exists l,
    result (alarmStorage.getAlarmsByEnabledState true) listedWorld = Ok l
    /\ Permutation l (List.filter (fun a => Bool.eqb (enabled a) true) listedAlarms)
    /\ StronglySorted (fun a b => time a <= time b) l.
Proof.
  refine (proj1 (selecting_reads_select listedAlarms listedWorld _ _) true).
  - intros n c. reflexivity.
  - apply listedWorld_tableOf.
Defined.

(** The listing of the three sample alarms. *)
Example getAlarms_listed :
  result alarmStorage.getAlarms listedWorld
  = Ok [mkAlarm "1" 21600000 "Wake" true [] (Some "native-1");
        mkAlarm "2" 25200000 "Work" false [Mon; Wed] None;
        mkAlarm "3" 1709210096789 "Gym" true [Sat] None].
Proof. vm_compute. reflexivity. Qed.

End ListingProofs.

Module GatewayLaws.
Import Ecma JsDate ScanFacts NextOccurrenceFacts CalculatorProofs CalculatorLaws.
Import StoreProofs RunFacts FrameRules ArmProofs HashFacts SnoozeProofs RearmProofs StoreLaws.
Local Open Scope js_scope.

(** [cancelNotification], in every world: what it leaves behind. *)
Lemma cancelNotification_cases h w :
  notificationService.cancelNotification h w
  = (Ok tt,
     if startsWith "native-" h then
       if AlarmModule.isAvailable w then
         if rejects (device w) (tick w) NativeCancelAlarm then stepped w
         else cancelled h w
       else w
     else
       if rejects (device w) (tick w) CancelScheduledNotification then stepped w
       else cancelled h w).
Proof.
  unfold notificationService.cancelNotification, cancelled, tryCatch.
  destruct (startsWith "native-" h).
  - unfold bind at 1, get. destruct (AlarmModule.isAvailable w) eqn:Hav; [|reflexivity].
    unfold AlarmModule.cancelAlarm, AlarmModuleNative.cancelAlarm. js_unfold.
    rewrite Hav. simpl. destruct (rejects _ _ _); reflexivity.
  - unfold Notifications.cancelScheduledNotificationAsync. js_unfold.
    destruct (rejects _ _ _); reflexivity.
Qed.

(** X15. [cancelNotification] never rejects and touches only what the
    handle names: a handle [native-<id>] removes at most the timer under
    the request code of [<id>] and leaves the scheduled notifications alone
    (on a device without the native module it does nothing at all); any
    other handle leaves the timers alone and removes the notifications of
    that identifier, or nothing when the gateway rejects the call. *)
Theorem cancelNotification_contained h w :
  let w' := exec (notificationService.cancelNotification h) w in
  result (notificationService.cancelNotification h) w = Ok tt
  /\ alarmsTable w' = alarmsTable w
  /\ (startsWith "native-" h = true ->
      scheduled w' = scheduled w
      /\ (AlarmModule.isAvailable w = false -> w' = w)
      /\ forall code, code <> hashCode (replaceFirst "native-" EmptyString h) ->
           alarmManager w' !! code = alarmManager w !! code)
  /\ (startsWith "native-" h = false ->
      alarmManager w' = alarmManager w
      /\ (scheduled w' = scheduled w
          \/ scheduled w'
             = List.filter (fun n => negb (String.eqb (identifier n) h)) (scheduled w))).
Proof.
  intros w'. subst w'. unfold result, exec. rewrite cancelNotification_cases. cbn [fst snd].
  split; [reflexivity|]. unfold cancelled.
  destruct (startsWith "native-" h).
  - destruct (AlarmModule.isAvailable w);
      [destruct (rejects (device w) (tick w) NativeCancelAlarm)|];
      (split; [reflexivity|]); (split; [|intros [=]]);
      (split; [reflexivity|]); (split; [congruence || reflexivity|]);
      intros code Hc; try reflexivity.
    cbn [alarmManager set_alarmManager]. now rewrite lookup_delete_ne.
  - destruct (rejects (device w) (tick w) CancelScheduledNotification);
      (split; [reflexivity|]); (split; [intros [=]|]); intros _;
      (split; [reflexivity|]); [left | right]; reflexivity.
Qed.

Lemma cancelNotification_contained_witness :
  scheduled (exec (notificationService.cancelNotification "native-1") armedWorld)
  = scheduled armedWorld.
Proof.
  destruct (cancelNotification_contained "native-1" armedWorld) as (_ & _ & Hn & _).
  destruct (Hn eq_refl) as (Hs & _). exact Hs.
Defined.

(** X16. [cancelAllNotifications] does not reach the native timers: the
    native [cancelAllAlarms] is a placeholder, so whatever the call
    answers, the AlarmManager holds after it every timer it held before;
    when no call rejects the scheduled notifications are all gone. *)
Theorem cancelAllNotifications_keeps_native_timers w :
  alarmManager (exec notificationService.cancelAllNotifications w) = alarmManager w
  /\ alarmsTable (exec notificationService.cancelAllNotifications w) = alarmsTable w
  /\ (noRejection w ->
      result notificationService.cancelAllNotifications w = Ok tt
      /\ scheduled (exec notificationService.cancelAllNotifications w) = []).
Proof.
  unfold exec, result, notificationService.cancelAllNotifications,
    AlarmModule.cancelAllAlarms, AlarmModuleNative.cancelAllAlarms,
    Notifications.cancelAllScheduledNotificationsAsync.
  js_unfold.
  destruct (AlarmModule.isAvailable w) eqn:Hav; simpl; rewrite ?Hav; simpl.
  - destruct (rejects (device w) (tick w) NativeCancelAllAlarms) eqn:E1; simpl.
    + split; [reflexivity|]. split; [reflexivity|].
      intros H. rewrite H in E1. discriminate.
    + destruct (rejects (device w) (S (tick w)) CancelAllScheduledNotifications) eqn:E2;
        simpl; (split; [reflexivity|]); (split; [reflexivity|]); intros H;
        [rewrite H in E2; discriminate | split; reflexivity].
  - destruct (rejects (device w) (tick w) CancelAllScheduledNotifications) eqn:E2;
      simpl; (split; [reflexivity|]); (split; [reflexivity|]); intros H;
      [rewrite H in E2; discriminate | split; reflexivity].
Qed.

Lemma cancelAllNotifications_keeps_native_timers_witness :
  alarmManager (exec notificationService.cancelAllNotifications armedWorld)
  = alarmManager armedWorld
  /\ scheduled (exec notificationService.cancelAllNotifications armedWorld) = [].
Proof.
  destruct (cancelAllNotifications_keeps_native_timers armedWorld) as (Hm & _ & Hs).
  split; [exact Hm|]. apply Hs. intros n c. reflexivity.
Defined.

Lemma bind_ext_at {A B} (R : World -> World -> Prop) (m : M A) (k1 k2 : A -> M B) w :
  preservesAt R m w -> (forall a w', R w w' -> k1 a w' = k2 a w') ->
  bind m k1 w = bind m k2 w.
Proof.
  unfold preservesAt, bind. intros Hm Hk.
  destruct (m w) as [[a|e] w1]; simpl in *; [now apply Hk | reflexivity].
Qed.

Lemma bind_get {A} (k : World -> M A) w : bind get k w = k w w.
Proof. reflexivity. Qed.

Lemma tryCatch_ext {A} (m1 m2 : M A) h w : m1 w = m2 w -> tryCatch m1 h w = tryCatch m2 h w.
Proof. unfold tryCatch. now intros ->. Qed.

(** X17. On the expo-notifications fallback the selected weekdays do not
    reach the schedule: without the native module, two repeating alarms
    that differ only in their (non-empty) lists of days are scheduled
    alike, answer and world, in every world; the trigger carries hour and
    minute only and repeats. *)
Theorem fallback_repeating_ignores_days i t l e n days1 days2 w :
  AlarmModule.isAvailable w = false -> days1 <> [] -> days2 <> [] ->
  notificationService.scheduleAlarmNotification (mkAlarm i t l e days1 n) w
  = notificationService.scheduleAlarmNotification (mkAlarm i t l e days2 n) w.
Proof.
  intros Hav H1 H2. unfold notificationService.scheduleAlarmNotification.
  apply tryCatch_ext.
  apply (bind_ext_at noNewHandle); [apply requestPermissions_frame|].
  intros hp w1 F1. destruct hp; cbn [negb]; [|reflexivity].
  apply (bind_ext_at noNewHandle); [apply requestExactAlarmPermission_frame|].
  intros _ w2 F2. cbn [notificationId].
  apply (bind_ext_at noNewHandle);
    [apply (cancelExisting_frame (mkAlarm i t l e days1 n))|].
  intros _ w3 F3.
  assert (Hd : device w3 = device w).
  { destruct F1 as (D1 & _), F2 as (D2 & _), F3 as (D3 & _). congruence. }
  rewrite !bind_get, (isAvailable_device w w3 Hd), Hav.
  cbn [repeatDays id label time].
  destruct days1 as [|d1 r1]; [congruence|]. destruct days2 as [|d2 r2]; [congruence|].
  reflexivity.
Qed.

Lemma fallback_repeating_ignores_days_witness :
  notificationService.scheduleAlarmNotification
    (mkAlarm "2" 25200000 "Work" true [Mon] None) (worldOn iosDevice true [])
  = notificationService.scheduleAlarmNotification
      (mkAlarm "2" 25200000 "Work" true [Sat; Sun] None) (worldOn iosDevice true []).
Proof.
  apply fallback_repeating_ignores_days; [reflexivity | discriminate | discriminate].
Defined.

(** What the fallback schedules for a repeating alarm. *)
Example fallback_repeating_trigger :
  scheduled (exec (notificationService.scheduleAlarmNotification
                     (mkAlarm "2" 25200000 "Work" true [Mon] None))
               (worldOn iosDevice true []))
  = [mkNotificationRequest "expo-0" "Alarm ⏰" "Work" "2" "Work" false
       (CalendarTrigger 7 0 true)].
Proof. vm_compute. reflexivity. Qed.

Lemma timerOf_same alarm w w' :
  device w' = device w -> clock w' = clock w -> timerOf alarm w' = timerOf alarm w.
Proof. unfold timerOf. now intros -> ->. Qed.

(** X18. The request code is the hash of the id, so two ids of one hash
    share one timer: arming the second alarm takes the place of the first
    alarm's timer, which is then no longer live, and cancelling the second
    alarm's handle leaves nothing under the code. *)
Theorem colliding_ids_share_timer alarm1 alarm2 w :
  noRejection w -> AlarmModule.isAvailable w = true ->
  hashCode (id alarm1) = hashCode (id alarm2) -> id alarm1 <> id alarm2 ->
  let w1 := exec (notificationService.scheduleNativeAlarm alarm1) w in
  let w2 := exec (notificationService.scheduleNativeAlarm alarm2) w1 in
  let w3 := exec (notificationService.cancelNotification ("native-" +:+ id alarm2)) w2 in
  alarmManager w1 !! hashCode (id alarm1) = Some (timerOf alarm1 w)
  /\ nativeLive (id alarm1) w1 = ["native-" +:+ id alarm1]
  /\ alarmManager w2 !! hashCode (id alarm1) = Some (timerOf alarm2 w)
  /\ nativeLive (id alarm1) w2 = []
  /\ alarmManager w3 !! hashCode (id alarm1) = None.
Proof.
  intros H Hav Hhash Hne w1 w2 w3. subst w1 w2 w3. unfold exec.
  rewrite scheduleNativeAlarm_run by assumption. cbn [snd].
  set (w1 := set_alarmManager _ (stepped w)).
  assert (H1 : noRejection w1) by (eapply noRejection_device; [|exact H]; reflexivity).
  assert (Hav1 : AlarmModule.isAvailable w1 = true)
    by (rewrite (isAvailable_device w w1) by reflexivity; exact Hav).
  rewrite scheduleNativeAlarm_run by assumption. cbn [snd].
  rewrite (timerOf_same alarm2 w w1) by reflexivity.
  set (w2 := set_alarmManager _ (stepped w1)).
  assert (H2 : noRejection w2) by (eapply noRejection_device; [|exact H]; reflexivity).
  rewrite cancelNotification_run by assumption. cbn [snd].
  unfold cancelled. rewrite startsWith_native, replaceFirst_native.
  rewrite (isAvailable_device w w2) by reflexivity. rewrite Hav.
  unfold nativeLive. cbn [alarmManager set_alarmManager w1 w2].
  rewrite <- Hhash. rewrite !lookup_insert_eq, lookup_delete_eq.
  cbn [timerOf intentAlarmId]. rewrite String.eqb_refl.
  destruct (String.eqb_spec (id alarm2) (id alarm1)); [congruence|].
  repeat split.
Qed.

Lemma colliding_ids_share_timer_witness :
  nativeLive "1701000071030"
    (exec (notificationService.scheduleNativeAlarm
             (mkAlarm "1700411400101" 25200000 "Work" true [] None))
       (exec (notificationService.scheduleNativeAlarm
                (mkAlarm "1701000071030" 25200000 "Wake" true [] None)) firedWorld))
  = [].
Proof.
  refine (proj1 (proj2 (proj2 (proj2 (colliding_ids_share_timer
            (mkAlarm "1701000071030" 25200000 "Wake" true [] None)
            (mkAlarm "1700411400101" 25200000 "Work" true [] None) firedWorld _ _ _ _))))).
  - intros n c. reflexivity.
  - reflexivity.
  - vm_compute. reflexivity.
  - discriminate.
Defined.

(** X19. Arm, then disarm: from a consistent record, with the
    notification permission granted and no call rejected,
    [scheduleAlarmNotification] answers a handle, and
    [cancelAlarmNotifications] on the record that stores this handle leaves
    no live handle of the alarm, native timer or scheduled notification. *)
Theorem schedule_then_cancel_leaves_nothing alarm w :
  noRejection w -> notificationsGranted w = true ->
  identifiersFromLibrary w -> recordConsistent alarm w ->
  exists h,
    result (notificationService.scheduleAlarmNotification alarm) w = Ok (Some h)
    /\ liveHandles (id alarm)
         (exec (notificationService.cancelAlarmNotifications (withHandle (Some h) alarm))
            (exec (notificationService.scheduleAlarmNotification alarm) w))
       = [].
Proof.
  intros H Hg Hlib Hc.
  destruct (schedule_once alarm w H Hg Hlib Hc)
    as (h & w' & Hrun & Hlive & H' & Hg' & Hlib' & Hc').
  exists h. unfold result, exec at 2. rewrite Hrun. cbn [fst snd].
  split; [reflexivity|].
  pose proof (recordConsistent_split _ _ Hlib' Hc') as Hs.
  unfold exec, notificationService.cancelAlarmNotifications.
  cbn [withHandle notificationId id] in *.
  destruct (String.eqb h EmptyString) eqn:Eh.
  { destruct Hs as [Hn He]. unfold liveHandles in Hlive.
    rewrite Hn, He in Hlive. discriminate. }
  rewrite cancelNotification_run by assumption. cbn [snd]. unfold cancelled.
  destruct (startsWith "native-" h) eqn:En.
  - destruct Hs as (-> & Hav & He). rewrite Hav, replaceFirst_native.
    unfold liveHandles, nativeLive, expoLive in *.
    cbn [alarmManager set_alarmManager scheduled stepped set_tick].
    rewrite lookup_delete_eq. exact He.
  - destruct Hs as [Hn He]. unfold liveHandles.
    rewrite expoLive_after_cancel, He. cbn [List.filter].
    rewrite String.eqb_refl. cbn [negb app].
    unfold nativeLive in *. cbn [alarmManager set_scheduled stepped set_tick].
    now rewrite Hn.
Qed.

Lemma schedule_then_cancel_leaves_nothing_witness :
  exists h,
    result (notificationService.scheduleAlarmNotification sampleAlarm)
      (worldOn iosDevice true []) = Ok (Some h)
    /\ liveHandles (id sampleAlarm)
         (exec (notificationService.cancelAlarmNotifications
                  (withHandle (Some h) sampleAlarm))
            (exec (notificationService.scheduleAlarmNotification sampleAlarm)
               (worldOn iosDevice true [])))
       = [].
Proof.
  apply schedule_then_cancel_leaves_nothing.
  - intros n c. reflexivity.
  - reflexivity.
  - intros n [].
  - split; [reflexivity | intros h [=]].
Defined.

(** The run of [scheduleAlarmNotification] through the native module. *)
Lemma scheduleAlarmNotification_native_run alarm w :
  noRejection w -> notificationsGranted w = true -> AlarmModule.isAvailable w = true ->
  exists w',
    notificationService.scheduleAlarmNotification alarm w
    = (Ok (Some ("native-" +:+ id alarm)), w')
    /\ alarmManager w' !! hashCode (id alarm) = Some (timerOf alarm w)
    /\ alarmsTable w' = alarmsTable w
    /\ incl (scheduled w') (scheduled w).
Proof.
  intros H Hg Hav.
  unfold notificationService.scheduleAlarmNotification, tryCatch.
  destruct (requestPermissions_granted w H Hg) as (w1 & E1 & T1).
  unfold bind at 1. rewrite E1. cbn [negb].
  assert (H1 : noRejection w1) by (eapply noRejection_device; [apply T1 | exact H]).
  destruct (requestExactAlarmPermission_ok w1 H1) as (b & w2 & E2 & T2).
  unfold bind at 1. rewrite E2.
  pose proof (onlyTicked_trans _ _ _ T1 T2) as [(Td & Tc & Tm & Ts & _) Tt].
  assert (H2 : noRejection w2) by (eapply noRejection_device; eassumption).
  match goal with |- context [bind ?m _ w2] =>
    destruct (m w2) as [o3 w3] eqn:E3;
    pose proof (frame_of _ _ _ _ (cancelExisting_frame alarm) E3) as F3;
    assert (Ho : o3 = Ok tt)
  end.
  { destruct (notificationId alarm) as [h|]; [|now injection E3 as <- _].
    destruct (String.eqb h EmptyString); [now injection E3 as <- _|].
    rewrite cancelNotification_run in E3 by assumption. now injection E3 as <- _. }
  subst o3. destruct F3 as (Fd & Fc & Ft & Fm & Fs).
  unfold bind at 1. rewrite E3.
  assert (H3 : noRejection w3) by (eapply noRejection_device; eassumption).
  rewrite bind_get, (isAvailable_device w w3) by congruence. rewrite Hav.
  unfold bind at 1.
  rewrite scheduleNativeAlarm_run;
    [| exact H3 | rewrite (isAvailable_device w w3) by congruence; exact Hav].
  eexists. split; [reflexivity|].
  cbn [alarmManager set_alarmManager alarmsTable scheduled stepped set_tick].
  rewrite lookup_insert_eq, (timerOf_same alarm w w3) by congruence.
  split; [reflexivity|]. split; [congruence|].
  rewrite <- Ts. exact Fs.
Qed.



Lemma tryCatch_unit (m : M unit) w : exists w', tryCatch m (fun _ => ret tt) w = (Ok tt, w').
Proof. unfold tryCatch, ret. destruct (m w) as [[[]|e] w']; eauto. Qed.

(** X21. Which operations contain a failure and which pass it on. The
    scheduling and cancelling operations of the notification service, the
    handlers of the native events and the buttons of the ringing screen
    never reject, whatever call fails under them: a failure is a [null]
    answer or no answer at all. [requestPermissions],
    [scheduleNativeAlarm] and [cancelAllNotifications] have no [catch]:
    they reject when the permission query rejects, when the native module
    is missing, and when the cancel-all call rejects. *)
Theorem failure_containment w :
  (forall alarm, exists o,
     result (notificationService.scheduleAlarmNotification alarm) w = Ok o)
  /\ (forall t l alarmId, exists o,
        result (notificationService.scheduleSnoozeNotification t l alarmId) w = Ok o)
  /\ (forall alarm, result (notificationService.cancelAlarmNotifications alarm) w = Ok tt)
  /\ (forall eventType alarmId,
        result (alarmEventService.handleAlarmEvent eventType alarmId) w = Ok tt)
  /\ (forall alarmId, result (AlarmRingScreen.handleDismiss alarmId) w = Ok tt)
  /\ (forall l alarmId, result (AlarmRingScreen.handleSnooze l alarmId) w = Ok tt)
  /\ (rejects (device w) (tick w) GetPermissions = true ->
      result notificationService.requestPermissions w = Throw (Rejected GetPermissions))
  /\ (forall alarm, AlarmModule.isAvailable w = false ->
        result (notificationService.scheduleNativeAlarm alarm) w
        = Throw (ErrorMessage "Native alarm module not available"))
  /\ (AlarmModule.isAvailable w = false ->
      rejects (device w) (tick w) CancelAllScheduledNotifications = true ->
      result notificationService.cancelAllNotifications w
      = Throw (Rejected CancelAllScheduledNotifications)).
Proof.
  split; [intros alarm; apply tryCatch_total|].
  split; [intros t l alarmId; apply tryCatch_total|].
  split.
  { intros alarm. unfold notificationService.cancelAlarmNotifications, result.
    destruct (notificationId alarm) as [h|]; [|reflexivity].
    destruct (String.eqb h EmptyString); [reflexivity|].
    now rewrite cancelNotification_cases. }
  split.
  { intros eventType alarmId. unfold alarmEventService.handleAlarmEvent, result.
    destruct (String.eqb eventType "ALARM_DISMISSED").
    - unfold alarmEventService.handleDismiss.
      match goal with |- context [tryCatch ?m _ w] =>
        destruct (tryCatch_unit m w) as (w' & ->) end. reflexivity.
    - destruct (String.eqb eventType "ALARM_SNOOZED"); [|reflexivity].
      unfold alarmEventService.handleSnooze.
      match goal with |- context [tryCatch ?m _ w] =>
        destruct (tryCatch_unit m w) as (w' & ->) end. reflexivity. }
  split.
  { intros alarmId. unfold AlarmRingScreen.handleDismiss, result, bind.
    destruct (String.eqb alarmId EmptyString); [reflexivity|].
    match goal with |- context [tryCatch ?m _ w] =>
      destruct (tryCatch_unit m w) as (w' & ->) end. reflexivity. }
  split.
  { intros l alarmId. unfold AlarmRingScreen.handleSnooze, result.
    rewrite bind_get. unfold bind.
    match goal with |- context [tryCatch ?m _ w] =>
      destruct (tryCatch_unit m w) as (w' & ->) end. reflexivity. }
  split.
  { intros Hrej. unfold notificationService.requestPermissions, result. js_unfold.
    now rewrite Hrej. }
  split.
  { intros alarm Hav. unfold notificationService.scheduleNativeAlarm, result.
    rewrite bind_get, Hav. reflexivity. }
  intros Hav Hrej. unfold notificationService.cancelAllNotifications, result,
    Notifications.cancelAllScheduledNotificationsAsync.
  rewrite bind_get, Hav. js_unfold. now rewrite Hrej.
Qed.

Lemma failure_containment_witness :
  result notificationService.requestPermissions (worldOn noPermissionQueryDevice true [])
  = Throw (Rejected GetPermissions)
  /\ result (notificationService.scheduleAlarmNotification sampleAlarm)
       (worldOn noPermissionQueryDevice true [])
     = Ok None.
Proof.
  destruct (failure_containment (worldOn noPermissionQueryDevice true []))
    as (Hs & _ & _ & _ & _ & _ & Hp & _).
  split; [apply Hp; reflexivity|].
  destruct (Hs sampleAlarm) as (o & Ho). rewrite Ho. revert Ho.
  vm_compute. intros [= <-]. reflexivity.
Defined.

End GatewayLaws.

Module EventLaws.
Import StoreProofs RunFacts FrameRules StoreLaws GatewayLaws.
Local Open Scope js_scope.

Lemma getAlarmById_absent_reads id w :
  inTable id w = false ->
  exists w', alarmStorage.getAlarmById id w = (Ok None, w') /\ onlyTicked w w'.
Proof.
  intros Habs. destruct (getAlarmById_absent id w Habs) as (w' & Hrun).
  exists w'. split; [exact Hrun|].
  pose proof (getAlarmById_reads id w) as Hr. unfold preservesAt in Hr.
  now rewrite Hrun in Hr.
Qed.

Lemma handleAlarmEvent_absent eventType alarmId w :
  inTable alarmId w = false ->
  exists w', alarmEventService.handleAlarmEvent eventType alarmId w = (Ok tt, w')
             /\ onlyTicked w w'.
Proof.
  intros Habs. unfold alarmEventService.handleAlarmEvent.
  destruct (getAlarmById_absent_reads alarmId w Habs) as (w' & Hrun & Hfr).
  destruct (String.eqb eventType "ALARM_DISMISSED").
  - unfold alarmEventService.handleDismiss, tryCatch, bind. rewrite Hrun. eauto.
  - destruct (String.eqb eventType "ALARM_SNOOZED").
    + unfold alarmEventService.handleSnooze, tryCatch, bind. rewrite Hrun. eauto.
    + exists w. split; [reflexivity | reflexivity].
Qed.

Lemma sendEventToReactNative_cases eventType alarmId w :
  AlarmActivity.sendEventToReactNative eventType alarmId w
  = if hasAlarmEventModule (device w) && catalystActive (device w) && subscription w
    then alarmEventService.handleAlarmEvent eventType alarmId w
    else (Ok tt, w).
Proof.
  unfold AlarmActivity.sendEventToReactNative, AlarmEventModule.onReceive,
    AlarmEventModule.sendEvent, alarmEventService.listener.
  rewrite bind_get. destruct (hasAlarmEventModule (device w)); [|reflexivity].
  rewrite bind_get. destruct (catalystActive (device w)); [|reflexivity].
  rewrite bind_get. destruct (subscription w); reflexivity.
Qed.

(** X22. An event that names an id without a record is ignored. When a
    timer whose id is not a stored id fires and the user presses Dismiss or
    Snooze on the native screen, nothing is written and nothing is armed,
    in every world: the table, the timers and the scheduled notifications
    are as before. The timer of a snooze carries the id [snooze-<id>]:
    while no record has that id, a snoozed alarm cannot be snoozed again
    from the native screen, and dismissing it there does not disable its
    one-time record. *)
Theorem event_without_record_ignored (timer : PendingAlarm) w :
  inTable (intentAlarmId timer) w = false ->
  let screen := AlarmActivity.onCreate (AlarmReceiver.onReceive timer) in
  onlyTicked w (exec (AlarmActivity.dismissButton screen) w)
  /\ onlyTicked w (exec (AlarmActivity.snoozeButton screen) w)
  /\ result (AlarmActivity.dismissButton screen) w = Ok tt
  /\ result (AlarmActivity.snoozeButton screen) w = Ok tt.
Proof.
  intros Habs screen. subst screen.
  unfold AlarmActivity.dismissButton, AlarmActivity.snoozeButton,
    AlarmActivity.onCreate, AlarmReceiver.onReceive,
    AlarmActivity.handleDismiss, AlarmActivity.handleSnooze.
  cbn [AlarmActivity.fieldAlarmId AlarmReceiver.extraAlarmId].
  unfold exec, result. rewrite !sendEventToReactNative_cases.
  destruct (hasAlarmEventModule (device w) && catalystActive (device w) && subscription w).
  - destruct (handleAlarmEvent_absent "ALARM_DISMISSED" _ w Habs) as (w1 & -> & F1).
    destruct (handleAlarmEvent_absent "ALARM_SNOOZED" _ w Habs) as (w2 & -> & F2).
    repeat split; assumption || apply F1 || apply F2.
  - cbn [fst snd]. repeat split; reflexivity.
Qed.

Lemma event_without_record_ignored_witness :
  onlyTicked firedWorld
    (exec (AlarmActivity.snoozeButton
             (AlarmActivity.onCreate
                (AlarmReceiver.onReceive (snoozeTimer 25200000 sampleAlarm))))
       firedWorld).
Proof.
  refine (proj1 (proj2 (event_without_record_ignored
                          (snoozeTimer 25200000 sampleAlarm) firedWorld _))).
  reflexivity.
Defined.

(** X23. The events of the native screen reach the handlers only through
    a registered event module, an active React instance and a held
    subscription: when one of the three is missing, a press on Dismiss or
    Snooze leaves the world exactly as it was, so a one-time alarm
    dismissed then stays enabled. [initialize] subscribes on Android with
    the event module present and nowhere else, and [cleanup] gives the
    subscription up. *)
Theorem native_events_need_a_listener alarmId w :
  (hasAlarmEventModule (device w) && catalystActive (device w) && subscription w = false ->
   AlarmActivity.handleDismiss alarmId w = (Ok tt, w)
   /\ AlarmActivity.handleSnooze alarmId w = (Ok tt, w))
  /\ subscription (exec alarmEventService.initialize w)
     = match platformOS (device w) with
       | android => hasAlarmEventModule (device w) || subscription w
       | ios => subscription w
       end
  /\ AlarmActivity.handleDismiss alarmId (exec alarmEventService.cleanup w)
     = (Ok tt, exec alarmEventService.cleanup w).
Proof.
  split; [|split].
  - intros Hoff. unfold AlarmActivity.handleDismiss, AlarmActivity.handleSnooze.
    rewrite !sendEventToReactNative_cases, Hoff. split; reflexivity.
  - unfold exec, alarmEventService.initialize. rewrite bind_get.
    destruct (platformOS (device w)); [|reflexivity].
    destruct (hasAlarmEventModule (device w)); reflexivity.
  - unfold AlarmActivity.handleDismiss. rewrite sendEventToReactNative_cases.
    unfold exec, alarmEventService.cleanup, modify. cbn [snd subscription set_subscription].
    now rewrite andb_false_r.
Qed.

Lemma native_events_need_a_listener_witness :
  AlarmActivity.handleDismiss "1"
    (mkWorld sampleDevice 25200000 0 true [oneTimeRow] true [] 0 ∅ false [])
  = (Ok tt, mkWorld sampleDevice 25200000 0 true [oneTimeRow] true [] 0 ∅ false []).
Proof.
  refine (proj1 (proj1 (native_events_need_a_listener "1"
            (mkWorld sampleDevice 25200000 0 true [oneTimeRow] true [] 0 ∅ false [])) _)).
  reflexivity.
Defined.

End EventLaws.

Module ScreenLaws.
Import StoreProofs RunFacts FrameRules ArmProofs SnoozeProofs RearmProofs StoreLaws GatewayLaws
  EventLaws.
Local Open Scope js_scope.

(** [scheduleSnoozeNotification], in every world: what it answers and what
    it leaves behind. *)
Lemma scheduleSnoozeNotification_cases t l alarmId w :
  exists o w1,
    notificationService.scheduleSnoozeNotification t l alarmId w = (Ok o, w1)
    /\ routerStack w1 = routerStack w /\ alarmsTable w1 = alarmsTable w
    /\ (AlarmModule.isAvailable w = true ->
        scheduled w1 = scheduled w
        /\ alarmManager w1
           = if rejects (device w) (tick w) NativeScheduleAlarm then alarmManager w
             else <[hashCode ("snooze-" +:+ alarmId) :=
                      mkPendingAlarm ("snooze-" +:+ alarmId) (orElse l "Snooze Alarm")
                        t false]> (alarmManager w))
    /\ (AlarmModule.isAvailable w = false -> alarmManager w1 = alarmManager w).
Proof.
  destruct (AlarmModule.isAvailable w) eqn:Hav.
  - destruct (rejects (device w) (tick w) NativeScheduleAlarm) eqn:Hrej.
    + exists None, (stepped w). split.
      * unfold notificationService.scheduleSnoozeNotification, tryCatch.
        rewrite bind_get, Hav.
        unfold AlarmModule.scheduleAlarm, AlarmModuleNative.scheduleAlarm. js_unfold.
        rewrite Hav. simpl. rewrite Hrej. reflexivity.
      * split; [reflexivity|]. split; [reflexivity|].
        split; [intros _; split; reflexivity | intros [=]].
    + eexists _, _. split.
      * apply scheduleSnoozeNotification_run; assumption.
      * split; [reflexivity|]. split; [reflexivity|].
        split; [intros _; split; reflexivity | intros [=]].
  - unfold notificationService.scheduleSnoozeNotification, tryCatch.
    rewrite bind_get, Hav.
    unfold Notifications.scheduleNotificationAsync. js_unfold.
    destruct (rejects (device w) (tick w) ScheduleNotification);
      eexists _, _; (split; [reflexivity|]);
      (split; [reflexivity|]); (split; [reflexivity|]);
      (split; [intros [=] | intros _; reflexivity]).
Qed.

Lemma ringScreen_snooze_run alarmLabel alarmId w :
  exists o w1,
    notificationService.scheduleSnoozeNotification (clock w + 5 * 60 * 1000)
      alarmLabel alarmId w = (Ok o, w1)
    /\ AlarmRingScreen.handleSnooze alarmLabel alarmId w
       = (Ok tt, set_routerStack (tl (routerStack w1)) w1).
Proof.
  destruct (scheduleSnoozeNotification_cases (clock w + 5 * 60 * 1000) alarmLabel alarmId w)
    as (o & w1 & Hrun & _).
  exists o, w1. split; [exact Hrun|].
  unfold AlarmRingScreen.handleSnooze. rewrite bind_get.
  unfold bind at 1, tryCatch, bind. rewrite Hrun. reflexivity.
Qed.

(** X27. Snooze on the ringing screen always answers, always goes back one
    screen and never writes the table, whatever fails. With the native
    module and the arm call accepted it arms a one-shot timer five minutes
    from now under the id [snooze-<id>], labelled with the label shown (or
    "Snooze Alarm" for an empty one), whether or not the id is a stored
    one; when the arm call rejects nothing is armed. *)
Theorem ringScreen_snooze alarmLabel alarmId w :
  let w' := exec (AlarmRingScreen.handleSnooze alarmLabel alarmId) w in
  result (AlarmRingScreen.handleSnooze alarmLabel alarmId) w = Ok tt
  /\ routerStack w' = tl (routerStack w)
  /\ alarmsTable w' = alarmsTable w
  /\ (AlarmModule.isAvailable w = true ->
      scheduled w' = scheduled w
      /\ alarmManager w'
         = if rejects (device w) (tick w) NativeScheduleAlarm then alarmManager w
           else <[hashCode ("snooze-" +:+ alarmId) :=
                    mkPendingAlarm ("snooze-" +:+ alarmId) (orElse alarmLabel "Snooze Alarm")
                      (clock w + 5 * 60 * 1000) false]> (alarmManager w)).
Proof.
  intros w'. subst w'.
  destruct (ringScreen_snooze_run alarmLabel alarmId w) as (o & w1 & Hs & Hrun).
  destruct (scheduleSnoozeNotification_cases (clock w + 5 * 60 * 1000) alarmLabel alarmId w)
    as (o' & w1' & Hs' & Hr & Ht & Hav & _).
  rewrite Hs in Hs'. injection Hs' as <- <-.
  unfold exec, result. rewrite Hrun. cbn [fst snd].
  cbn [routerStack alarmsTable scheduled alarmManager set_routerStack].
  rewrite Hr. repeat split; try assumption; now apply Hav.
Qed.

Lemma ringScreen_snooze_witness :
  alarmManager (exec (AlarmRingScreen.handleSnooze "Wake" "1") firedWorld)
    !! hashCode "snooze-1"
  = Some (mkPendingAlarm "snooze-1" "Wake" 25500000 false).
Proof.
  destruct (ringScreen_snooze "Wake" "1" firedWorld) as (_ & _ & _ & H).
  destruct (H eq_refl) as (_ & E). rewrite E. reflexivity.
Defined.

(** What [getAlarmById] can answer. *)
Lemma getAlarmById_answer id w o w' :
  alarmStorage.getAlarmById id w = (Ok o, w') ->
  onlyTicked w w'
  /\ forall alarm, o = Some alarm ->
       exists row, rowOf id w = Some row /\ alarmOfRow row = Some alarm.
Proof.
  intros Hrun. split.
  - pose proof (getAlarmById_reads id w) as Hr. unfold preservesAt in Hr.
    now rewrite Hrun in Hr.
  - intros alarm ->. revert Hrun.
    unfold alarmStorage.getAlarmById, tryCatch. unfold bind at 1.
    destruct (database.getDatabase w) as [[[]|e] w1] eqn:E1; [|intros [=]].
    assert (Ht1 : alarmsTable w1 = alarmsTable w).
    { pose proof (getDatabase_reads w) as Hr. unfold preservesAt in Hr.
      rewrite E1 in Hr. apply Hr. }
    unfold bind at 1, await.
    destruct (rejects (device w1) (tick w1) GetFirst); [intros [=]|].
    rewrite bind_get. cbn [alarmsTable set_tick]. rewrite Ht1.
    unfold rowOf. destruct (find (Sql.hasId id) (alarmsTable w)) as [row|]; [|intros [=]].
    unfold bind, alarmStorage.rowToAlarm.
    destruct (Iso.parseDate (AlarmRow.time row)) as [t|] eqn:Ep; cbn; [|intros [=]].
    destruct (Json.parse (AlarmRow.repeatDays row)) as [days|] eqn:Ej; cbn; [|intros [=]].
    intros [= <- _]. exists row. split; [reflexivity|].
    unfold alarmOfRow. now rewrite Ep, Ej.
Qed.

Lemma ringScreen_dismiss_repeating_run alarmId w :
  (forall row alarm, rowOf alarmId w = Some row -> alarmOfRow row = Some alarm ->
     repeatDays alarm <> []) ->
  exists w1,
    AlarmRingScreen.handleDismiss alarmId w
    = (Ok tt, set_routerStack (tl (routerStack w1)) w1)
    /\ onlyTicked w w1.
Proof.
  intros Hrep. unfold AlarmRingScreen.handleDismiss.
  destruct (String.eqb alarmId EmptyString).
  { exists w. split; [reflexivity | apply onlyTicked_refl]. }
  unfold bind at 1, tryCatch. unfold bind at 1.
  destruct (getAlarmById_total alarmId w) as (o & w1 & Hrun). rewrite Hrun.
  destruct (getAlarmById_answer _ _ _ _ Hrun) as (Hfr & Hans).
  exists w1. split; [|exact Hfr].
  destruct o as [alarm|]; [|reflexivity].
  destruct (Hans alarm eq_refl) as (row & Hrow & Hal).
  specialize (Hrep row alarm Hrow Hal).
  destruct (repeatDays alarm) as [|d ds]; [congruence | reflexivity].
Qed.

(** X28. Dismiss on the ringing screen leaves a repeating alarm alone: when
    the record of the id is not a one-time alarm (no record, or one with
    days selected), nothing is written and nothing is armed or cancelled,
    in every world; the screen is left. The re-arming of a repeating alarm
    is done by the handler of the native event only. *)
Theorem ringScreen_dismiss_repeating alarmId w :
  (forall row alarm, rowOf alarmId w = Some row -> alarmOfRow row = Some alarm ->
     repeatDays alarm <> []) ->
  let w' := exec (AlarmRingScreen.handleDismiss alarmId) w in
  result (AlarmRingScreen.handleDismiss alarmId) w = Ok tt
  /\ alarmsTable w' = alarmsTable w
  /\ alarmManager w' = alarmManager w
  /\ scheduled w' = scheduled w
  /\ routerStack w' = tl (routerStack w).
Proof.
  intros Hrep w'. subst w'.
  destruct (ringScreen_dismiss_repeating_run alarmId w Hrep)
    as (w1 & Hrun & (Hd & Hc & Hm & Hs & _ & _ & _ & Hr) & Ht).
  unfold exec, result. rewrite Hrun. cbn. rewrite Hr. repeat split; assumption.
Qed.

Lemma ringScreen_dismiss_repeating_witness :
  alarmsTable (exec (AlarmRingScreen.handleDismiss "2")
                 (mkWorld sampleDevice 370800000 0 true [repeatingRow] true [] 0 ∅ true
                    [RingScreen "2" "Work"]))
  = [repeatingRow].
Proof.
  refine (proj1 (proj2 (ringScreen_dismiss_repeating "2"
            (mkWorld sampleDevice 370800000 0 true [repeatingRow] true [] 0 ∅ true
               [RingScreen "2" "Work"]) _))).
  intros row alarm Hrow Hal. vm_compute in Hrow. injection Hrow as <-.
  vm_compute in Hal. injection Hal as <-. discriminate.
Defined.

Lemma scheduleAlarmNotification_denied_run alarm w :
  notificationsDenied w ->
  exists w', notificationService.scheduleAlarmNotification alarm w = (Ok None, w')
             /\ onlyTicked w w'.
Proof.
  intros [Hg Hu].
  unfold notificationService.scheduleAlarmNotification,
    notificationService.requestPermissions.
  js_unfold.
  destruct (rejects (device w) (tick w) GetPermissions); simpl.
  { eexists. split; [reflexivity | apply onlyTicked_tick]. }
  rewrite Hg. simpl.
  destruct (rejects (device w) (S (tick w)) RequestPermissions); simpl;
    [eexists; split; [reflexivity|];
     unfold onlyTicked, platformUnchanged; simpl; tauto|].
  rewrite Hu. simpl. eexists. split; [reflexivity|].
  unfold onlyTicked, platformUnchanged. simpl. rewrite Hg. tauto.
Qed.

(** X29. With the notification permission denied, and kept denied by the
    user, [scheduleAlarmNotification] returns before it cancels anything:
    it answers [null] and the timer or notification the record names stays
    as it is, in every world. *)
Theorem denied_permission_keeps_old_schedule alarm w :
  notificationsDenied w ->
  result (notificationService.scheduleAlarmNotification alarm) w = Ok None
  /\ onlyTicked w (exec (notificationService.scheduleAlarmNotification alarm) w).
Proof.
  intros Hden.
  destruct (scheduleAlarmNotification_denied_run alarm w Hden) as (w' & Hrun & Hfr).
  unfold result, exec. rewrite Hrun. split; [reflexivity | exact Hfr].
Qed.

Lemma denied_permission_keeps_old_schedule_witness :
  result (notificationService.scheduleAlarmNotification
            (mkAlarm "1" 25200000 "Wake" true [] (Some "native-1")))
    (worldOn deniedDevice false [oneTimeRow])
  = Ok None.
Proof.
  refine (proj1 (denied_permission_keeps_old_schedule _ _ _)). split; reflexivity.
Defined.

End ScreenLaws.

Module DisplayProofs.
Import Ecma JsDate NextOccurrenceFacts.

(** The minutes as they are displayed: two digits. *)
Lemma displayMinutes_digits_nat (k : nat) :
  (k < 60)%nat ->
  padStart 2 "0" (pretty (Z.of_nat k))
  = String (Iso.digitChar (Z.of_nat k / 10))
      (String (Iso.digitChar (Z.of_nat k mod 10)) EmptyString).
Proof.
  intros Hk. do 60 (destruct k as [|k]; [vm_compute; reflexivity|]). lia.
Qed.

Lemma displayMinutes_digits m :
  0 <= m <= 59 ->
  padStart 2 "0" (pretty m)
  = String (Iso.digitChar (m / 10)) (String (Iso.digitChar (m mod 10)) EmptyString).
Proof.
  intros Hm. rewrite <- (Z2Nat.id m) by lia. apply displayMinutes_digits_nat. lia.
Qed.

Lemma digitChar_inj a b : 0 <= a <= 9 -> 0 <= b <= 9 -> Iso.digitChar a = Iso.digitChar b -> a = b.
Proof.
  intros Ha Hb E. unfold Iso.digitChar in E.
  apply (f_equal nat_of_ascii) in E.
  rewrite !nat_ascii_embedding in E by lia. lia.
Qed.

(** The displayed text determines the hour and the two minute digits. *)
Lemma formatTime_hour_cases (c1 c2 d1 d2 : ascii) (h h' : nat) :
  (h < 24)%nat -> (h' < 24)%nat ->
  pretty (if Z.rem (Z.of_nat h) 12 =? 0 then 12 else Z.rem (Z.of_nat h) 12) +:+ ":"
    +:+ String c1 (String c2 EmptyString) +:+ " "
    +:+ (if 12 <=? Z.of_nat h then "PM" else "AM")
  = pretty (if Z.rem (Z.of_nat h') 12 =? 0 then 12 else Z.rem (Z.of_nat h') 12) +:+ ":"
    +:+ String d1 (String d2 EmptyString) +:+ " "
    +:+ (if 12 <=? Z.of_nat h' then "PM" else "AM") ->
  h = h' /\ c1 = d1 /\ c2 = d2.
Proof.
  intros Hh Hh'.
  do 24 (destruct h as [|h];
         [do 24 (destruct h' as [|h'];
                 [vm_compute; intros E; try discriminate E;
                  injection E; intros; subst; repeat split |]); lia |]).
  lia.
Qed.

(** X24. The time display is unambiguous: two instants are shown alike by
    [formatTime] exactly when they have the same local hour and minute. *)
Theorem formatTime_injective tz t1 t2 :
  formatTime tz t1 = formatTime tz t2
  <-> getHours tz t1 = getHours tz t2 /\ getMinutes tz t1 = getMinutes tz t2.
Proof.
  split.
  - unfold formatTime.
    pose proof (getHours_range tz t1) as Hh1. pose proof (getHours_range tz t2) as Hh2.
    pose proof (getMinutes_range tz t1) as Hm1. pose proof (getMinutes_range tz t2) as Hm2.
    set (h1 := getHours tz t1) in *. set (h2 := getHours tz t2) in *.
    set (m1 := getMinutes tz t1) in *. set (m2 := getMinutes tz t2) in *.
    clearbody h1 h2 m1 m2.
    rewrite !displayMinutes_digits by assumption.
    rewrite <- (Z2Nat.id h1), <- (Z2Nat.id h2) by lia.
    intros E. apply formatTime_hour_cases in E as (Eh & E1 & E2); [|lia|lia].
    split; [lia|].
    apply digitChar_inj in E1; [|Z.div_mod_to_equations; lia|Z.div_mod_to_equations; lia].
    apply digitChar_inj in E2; [|Z.div_mod_to_equations; lia|Z.div_mod_to_equations; lia].
    Z.div_mod_to_equations. lia.
  - intros [Eh Em]. unfold formatTime. now rewrite Eh, Em.
Qed.

Lemma formatTime_injective_witness :
  getHours 0 47100000 = getHours 0 (47100000 + 86400000 + 59999)
  /\ getMinutes 0 47100000 = getMinutes 0 (47100000 + 86400000 + 59999).
Proof. apply (proj1 (formatTime_injective 0 _ _)). vm_compute. reflexivity. Defined.

Example formatTime_midnight_noon :
  formatTime 0 0 = "12:00 AM"%string
  /\ formatTime 0 43200000 = "12:00 PM"%string
  /\ formatTime 0 47100000 = "1:05 PM"%string.
Proof. vm_compute. repeat split. Qed.

End DisplayProofs.

Module AudioProofs.
Import audioService.



Lemma timersFire_silent n : forall p,
  isPlaying p = false -> (vibrateTimers p <= n)%nat ->
  vibrateTimers (timersFire n p) = O
  /\ pulses (timersFire n p) = pulses p
  /\ isPlaying (timersFire n p) = false.
Proof.
  induction n as [|n IH]; intros p Hoff Hn; cbn [timersFire].
  - repeat split; [lia | exact Hoff].
  - unfold timerFires. destruct (vibrateTimers p) as [|k] eqn:Ek.
    + destruct (IH p Hoff ltac:(lia)) as (A & B & C). auto.
    + unfold vibrate. cbn [isPlaying]. rewrite Hoff.
      destruct (IH (mkPlayer (soundObject p) false (loaded p) (nextSound p) k (pulses p))
                  eq_refl ltac:(cbn; lia)) as (A & B & C).
      auto.
Qed.

(** X26. [stopAlarmSound] never rejects. When the stop and unload calls
    go through, or no sound is held, the module ends with no sound and
    [isPlaying] false, the sound it held is unloaded, and every vibration
    loop dies at its next timer without another pulse. When a sound is held
    and the stop or the unload call rejects, the module is left as it was:
    an alarm that was playing is still marked playing, and its vibration
    loop goes on, one pulse and one new timer at every timer. *)
Theorem stopAlarmSound_outcomes rejects p :
  (soundObject p = None \/ (rejects StopSound = false /\ rejects UnloadSound = false) ->
   soundObject (stopAlarmSound rejects p) = None
   /\ isAlarmPlaying (stopAlarmSound rejects p) = false
   /\ (forall s, soundObject p = Some s -> ~ In s (loaded (stopAlarmSound rejects p)))
   /\ vibrateTimers (timersFire (vibrateTimers p) (stopAlarmSound rejects p)) = O
   /\ pulses (timersFire (vibrateTimers p) (stopAlarmSound rejects p)) = pulses p)
  /\ (forall s, soundObject p = Some s ->
      rejects StopSound = true \/ rejects UnloadSound = true ->
      stopAlarmSound rejects p = p
      /\ (isPlaying p = true -> vibrateTimers p <> O ->
          vibrateTimers (timerFires p) = vibrateTimers p
          /\ pulses (timerFires p) = S (pulses p)
          /\ isPlaying (timerFires p) = true)).
Proof.
  split.
  - intros Hok.
    assert (E : stopAlarmSound rejects p
                = mkPlayer None false
                    (match soundObject p with
                     | Some s => List.filter (fun x => negb (Nat.eqb x s)) (loaded p)
                     | None => loaded p
                     end) (nextSound p) (vibrateTimers p) (pulses p)).
    { unfold stopAlarmSound. destruct (soundObject p) as [s|]; [|reflexivity].
      destruct Hok as [[=]|[-> ->]]. reflexivity. }
    rewrite E. unfold isAlarmPlaying. cbn [soundObject isPlaying loaded].
    split; [reflexivity|]. split; [reflexivity|]. split.
    + intros s ->. intros Hin. apply filter_In in Hin as [_ Hin].
      now rewrite Nat.eqb_refl in Hin.
    + pose proof (timersFire_silent (vibrateTimers p)
                    (mkPlayer None false
                       (match soundObject p with
                        | Some s => List.filter (fun x => negb (Nat.eqb x s)) (loaded p)
                        | None => loaded p
                        end) (nextSound p) (vibrateTimers p) (pulses p))
                    eq_refl ltac:(cbn; lia)) as (A & B & _).
      split; [exact A | exact B].
  - intros s Hs Hrej. split.
    + unfold stopAlarmSound. rewrite Hs.
      destruct (rejects StopSound); [reflexivity|].
      destruct Hrej as [[=]| ->]. reflexivity.
    + intros Hon Ht. unfold timerFires, vibrate.
      destruct (vibrateTimers p) as [|k]; [congruence|].
      cbn [isPlaying]. rewrite Hon. cbn. auto.
Qed.

Lemma stopAlarmSound_outcomes_witness :
  stopAlarmSound (fun c => match c with StopSound => true | _ => false end) ringingPlayer
  = ringingPlayer
  /\ isAlarmPlaying (stopAlarmSound (fun _ => false) ringingPlayer) = false.
Proof.
  destruct (stopAlarmSound_outcomes
              (fun c => match c with StopSound => true | _ => false end) ringingPlayer)
    as (_ & Hfail).
  destruct (stopAlarmSound_outcomes (fun _ => false) ringingPlayer) as (Hok & _).
  split.
  - apply (Hfail 0%nat); [reflexivity | left; reflexivity].
  - apply Hok. right. split; reflexivity.
Defined.

(** A restart while the old sound cannot be stopped leaves two sounds
    loaded, of which the module holds only the new one. *)
Example playAlarmSound_leaks_unstopped_sound :
  loaded (playAlarmSound (fun c => match c with StopSound => true | _ => false end)
            ringingPlayer)
  = [1%nat; 0%nat]
  /\ soundObject (playAlarmSound (fun c => match c with StopSound => true | _ => false end)
                    ringingPlayer)
     = Some 1%nat.
Proof. split; reflexivity. Qed.

End AudioProofs.

Module LifecycleLaws.
Import Ecma JsDate CalculatorProofs CalculatorLaws.
Import StoreProofs RunFacts FrameRules ArmProofs SnoozeProofs RearmProofs StoreLaws GatewayLaws.
Local Open Scope js_scope.

Lemma handleDismiss_repeating_run alarmId row alarm w :
  noRejection w -> notificationsGranted w = true -> AlarmModule.isAvailable w = true ->
  rowOf alarmId w = Some row -> alarmOfRow row = Some alarm -> repeatDays alarm <> [] ->
  exists w',
    alarmEventService.handleDismiss alarmId w = (Ok tt, w')
    /\ alarmsTable w' = alarmsTable w
    /\ alarmManager w' !! hashCode alarmId = Some (timerOf alarm w).
Proof.
  intros H Hg Hav Hrow Hal Hne.
  unfold alarmEventService.handleDismiss, tryCatch.
  unfold bind at 1. rewrite (getAlarmById_run alarmId row alarm) by assumption.
  destruct (repeatDays alarm) as [|d ds] eqn:Ed; [congruence|].
  change ((length (d :: ds) =? 0)%nat) with false. cbv iota.
  set (w1 := stepped (opened w)).
  assert (Hd1 : device w1 = device w) by apply stepped_opened_device.
  assert (H1 : noRejection w1) by (eapply noRejection_device; eassumption).
  assert (Hg1 : notificationsGranted w1 = true).
  { destruct (platformUnchanged_query w) as (_ & _ & _ & _ & _ & Hn & _).
    unfold w1. now rewrite Hn. }
  assert (Hav1 : AlarmModule.isAvailable w1 = true)
    by (rewrite (isAvailable_device w w1 Hd1); exact Hav).
  destruct (scheduleAlarmNotification_native_run alarm w1 H1 Hg1 Hav1)
    as (w' & Hrun & Hm & Ht & _).
  unfold bind. rewrite Hrun. unfold ret. exists w'. split; [reflexivity|].
  split; [rewrite Ht; apply stepped_opened_table|].
  assert (Hid : id alarm = alarmId)
    by (rewrite (alarmOfRow_id row alarm Hal); now apply (rowOf_id alarmId w)).
  rewrite <- Hid, Hm. f_equal. apply timerOf_same; [exact Hd1|].
  destruct (platformUnchanged_query w) as (_ & Hc & _). exact Hc.
Qed.



End LifecycleLaws.
